(** * Covered-call strategist: a shallow embedding of the decision engine

    The Python sources embedded here are
    - [src/tools/analysis_tools.py]   (option metrics, best-by-yield, breakeven),
    - [src/tools/options_tools.py]    (the window and liquidity filter),
    - [src/tools/technical_tools.py]  (the aggregation of indicator signals),
    - [src/tools/strategy_tools.py]   (strike selection, layering, orchestration),
    - [src/tools/formatting_tools.py] (the error-message table),
    - [src/telegram_bot/handlers.py]  (the splitting of a long reply),
    - [src/telegram_bot/rate_limiter.py] and
      [src/telegram_bot/firestore_client.py] (the limiter, the allowlist and
      the conversation histories of the bot).

    Python values are dynamically typed; they are modelled by the type [value].
    A Python [float] is an IEEE-754 binary64 number and is modelled by
    [spec_float] with the operations of the Standard Library's [SpecFloat]
    (the specification the primitive floats of Rocq are axiomatised against),
    so that rounding is the one Python performs.  A Python [int] is a [Z].
    A Python [dict] with string keys is a [gmap string value].  A raised
    exception is the [Raise] outcome of the [result] monad; a [try/except]
    of the source is an explicit match on that outcome. *)

From Stdlib Require Import ZArith QArith Qabs Qpower Lia Lqa.
From Stdlib Require Import Floats.
From stdpp Require Import gmap strings list.

Set Warnings "-inexact-float".
#[local] Open Scope Z_scope.

(** ** Python values, exceptions and the builtins the sources use *)

Module Py.

Declare Scope py_scope.
Delimit Scope py_scope with py.

Inductive value :=
  | VNone
  | VBool (b : bool)
  | VInt (z : Z)
  | VFloat (f : spec_float)
  | VStr (s : string).

Inductive exn :=
  | KeyError (k : string)
  | TypeError
  | ZeroDivisionError
  | OverflowError
  | ValueError.

Inductive result (A : Type) :=
  | Ok (a : A)
  | Raise (e : exn).
Arguments Ok {A} a.
Arguments Raise {A} e.

(** Sequencing: the first raised exception ends the computation. *)
Definition bind {A B} (r : result A) (k : A → result B) : result B :=
  match r with
  | Ok a => k a
  | Raise e => Raise e
  end.

Definition map {A B} (g : A → B) (r : result A) : result B :=
  bind r (λ a, Ok (g a)).

Notation "x <- r ; k" := (bind r (λ x, k))
  (at level 20, r at level 100, k at level 200, only parsing) : py_scope.
Notation "' p <- r ; k" := (bind r (λ p, k))
  (at level 20, p pattern, r at level 100, k at level 200, only parsing) : py_scope.
#[local] Open Scope py_scope.

(** A float literal of the source: the binary64 number nearest to the
    decimal, as Python reads it. *)
Definition fl (x : float) : spec_float := Prim2SF x.

(** *** Numbers and their exact values *)

(** [bool] is a subclass of [int] in Python: [True] and [False] take part in
    arithmetic and comparisons as 1 and 0. *)
Inductive num :=
  | NInt (z : Z)
  | NFloat (f : spec_float).

Definition as_num (v : value) : option num :=
  match v with
  | VBool b => Some (NInt (Z.b2z b))
  | VInt z => Some (NInt z)
  | VFloat f => Some (NFloat f)
  | _ => None
  end.

Definition value_of_num (n : num) : value :=
  match n with
  | NInt z => VInt z
  | NFloat f => VFloat f
  end.

(** The real number a Python number denotes, with the two infinities and
    not-a-number. *)
Inductive xreal :=
  | XNaN
  | XNegInf
  | XFin (q : Q)
  | XPosInf.

Definition dyadic (m e : Z) : Q := (inject_Z m * 2 ^ e)%Q.

Definition exactF (f : spec_float) : xreal :=
  match f with
  | S754_zero _ => XFin 0
  | S754_infinity s => if s then XNegInf else XPosInf
  | S754_nan => XNaN
  | S754_finite s m e => XFin (dyadic (cond_Zopp s (Zpos m)) e)
  end.

Definition exact (n : num) : xreal :=
  match n with
  | NInt z => XFin (inject_Z z)
  | NFloat f => exactF f
  end.

(** Comparison of two Python numbers: it is exact, also between an [int]
    and a [float]; not-a-number is unordered. *)
Definition xcmp (a b : xreal) : option comparison :=
  match a, b with
  | XNaN, _ | _, XNaN => None
  | XNegInf, XNegInf => Some Eq
  | XNegInf, _ => Some Lt
  | _, XNegInf => Some Gt
  | XPosInf, XPosInf => Some Eq
  | XPosInf, _ => Some Gt
  | _, XPosInf => Some Lt
  | XFin p, XFin q => Some (p ?= q)%Q
  end.

Definition num_cmp (a b : num) : option comparison := xcmp (exact a) (exact b).

Definition is_lt (c : option comparison) : bool :=
  match c with Some Lt => true | _ => false end.
Definition is_le (c : option comparison) : bool :=
  match c with Some Lt | Some Eq => true | _ => false end.
Definition is_gt (c : option comparison) : bool :=
  match c with Some Gt => true | _ => false end.
Definition is_ge (c : option comparison) : bool :=
  match c with Some Gt | Some Eq => true | _ => false end.
Definition is_eq (c : option comparison) : bool :=
  match c with Some Eq => true | _ => false end.

(** Ordering comparisons [<], [<=], [>], [>=]: defined between two numbers
    and between two strings, a [TypeError] otherwise. *)
Definition py_compare (test : option comparison → bool) (a b : value) : result bool :=
  match as_num a, as_num b with
  | Some x, Some y => Ok (test (num_cmp x y))
  | _, _ =>
    match a, b with
    | VStr s, VStr t => Ok (test (Some (String.compare s t)))
    | _, _ => Raise TypeError
    end
  end.

Definition py_lt : value → value → result bool := py_compare is_lt.
Definition py_le : value → value → result bool := py_compare is_le.
Definition py_gt : value → value → result bool := py_compare is_gt.
Definition py_ge : value → value → result bool := py_compare is_ge.

(** [==] never raises. *)
Definition py_eq (a b : value) : bool :=
  match as_num a, as_num b with
  | Some x, Some y => is_eq (num_cmp x y)
  | _, _ =>
    match a, b with
    | VStr s, VStr t => bool_decide (s = t)
    | VNone, VNone => true
    | _, _ => false
    end
  end.

(** Truth value of an object, as [if x], [not x] and [and] test it. *)
Definition py_truthy (v : value) : bool :=
  match v with
  | VNone => false
  | VBool b => b
  | VInt z => negb (z =? 0)
  | VFloat f => negb (is_eq (xcmp (exactF f) (XFin 0)))
  | VStr s => negb (bool_decide (s = EmptyString))
  end.

(** *** Arithmetic *)

Definition is_infinity (f : spec_float) : bool :=
  match f with S754_infinity _ => true | _ => false end.

Definition is_zero (f : spec_float) : bool :=
  match f with S754_zero _ => true | _ => false end.

(** [float(z)]: the nearest binary64 number, [OverflowError] when [z] is too
    large for one. *)
Definition float_of_int (z : Z) : result spec_float :=
  let f := binary_normalize prec emax z 0 false in
  if is_infinity f then Raise OverflowError else Ok f.

Definition to_float (n : num) : result spec_float :=
  match n with
  | NInt z => float_of_int z
  | NFloat f => Ok f
  end.

(** [a / b] on two ints: the correctly rounded quotient. *)
Definition int_truediv (a b : Z) : result spec_float :=
  if b =? 0 then Raise ZeroDivisionError
  else
    let s := xorb (a <? 0) (b <? 0) in
    if a =? 0 then Ok (S754_zero s)
    else
      let '(q, e, l) := SFdiv_core_binary prec emax (Z.abs a) 0 (Z.abs b) 0 in
      let f := binary_round_aux prec emax s q e l in
      if is_infinity f then Raise OverflowError else Ok f.

Definition float_truediv (x y : spec_float) : result spec_float :=
  if is_zero y then Raise ZeroDivisionError else Ok (SF64div x y).

Definition num_arith (on_int : Z → Z → result num)
    (on_float : spec_float → spec_float → result spec_float) (a b : value) : result value :=
  match as_num a, as_num b with
  | Some (NInt x), Some (NInt y) => map value_of_num (on_int x y)
  | Some x, Some y =>
    fx <- to_float x; fy <- to_float y; map VFloat (on_float fx fy)
  | _, _ => Raise TypeError
  end.

Definition py_add : value → value → result value :=
  num_arith (λ x y, Ok (NInt (x + y))) (λ x y, Ok (SF64add x y)).
Definition py_sub : value → value → result value :=
  num_arith (λ x y, Ok (NInt (x - y))) (λ x y, Ok (SF64sub x y)).
Definition py_mul : value → value → result value :=
  num_arith (λ x y, Ok (NInt (x * y))) (λ x y, Ok (SF64mul x y)).
Definition py_truediv : value → value → result value :=
  num_arith (λ x y, map NFloat (int_truediv x y)) float_truediv.

(** *** [round(x, ndigits)] with [ndigits >= 0] *)

(** The integer nearest to [n / d] for [0 <= n] and [0 < d], ties to even. *)
Definition div_half_even (n d : Z) : Z :=
  let '(k, r) := Z.div_eucl n d in
  match 2 * r ?= d with
  | Lt => k
  | Gt => k + 1
  | Eq => if Z.even k then k else k + 1
  end.

(** A float is rounded to the decimal with [nd] places nearest to its exact
    value (ties to even), and that decimal is read back as the nearest
    float.  Zeros, infinities, not-a-number and integral values are
    unchanged. *)
Definition round_float (f : spec_float) (nd : Z) : spec_float :=
  match f with
  | S754_finite s m e =>
    if 0 <=? e then f
    else
      let q := div_half_even (Zpos m * 10 ^ nd) (2 ^ (- e)) in
      if q =? 0 then S754_zero s
      else
        let '(mz, ez, lz) := SFdiv_core_binary prec emax q 0 (10 ^ nd) 0 in
        binary_round_aux prec emax s mz ez lz
  | _ => f
  end.

Definition py_round (v : value) (nd : Z) : result value :=
  match as_num v with
  | Some (NInt z) => Ok (VInt z)
  | Some (NFloat f) => Ok (VFloat (round_float f nd))
  | None => Raise TypeError
  end.

(** *** [int(x)] and [max(a, b)] *)

(** Truncation toward zero of a float. *)
Definition trunc_float (f : spec_float) : result Z :=
  match f with
  | S754_zero _ => Ok 0
  | S754_infinity _ => Raise OverflowError
  | S754_nan => Raise ValueError
  | S754_finite s m e =>
    Ok (cond_Zopp s (if 0 <=? e then Zpos m * 2 ^ e else Zpos m / 2 ^ (- e)))
  end.

Definition py_int (v : value) : result value :=
  match as_num v with
  | Some (NInt z) => Ok (VInt z)
  | Some (NFloat f) => map VInt (trunc_float f)
  | None => Raise TypeError
  end.

(** [max(a, b)] keeps [a] unless [b > a]. *)
Definition py_max (a b : value) : result value :=
  c <- py_gt b a; Ok (if c then b else a).

(** *** Dictionaries *)

(** [d[k]] *)
Definition item (d : gmap string value) (k : string) : result value :=
  match d !! k with
  | Some v => Ok v
  | None => Raise (KeyError k)
  end.

(** [d.get(k, dflt)] *)
Definition get (d : gmap string value) (k : string) (dflt : value) : value :=
  default dflt (d !! k).

(** [x in l] for a list of string literals. *)
Definition py_in (v : value) (l : list string) : bool :=
  existsb (λ s, py_eq v (VStr s)) l.

(** A list comprehension [[x for x in l if p(x)]] whose condition may raise. *)
Fixpoint comprehension {A} (p : A → result bool) (l : list A) : result (list A) :=
  match l with
  | [] => Ok []
  | x :: l' =>
    c <- p x; r <- comprehension p l'; Ok (if c then x :: r else r)
  end.

End Py.

Import Py.
#[local] Open Scope py_scope.

(** ** [src/tools/analysis_tools.py] *)

Module analysis_tools.

(** The dictionary of metrics that [calculate_option_metrics] returns on
    success, one field per key. *)
Record metrics := {
  m_strike : value;
  m_expiration : value;
  m_premium : value;
  m_premium_yield : value;
  m_annualized_return : value;
  m_is_itm : bool;
  m_moneyness : value;
  m_days_to_expiry : value;
  m_open_interest : value;
  m_implied_volatility : value;
}.

(** What [calculate_option_metrics] returns: the metrics, or the dictionary
    with the single key ["error"] built by the [except] clause. *)
Inductive metrics_result :=
  | Metrics (m : metrics)
  | MetricsError (e : exn).

(** The body of the [try] block. *)
Definition option_metrics_try (opt : gmap string value) (stock_price : value)
    : result metrics :=
  strike <- item opt "strike";
  premium <- item opt "bid";
  days_to_expiry <- item opt "days_to_expiry";
  strike_pos <- py_gt strike (VInt 0);
  premium_yield <-
    (if strike_pos
     then q <- py_truediv premium strike; py_mul q (VInt 100)
     else Ok (VInt 0));
  days_pos <- py_gt days_to_expiry (VInt 0);
  annualized_return <-
    (if days_pos
     then q <- py_truediv premium_yield days_to_expiry; py_mul q (VInt 365)
     else Ok (VInt 0));
  is_itm <- py_lt strike stock_price;
  diff <- py_sub strike stock_price;
  ratio <- py_truediv diff stock_price;
  moneyness <- py_mul ratio (VInt 100);
  expiration <- item opt "expiration";
  premium_yield_r <- py_round premium_yield 4;
  annualized_return_r <- py_round annualized_return 2;
  moneyness_r <- py_round moneyness 2;
  Ok {| m_strike := strike;
        m_expiration := expiration;
        m_premium := premium;
        m_premium_yield := premium_yield_r;
        m_annualized_return := annualized_return_r;
        m_is_itm := is_itm;
        m_moneyness := moneyness_r;
        m_days_to_expiry := days_to_expiry;
        m_open_interest := get opt "open_interest" (VInt 0);
        m_implied_volatility := get opt "implied_volatility" (VInt 0) |}.

Definition calculate_option_metrics (opt : gmap string value) (stock_price : value)
    : metrics_result :=
  match option_metrics_try opt stock_price with
  | Ok m => Metrics m
  | Raise e => MetricsError e
  end.

(** The dictionary [find_best_option] returns. *)
Record best_result := {
  found : bool;
  best_option : option metrics;
  error : option string;
}.

(** One iteration of the [for] loop, on the pair
    [(best_option, best_annualized)]. *)
Definition best_step (stock_price : value) (st : option metrics * value)
    (opt : gmap string value) : result (option metrics * value) :=
  match calculate_option_metrics opt stock_price with
  | MetricsError _ => Ok st
  | Metrics metrics =>
    better <- py_gt (m_annualized_return metrics) (snd st);
    Ok (if better then (Some metrics, m_annualized_return metrics) else st)
  end.

Fixpoint best_loop (stock_price : value) (st : option metrics * value)
    (options : list (gmap string value)) : result (option metrics * value) :=
  match options with
  | [] => Ok st
  | opt :: rest =>
    st' <- best_step stock_price st opt; best_loop stock_price st' rest
  end.

Definition find_best_option (filtered_options : list (gmap string value))
    (stock_price : value) : best_result :=
  match
    (match filtered_options with
     | [] => Ok {| found := false; best_option := None;
                   error := Some "No options available after filtering." |}
     | _ =>
       st <- best_loop stock_price (None, VInt (-1)) filtered_options;
       match fst st with
       | None => Ok {| found := false; best_option := None;
                       error := Some "Could not calculate metrics for any options." |}
       | Some best => Ok {| found := true; best_option := Some best; error := None |}
       end
     end)
  with
  | Ok r => r
  | Raise _ => {| found := false; best_option := None;
                  error := Some "Error finding best option" |}
  end.

(** The dictionary [calculate_breakeven] returns. *)
Record breakeven_result := {
  breakeven_price : option value;
  downside_protection_percent : option value;
  breakeven_error : option exn;
}.

Definition calculate_breakeven (stock_price premium : value) : breakeven_result :=
  match
    (breakeven <- py_sub stock_price premium;
     q <- py_truediv premium stock_price;
     downside_protection <- py_mul q (VInt 100);
     b <- py_round breakeven 2;
     d <- py_round downside_protection 2;
     Ok (b, d))
  with
  | Ok (b, d) => {| breakeven_price := Some b;
                    downside_protection_percent := Some d;
                    breakeven_error := None |}
  | Raise e => {| breakeven_price := None;
                  downside_protection_percent := None;
                  breakeven_error := Some e |}
  end.

(** The dictionary [calculate_max_profit] returns on success. *)
Record max_profit := {
  mp_contracts : Z;
  mp_shares : Z;
  mp_capital_gain_per_share : value;
  mp_total_capital_gain : value;
  mp_premium_per_share : value;
  mp_total_premium : value;
  mp_total_max_profit : value;
  mp_max_return_percent : value;
}.

Definition calculate_max_profit (stock_price strike premium : value) (shares : Z)
    : max_profit + exn :=
  match
    (let contracts := shares / 100 in
     capital_gain_per_share <- py_sub strike stock_price;
     total_capital_gain <- py_mul capital_gain_per_share (VInt shares);
     total_premium <- py_mul premium (VInt shares);
     total_max_profit <- py_add total_capital_gain total_premium;
     invested <- py_mul stock_price (VInt shares);
     q <- py_truediv total_max_profit invested;
     max_return_percent <- py_mul q (VInt 100);
     r1 <- py_round capital_gain_per_share 2;
     r2 <- py_round total_capital_gain 2;
     r3 <- py_round premium 2;
     r4 <- py_round total_premium 2;
     r5 <- py_round total_max_profit 2;
     r6 <- py_round max_return_percent 2;
     Ok {| mp_contracts := contracts; mp_shares := shares;
           mp_capital_gain_per_share := r1; mp_total_capital_gain := r2;
           mp_premium_per_share := r3; mp_total_premium := r4;
           mp_total_max_profit := r5; mp_max_return_percent := r6 |})
  with
  | Ok r => inl r
  | Raise e => inr e
  end.

End analysis_tools.

(** ** [src/tools/options_tools.py] *)

Module options_tools.

(** The dictionary [get_options_chain] returns. *)
Record options_data := {
  ticker : string;
  options : list (gmap string value);
  error : option string;
}.

(** The condition of the list comprehension of [filter_options]; [and] and
    the chained comparison evaluate from left to right and stop at the first
    false operand. *)
Definition keeps (min_days max_days min_open_interest : Z) (opt : gmap string value)
    : result bool :=
  days <- item opt "days_to_expiry";
  c1 <- py_le (VInt min_days) days;
  if negb c1 then Ok false else
  c2 <- py_le days (VInt max_days);
  if negb c2 then Ok false else
  oi <- item opt "open_interest";
  c3 <- py_ge oi (VInt min_open_interest);
  if negb c3 then Ok false else
  bid <- item opt "bid";
  py_gt bid (VInt 0).

(** The error a [filter_options] result carries: the upstream error text it
    passes on, or the exception its [except] clause caught. *)
Inductive filter_error :=
  | Upstream (msg : string)
  | Caught (e : exn).

Record filtered := {
  f_ticker : string;
  filtered_options : list (gmap string value);
  total_before_filter : nat;
  total_after_filter : nat;
  f_error : option filter_error;
}.

Definition truthy_text (o : option string) : bool :=
  match o with
  | Some s => negb (bool_decide (s = EmptyString))
  | None => false
  end.

Definition filter_options_with (data : options_data)
    (min_days max_days min_open_interest : Z) : filtered :=
  if truthy_text (error data) then
    {| f_ticker := ticker data; filtered_options := [];
       total_before_filter := 0; total_after_filter := 0;
       f_error := Upstream <$> error data |}
  else
    match comprehension (keeps min_days max_days min_open_interest) (options data) with
    | Ok l =>
      {| f_ticker := ticker data; filtered_options := l;
         total_before_filter := length (options data);
         total_after_filter := length l;
         f_error := None |}
    | Raise e =>
      {| f_ticker := ticker data; filtered_options := [];
         total_before_filter := 0; total_after_filter := 0;
         f_error := Some (Caught e) |}
    end.

(** [filter_options(options_data)] with the default arguments
    [min_days=7], [max_days=45], [min_open_interest=10]. *)
Definition filter_options (data : options_data) : filtered :=
  filter_options_with data 7 45 10.

End options_tools.

(** ** [src/tools/technical_tools.py]: the aggregation of the indicators

    [get_technical_analysis] computes RSI, MACD, the moving averages and
    the volume signal from the price history, and then scores them.  The
    scoring, from the comment "Determine overall sentiment and assignment
    risk" to the assignment of [recommendation], is embedded here as a
    function of the four indicator results. *)

Module technical_tools.

Record assessment := {
  rsi_signal : string;
  sentiment : string;
  assignment_risk : string;
  recommendation : string;
  bullish_signals : value;
  bearish_signals : value;
  bullish_ratio : value;
  bounce_potential : value;
}.

(** The [(bullish_signals, bearish_signals, bounce_potential)] state the
    scoring threads through its four steps. *)
Record score := {
  bullish : value;
  bearish : value;
  bounce : value;
}.

Definition add_bullish (st : score) (w : value) : result score :=
  b <- py_add (bullish st) w; Ok {| bullish := b; bearish := bearish st; bounce := bounce st |}.
Definition add_bearish (st : score) (w : value) : result score :=
  b <- py_add (bearish st) w; Ok {| bullish := bullish st; bearish := b; bounce := bounce st |}.
Definition set_bounce (st : score) (b : string) : score :=
  {| bullish := bullish st; bearish := bearish st; bounce := VStr b |}.

(** RSI analysis. *)
Definition score_rsi (rsi : value) (st : score) : result (string * score) :=
  c <- py_gt rsi (VInt 70);
  if c then
    st' <- add_bearish st (VFloat (fl 0.5));
    Ok ("overbought", set_bounce st' "overbought_pullback")
  else
  c <- py_lt rsi (VInt 35);
  if c then
    st' <- add_bullish st (VFloat (fl 0.5));
    Ok ("oversold", set_bounce st' "oversold_bounce")
  else
  c <- py_gt rsi (VInt 65);
  if c then st' <- add_bearish st (VFloat (fl 0.3)); Ok ("near_overbought", st') else
  c <- py_gt rsi (VInt 55);
  if c then st' <- add_bullish st (VInt 1); Ok ("bullish", st') else
  c <- py_lt rsi (VInt 45);
  if c then st' <- add_bearish st (VInt 1); Ok ("bearish", st') else
  Ok ("neutral", st).

(** MACD analysis. *)
Definition score_macd (macd_trend : value) (st : score) : result score :=
  if py_eq macd_trend (VStr "bullish") then add_bullish st (VInt 1)
  else if py_eq macd_trend (VStr "bearish") then add_bearish st (VInt 1)
  else Ok st.

(** Moving average analysis. *)
Definition score_mas (mas_trend : value) (st : score) : result score :=
  if py_in mas_trend ["strong_bullish"; "bullish"] then add_bullish st (VInt 1)
  else if py_in mas_trend ["strong_bearish"; "bearish"] then add_bearish st (VInt 1)
  else Ok st.

(** Volume analysis. *)
Definition score_volume (volume_signal : value) (st : score) : result score :=
  if py_eq volume_signal (VStr "bullish_volume") then add_bullish st (VInt 1)
  else if py_eq volume_signal (VStr "bearish_volume") then add_bearish st (VInt 1)
  else Ok st.

Definition compute_ratio (bullish_signals bearish_signals : value) : result value :=
  total_signals <- py_add bullish_signals bearish_signals;
  c <- py_gt total_signals (VInt 0);
  if c then py_truediv bullish_signals total_signals else Ok (VFloat (fl 0.5)).

(** The final [if/elif] chain: [(assignment_risk, sentiment, recommendation)]. *)
Definition classify (bounce_potential bullish_ratio : value)
    : result (string * string * string) :=
  if py_eq bounce_potential (VStr "oversold_bounce") then
    c <- py_lt bullish_ratio (VFloat (fl 0.4));
    Ok (if c
        then ("moderate", "oversold_bounce_risk",
              "Stock is oversold - potential bounce. Consider layered strikes or wait for confirmation.")
        else ("moderate", "oversold_with_bullish",
              "Oversold with bullish signals - high bounce probability. Use defensive strikes."))
  else if py_eq bounce_potential (VStr "overbought_pullback") then
    c <- py_gt bullish_ratio (VFloat (fl 0.6));
    Ok (if c
        then ("moderate", "overbought_pullback_risk",
              "Stock is overbought - potential pullback. ATM strikes may be safe.")
        else ("low", "overbought_with_bearish",
              "Overbought with bearish signals - pullback likely. Good for covered calls."))
  else
  c <- py_ge bullish_ratio (VFloat (fl 0.7));
  if c then Ok ("high", "bullish", "Consider higher strike or wait for pullback") else
  c <- py_ge bullish_ratio (VFloat (fl 0.5));
  if c then Ok ("moderate", "slightly_bullish", "ATM or slightly OTM strike appropriate") else
  c <- py_ge bullish_ratio (VFloat (fl 0.3));
  if c then Ok ("low", "neutral", "Good environment for covered calls") else
  Ok ("very_low", "bearish", "Caution: stock may decline, reducing call premium value").

Definition assess (rsi macd_trend mas_trend volume_signal : value) : result assessment :=
  let st := {| bullish := VInt 0; bearish := VInt 0; bounce := VNone |} in
  '(rsi_signal, st) <- score_rsi rsi st;
  st <- score_macd macd_trend st;
  st <- score_mas mas_trend st;
  st <- score_volume volume_signal st;
  bullish_ratio <- compute_ratio (bullish st) (bearish st);
  '(assignment_risk, sentiment, recommendation) <- classify (bounce st) bullish_ratio;
  Ok {| rsi_signal := rsi_signal;
        sentiment := sentiment;
        assignment_risk := assignment_risk;
        recommendation := recommendation;
        bullish_signals := bullish st;
        bearish_signals := bearish st;
        bullish_ratio := bullish_ratio;
        bounce_potential := bounce st |}.

End technical_tools.

(** ** [src/tools/formatting_tools.py]: the error-message table *)

Module formatting_tools.

Record error_message := {
  error_type : string;
  message : string;
}.

(** The dictionary literal [error_messages], its f-strings filled in with
    [details]. *)
Definition error_messages (details : string) : gmap string string :=
  list_to_map [
    ("invalid_ticker",
     "I couldn't find the stock ticker you provided. " +:+ details +:+
     " Please check the symbol and try again.");
    ("no_options", "No options are available for this stock. " +:+ details);
    ("no_liquid_options",
     "No liquid options found in the 7-45 day window. " +:+ details +:+
     " Try a more actively traded stock.");
    ("invalid_shares",
     "Invalid share count. " +:+ details +:+
     " Shares must be a positive multiple of 100 for covered calls.");
    ("api_error",
     "There was an error fetching market data. " +:+ details +:+
     " Please try again in a moment.");
    ("calculation_error",
     "There was an error calculating the recommendation. " +:+ details)
  ].

Definition format_error_message (error_type details : string) : error_message :=
  {| error_type := error_type;
     message := default ("An unexpected error occurred. " +:+ details)
                        (error_messages details !! error_type) |}.

End formatting_tools.

(** ** [src/tools/strategy_tools.py] *)

Module strategy_tools.

Import analysis_tools.

(** The [reason] text: one of the fixed sentences of the preference table,
    or the f-string
    ["No options in preferred range ({lo:.0f}-{hi:.0f}% OTM). Selecting best
    available option."] with its two arguments [min_otm_pct*100] and
    [max_otm_pct*100]. *)
Inductive reason_text :=
  | Sentence (s : string)
  | NoOptionsInPreferredRange (lo hi : value).

(** The five variables the first [if/elif] chain of
    [_select_strike_based_on_technicals] assigns. *)
Record preference := {
  min_otm_pct : value;
  max_otm_pct : value;
  strategy : string;
  reason : reason_text;
  use_layered : bool;
}.

Definition strike_preference (sentiment assignment_risk : value) : preference :=
  if py_in sentiment ["oversold_bounce_risk"; "oversold_with_bullish"] then
    {| min_otm_pct := VFloat (fl 0.02); max_otm_pct := VFloat (fl 0.06);
       strategy := "balanced";
       reason := Sentence "Stock is oversold (RSI < 30) with potential bounce. Using balanced strike to hedge bounce risk.";
       use_layered := true |}
  else if py_in sentiment ["overbought_pullback_risk"; "overbought_with_bearish"] then
    {| min_otm_pct := VFloat (fl 0.0); max_otm_pct := VFloat (fl 0.03);
       strategy := "aggressive";
       reason := Sentence "Stock is overbought with pullback potential. ATM strike is appropriate.";
       use_layered := false |}
  else if py_eq assignment_risk (VStr "high") then
    {| min_otm_pct := VFloat (fl 0.03); max_otm_pct := VFloat (fl 0.10);
       strategy := "defensive";
       reason := Sentence "Due to bullish momentum, recommending a higher strike to reduce assignment risk while still collecting premium.";
       use_layered := false |}
  else if py_eq assignment_risk (VStr "moderate") then
    {| min_otm_pct := VFloat (fl 0.01); max_otm_pct := VFloat (fl 0.05);
       strategy := "balanced";
       reason := Sentence "With mixed technical signals, recommending a slightly OTM strike for balanced risk/reward.";
       use_layered := true |}
  else
    {| min_otm_pct := VFloat (fl 0.0); max_otm_pct := VFloat (fl 0.03);
       strategy := "aggressive";
       reason := Sentence "With low assignment risk, recommending an ATM strike to maximize premium income.";
       use_layered := false |}.

(** [stock_price * (1 + pct)] *)
Definition otm_strike (stock_price pct : value) : result value :=
  f <- py_add (VInt 1) pct; py_mul stock_price f.

(** The condition [min_strike <= opt.get("strike", 0) <= max_strike]. *)
Definition in_band (min_strike max_strike : value) (opt : gmap string value)
    : result bool :=
  let strike := get opt "strike" (VInt 0) in
  c <- py_le min_strike strike;
  if negb c then Ok false else py_le strike max_strike.

(** The loop "find highest yield", on the pair [(best_option, best_yield)];
    it is written out twice in the source, in
    [_select_strike_based_on_technicals] and in [_create_layered_strategy]. *)
Fixpoint highest_yield (stock_price : value) (st : option metrics * value)
    (options : list (gmap string value)) : result (option metrics * value) :=
  match options with
  | [] => Ok st
  | opt :: rest =>
    match calculate_option_metrics opt stock_price with
    | MetricsError _ => highest_yield stock_price st rest
    | Metrics metrics =>
      better <- py_gt (m_annualized_return metrics) (snd st);
      highest_yield stock_price
        (if better then (Some metrics, m_annualized_return metrics) else st) rest
    end
  end.

(** The dictionary [_select_strike_based_on_technicals] returns. *)
Record strike_selection := {
  sel_option : option metrics;
  sel_strategy : string;
  sel_reason : reason_text;
  sel_assignment_risk : value;
  sel_sentiment : value;
  sel_bounce_potential : value;
  sel_use_layered : bool;
}.

Definition is_empty {A} (l : list A) : bool :=
  match l with [] => true | _ => false end.

Definition _select_strike_based_on_technicals
    (filtered_options : list (gmap string value)) (stock_price : value)
    (technical_analysis : gmap string value) : result strike_selection :=
  let assignment_risk := get technical_analysis "assignment_risk" (VStr "moderate") in
  let sentiment := get technical_analysis "sentiment" (VStr "neutral") in
  let bounce_potential := get technical_analysis "bounce_potential" VNone in
  let pref := strike_preference sentiment assignment_risk in
  min_strike <- otm_strike stock_price (min_otm_pct pref);
  max_strike <- otm_strike stock_price (max_otm_pct pref);
  preferred_options <- comprehension (in_band min_strike max_strike) filtered_options;
  '(preferred_options, reason) <-
    (if is_empty preferred_options then
       lo <- py_mul (min_otm_pct pref) (VInt 100);
       hi <- py_mul (max_otm_pct pref) (VInt 100);
       Ok (filtered_options, NoOptionsInPreferredRange lo hi)
     else Ok (preferred_options, reason pref));
  st <- highest_yield stock_price (None, VInt (-1)) preferred_options;
  Ok {| sel_option := fst st;
        sel_strategy := strategy pref;
        sel_reason := reason;
        sel_assignment_risk := assignment_risk;
        sel_sentiment := sentiment;
        sel_bounce_potential := bounce_potential;
        sel_use_layered := use_layered pref |}.

(** One entry of an [allocations] table. *)
Record allocation := {
  name : string;
  pct : value;
  otm_range : value * value;
}.

Definition allocations (sentiment bounce_potential : value) : list allocation :=
  if py_in sentiment ["oversold_bounce_risk"; "oversold_with_bullish"] then
    [ {| name := "Conservative"; pct := VFloat (fl 0.40);
         otm_range := (VFloat (fl 0.04), VFloat (fl 0.08)) |};
      {| name := "Balanced"; pct := VFloat (fl 0.40);
         otm_range := (VFloat (fl 0.02), VFloat (fl 0.04)) |};
      {| name := "Aggressive"; pct := VFloat (fl 0.20);
         otm_range := (VFloat (fl 0.00), VFloat (fl 0.02)) |} ]
  else if py_eq sentiment (VStr "moderate") || py_truthy bounce_potential then
    [ {| name := "Conservative"; pct := VFloat (fl 0.33);
         otm_range := (VFloat (fl 0.03), VFloat (fl 0.06)) |};
      {| name := "Balanced"; pct := VFloat (fl 0.34);
         otm_range := (VFloat (fl 0.01), VFloat (fl 0.03)) |};
      {| name := "Aggressive"; pct := VFloat (fl 0.33);
         otm_range := (VFloat (fl 0.00), VFloat (fl 0.01)) |} ]
  else
    [ {| name := "Conservative"; pct := VFloat (fl 0.30);
         otm_range := (VFloat (fl 0.03), VFloat (fl 0.06)) |};
      {| name := "Balanced"; pct := VFloat (fl 0.40);
         otm_range := (VFloat (fl 0.01), VFloat (fl 0.03)) |};
      {| name := "Aggressive"; pct := VFloat (fl 0.30);
         otm_range := (VFloat (fl 0.00), VFloat (fl 0.01)) |} ].

Record layer := {
  l_name : string;
  l_contracts : value;
  l_option : metrics;
  l_premium : value;
}.

Record layered := {
  layers : list layer;
  total_contracts : value;
  total_premium : value;
}.

(** [max(1, int(contracts * alloc["pct"]))] *)
Definition layer_contracts (contracts : Z) (pct : value) : result value :=
  p <- py_mul (VInt contracts) pct;
  n <- py_int p;
  py_max (VInt 1) n.

(** The body of the loop [for alloc in allocations], on the pair
    [(layers, total_premium)]. *)
Definition add_layer (filtered_options : list (gmap string value))
    (stock_price : value) (contracts : Z) (st : list layer * value) (alloc : allocation)
    : result (list layer * value) :=
  layer_contracts <- layer_contracts contracts (pct alloc);
  min_strike <- otm_strike stock_price (fst (otm_range alloc));
  max_strike <- otm_strike stock_price (snd (otm_range alloc));
  range_options <- comprehension (in_band min_strike max_strike) filtered_options;
  let range_options :=
    if is_empty range_options then filtered_options else range_options in
  best <- highest_yield stock_price (None, VInt (-1)) range_options;
  match fst best with
  | Some best_in_range =>
    p <- py_mul (m_premium best_in_range) layer_contracts;
    layer_premium <- py_mul p (VInt 100);
    total_premium <- py_add (snd st) layer_premium;
    Ok (fst st ++ [ {| l_name := name alloc; l_contracts := layer_contracts;
                       l_option := best_in_range; l_premium := layer_premium |} ],
        total_premium)
  | None => Ok st
  end.

Fixpoint add_layers (filtered_options : list (gmap string value))
    (stock_price : value) (contracts : Z) (st : list layer * value)
    (allocs : list allocation) : result (list layer * value) :=
  match allocs with
  | [] => Ok st
  | alloc :: rest =>
    st' <- add_layer filtered_options stock_price contracts st alloc;
    add_layers filtered_options stock_price contracts st' rest
  end.

(** [sum(l["contracts"] for l in layers)] *)
Fixpoint sum_contracts (acc : value) (ls : list layer) : result value :=
  match ls with
  | [] => Ok acc
  | l :: rest => acc' <- py_add acc (l_contracts l); sum_contracts acc' rest
  end.

(** [None] is the "no layered strategy" answer. *)
Definition _create_layered_strategy (filtered_options : list (gmap string value))
    (stock_price : value) (shares : Z) (technical_analysis : gmap string value)
    : result (option layered) :=
  let contracts := shares / 100 in
  if contracts <? 3 then Ok None
  else
    let sentiment := get technical_analysis "sentiment" (VStr "neutral") in
    let bounce_potential := get technical_analysis "bounce_potential" VNone in
    st <- add_layers filtered_options stock_price contracts ([], VInt 0)
            (allocations sentiment bounce_potential);
    if is_empty (fst st) then Ok None
    else
      total <- sum_contracts (VInt 0) (fst st);
      Ok (Some {| layers := fst st; total_contracts := total;
                  total_premium := snd st |}).

(** The step "create layered strategy if recommended and enough contracts"
    of [run_covered_call_strategy]; [layered_strategy] stays [None] when the
    condition fails. *)
Definition layering_step (strike_selection : strike_selection)
    (filtered_options : list (gmap string value)) (stock_price : value)
    (shares : Z) (technical : gmap string value) : result (option layered) :=
  if sel_use_layered strike_selection && (300 <=? shares) then
    _create_layered_strategy filtered_options stock_price shares technical
  else Ok None.

(** *** The orchestrator

    The collaborators that reach the market-data service, and the functions
    that render text, are parameters: [run_covered_call_strategy] is
    embedded as a function of them. *)

(** The dictionary [validate_ticker] returns. *)
Record validation := {
  valid : bool;
  has_options : bool;
  v_error : option string;
}.

(** The dictionary [get_stock_price] returns; [price] is a float or [None]. *)
Record price_data := {
  price : option spec_float;
  p_error : option string;
}.

(** The dictionary [format_itm_warning] returns. *)
Record itm_warning := {
  warning : option string;
  is_itm : bool;
}.

(** The dictionary [run_covered_call_strategy] returns. *)
Record strategy_result := {
  formatted_text : string;
  error : option string;
}.

(** The separator ["\n\n"]. *)
Definition newlines : string :=
  String (Ascii.ascii_of_nat 10) (String (Ascii.ascii_of_nat 10) EmptyString).

Section orchestrator.

Import formatting_tools.

Variable validate_ticker : string → validation.
Variable get_stock_price : string → price_data.
Variable get_options_chain : string → options_tools.options_data.
Variable get_technical_analysis : string → gmap string value.
(** [format_recommendation] returns the text, or the exception its [except]
    clause caught. *)
Variable format_recommendation :
  string → value → metrics → Z → breakeven_result → max_profit → string + exn.
Variable format_itm_warning : value → value → itm_warning.
Variable _format_layered_strategy : layered → value → string → result string.
Variable _format_integrated_technical_section :
  gmap string value → strike_selection → value → metrics → result string.
(** [str.strip], [str.upper], [str(shares)] and the text [str(e)] of a
    caught exception. *)
Variable str_strip str_upper : string → string.
Variable str_int : Z → string.
Variable str_exn : exn → string.

(** [a or b] on an optional text and a fallback text. *)
Definition or_else (o : option string) (fallback : string) : string :=
  if options_tools.truthy_text o then default fallback o else fallback.

(** [return {"formatted_text": error["message"], "error": error["error_type"]}] *)
Definition fail (error_type details : string) : result strategy_result :=
  let error := format_error_message error_type details in
  Ok {| formatted_text := message error; error := Some (formatting_tools.error_type error) |}.

Definition is_sane_option (stock_price : value) (opt : gmap string value) : result bool :=
  let bid := get opt "bid" (VInt 0) in
  let strike := get opt "strike" (VInt 0) in
  c <- py_gt bid stock_price;
  if c then Ok false else
  far <- py_mul stock_price (VFloat (fl 1.5));
  c <- py_gt strike far;
  if negb c then Ok true else
  big <- py_mul stock_price (VFloat (fl 0.2));
  c <- py_gt bid big;
  Ok (negb c).

Definition is_otm (stock_price : value) (opt : gmap string value) : result bool :=
  py_ge (get opt "strike" (VInt 0)) stock_price.

(** The part of [run_covered_call_strategy] from the call of
    [calculate_breakeven] to the end. *)
Definition conclude (clean_ticker : string) (shares : Z) (stock_price : value)
    (technical : gmap string value) (best_option : metrics)
    (strike_selection : strike_selection) (layered_strategy : option layered)
    : result strategy_result :=
  let breakeven := calculate_breakeven stock_price (m_premium best_option) in
  match breakeven_error breakeven with
  | Some e => fail "calculation_error" ("Error calculating breakeven: " +:+ str_exn e)
  | None =>
    match calculate_max_profit stock_price (m_strike best_option)
            (m_premium best_option) shares with
    | inr e => fail "calculation_error" ("Error calculating max profit: " +:+ str_exn e)
    | inl max_profit =>
      let recommendation :=
        format_recommendation clean_ticker stock_price best_option shares
          breakeven max_profit in
      match recommendation with
      | inr e =>
        fail "calculation_error" ("Error formatting recommendation: " +:+ str_exn e)
      | inl message =>
          let itm_warning := format_itm_warning (m_strike best_option) stock_price in
          let message :=
            if is_itm itm_warning && options_tools.truthy_text (warning itm_warning)
            then message +:+ newlines +:+ default EmptyString (warning itm_warning)
            else message in
          message <-
            match layered_strategy with
            | Some layered =>
              if is_empty (layers layered) then Ok message
              else
                layered_section <- _format_layered_strategy layered stock_price clean_ticker;
                Ok (message +:+ newlines +:+ layered_section)
            | None => Ok message
            end;
          message <-
            (if py_truthy (get technical "error" VNone) then Ok message
             else
               tech_section <-
                 _format_integrated_technical_section technical strike_selection
                   stock_price best_option;
               Ok (message +:+ newlines +:+ tech_section));
          Ok {| formatted_text := message; error := None |}
      end
    end
  end.

(** The part of [run_covered_call_strategy] from the call of
    [get_technical_analysis] to the call of [calculate_breakeven]. *)
Definition select_and_conclude (clean_ticker : string) (shares : Z)
    (stock_price : value) (filtered_options : list (gmap string value))
    : result strategy_result :=
  let technical := get_technical_analysis clean_ticker in
  if py_truthy (get technical "error" VNone) then
    let best := find_best_option filtered_options stock_price in
    match found best, best_option best with
    | true, Some best_option =>
      conclude clean_ticker shares stock_price technical best_option
        {| sel_option := None;
           sel_strategy := "standard";
           sel_reason := Sentence "Technical analysis unavailable. Selecting highest yield option.";
           sel_assignment_risk := VStr "unknown";
           sel_sentiment := VStr "unknown";
           sel_bounce_potential := VNone;
           sel_use_layered := false |}
        None
    | _, _ =>
      fail "calculation_error"
        (or_else (analysis_tools.error best) "No suitable options found.")
    end
  else
    strike_selection <-
      _select_strike_based_on_technicals filtered_options stock_price technical;
    match sel_option strike_selection with
    | None =>
      fail "calculation_error" "No suitable options found for current market conditions."
    | Some best_option =>
      layered_strategy <-
        layering_step strike_selection filtered_options stock_price shares technical;
      conclude clean_ticker shares stock_price technical best_option
        strike_selection layered_strategy
    end.

Definition run_covered_call_strategy (ticker : string) (shares : Z) (otm_only : bool)
    : result strategy_result :=
  let clean_ticker := str_upper (str_strip ticker) in
  if (shares <=? 0) || negb (shares mod 100 =? 0) then
    fail "invalid_shares" ("You provided " +:+ str_int shares +:+ " shares.")
  else
  let validation := validate_ticker clean_ticker in
  if negb (valid validation) then
    fail "invalid_ticker"
      (or_else (v_error validation) ("Ticker '" +:+ clean_ticker +:+ "' not found."))
  else if negb (has_options validation) then
    fail "no_options"
      (or_else (v_error validation) ("Ticker '" +:+ clean_ticker +:+ "' has no options."))
  else
  let price_data := get_stock_price clean_ticker in
  match (if options_tools.truthy_text (p_error price_data) then None else price price_data) with
  | None =>
    fail "api_error"
      (or_else (p_error price_data) ("Could not fetch price for '" +:+ clean_ticker +:+ "'."))
  | Some price =>
    let stock_price := VFloat price in
    let options_data := get_options_chain clean_ticker in
    if options_tools.truthy_text (options_tools.error options_data) then
      fail "api_error" (default EmptyString (options_tools.error options_data))
    else if is_empty (options_tools.options options_data) then
      fail "no_options" ("No call options returned for '" +:+ clean_ticker +:+ "'.")
    else
    let filtered := options_tools.filter_options options_data in
    match options_tools.f_error filtered with
    | Some (options_tools.Upstream msg) => fail "calculation_error" msg
    | Some (options_tools.Caught e) =>
      fail "calculation_error" ("Error filtering options: " +:+ str_exn e)
    | None =>
      if is_empty (options_tools.filtered_options filtered) then
        fail "no_liquid_options" "No options met the 7-45 day and liquidity criteria."
      else
      filtered_options <-
        comprehension (is_sane_option stock_price) (options_tools.filtered_options filtered);
      filtered_options <-
        (if otm_only then comprehension (is_otm stock_price) filtered_options
         else Ok filtered_options);
      if is_empty filtered_options then
        fail "no_liquid_options"
          "No options met the 7-45 day, liquidity, and moneyness criteria."
      else select_and_conclude clean_ticker shares stock_price filtered_options
    end
  end.

End orchestrator.

End strategy_tools.

(** ** Notions the statements below use *)

Module spec.

Import strategy_tools.

(** The error codes [runStrategy] may return; [None] is success. *)
Definition error_codes : list (option string) :=
  [ Some "invalid_shares"; Some "invalid_ticker"; Some "no_options";
    Some "no_liquid_options"; Some "api_error"; Some "calculation_error"; None ].

(** The five rows of the strike selector's table. *)
Inductive row := Oversold | Overbought | HighRisk | ModerateRisk | Otherwise.

Definition is_text (v : value) (s : string) : bool :=
  match v with
  | VStr t => bool_decide (t = s)
  | _ => false
  end.

(** The row a sentiment and an assignment risk select; the first match wins. *)
Definition row_of (sentiment assignment_risk : value) : row :=
  if is_text sentiment "oversold_bounce_risk"
     || is_text sentiment "oversold_with_bullish" then Oversold
  else if is_text sentiment "overbought_pullback_risk"
          || is_text sentiment "overbought_with_bearish" then Overbought
  else if is_text assignment_risk "high" then HighRisk
  else if is_text assignment_risk "moderate" then ModerateRisk
  else Otherwise.

(** The OTM band [min%, max%] of a row, as fractions. *)
Definition band (r : row) : spec_float * spec_float :=
  match r with
  | Oversold => (fl 0.02, fl 0.06)
  | Overbought => (fl 0.0, fl 0.03)
  | HighRisk => (fl 0.03, fl 0.10)
  | ModerateRisk => (fl 0.01, fl 0.05)
  | Otherwise => (fl 0.0, fl 0.03)
  end.

Definition label (r : row) : string :=
  match r with
  | Oversold | ModerateRisk => "balanced"
  | Overbought | Otherwise => "aggressive"
  | HighRisk => "defensive"
  end.

Definition layered_row (r : row) : bool :=
  match r with
  | Oversold | ModerateRisk => true
  | _ => false
  end.

(** [price * (1 + pct)] in binary64 arithmetic. *)
Definition band_edge (price pct : spec_float) : spec_float :=
  SF64mul price (SF64add (fl 1) pct).

(** [lo <= strike <= hi], false when a comparison is undefined. *)
Definition within (lo hi strike : value) : bool :=
  match py_le lo strike, py_le strike hi with
  | Ok true, Ok true => true
  | _, _ => false
  end.

(** The candidates whose strike lies in the band of row [r]. *)
Definition in_band_of (r : row) (price : spec_float)
    (candidates : list (gmap string value)) : list (gmap string value) :=
  List.filter
    (λ opt, within (VFloat (band_edge price (fst (band r))))
                   (VFloat (band_edge price (snd (band r))))
                   (get opt "strike" (VInt 0)))
    candidates.

(** [a >= b], false when the comparison is undefined. *)
Definition at_least (a b : value) : bool :=
  match py_ge a b with
  | Ok true => true
  | _ => false
  end.

(** The classification by ratio of the technical aggregation:
    [(assignment_risk, sentiment)], the first threshold reached wins. *)
Definition by_ratio (ratio : value) : string * string :=
  if at_least ratio (VFloat (fl 0.7)) then ("high", "bullish")
  else if at_least ratio (VFloat (fl 0.5)) then ("moderate", "slightly_bullish")
  else if at_least ratio (VFloat (fl 0.3)) then ("low", "neutral")
  else ("very_low", "bearish").

(** A value that is a Python number. *)
Definition numeric (v : value) : Prop := is_Some (as_num v).

(** The sign of a float, where it has one. *)
Definition has_sign (s : bool) (f : spec_float) : Prop :=
  match f with
  | S754_zero t | S754_infinity t | S754_finite t _ _ => t = s
  | S754_nan => False
  end.

(** A number whose magnitude, if it is an int, is below [2^k]: converting
    it to a float, or dividing by it, cannot overflow for [k <= 1023]. *)
Definition sized (k : Z) (v : value) : Prop :=
  match as_num v with
  | Some (NInt z) => Z.abs z < 2 ^ k
  | Some (NFloat _) => True
  | None => False
  end.

(** An option record with the fields the filters read: [days_to_expiry],
    [open_interest] and [bid] are present and numbers, and [strike], when
    present, is a number. *)
Definition contract (opt : gmap string value) : Prop :=
  (∃ d, opt !! "days_to_expiry" = Some d ∧ numeric d)
  ∧ (∃ oi, opt !! "open_interest" = Some oi ∧ numeric oi)
  ∧ (∃ b, opt !! "bid" = Some b ∧ numeric b)
  ∧ numeric (get opt "strike" (VInt 0)).

(** Field [k] of a record is not a number, or is an int of magnitude
    [2^1000] or more. *)
Definition unusable (opt : gmap string value) (k : string) : Prop :=
  ∃ v, opt !! k = Some v ∧ ¬ sized 1000 v.

(** The formulas of the option metrics, in Python's arithmetic. *)
Definition premium_yield (bid strike : value) : result value :=
  q <- py_truediv bid strike; y <- py_mul q (VInt 100); py_round y 4.

Definition annualized_return (bid strike days : value) : result value :=
  q <- py_truediv bid strike; y <- py_mul q (VInt 100);
  a <- py_truediv y days; r <- py_mul a (VInt 365); py_round r 2.

Definition moneyness (strike stock_price : value) : result value :=
  d <- py_sub strike stock_price; q <- py_truediv d stock_price;
  m <- py_mul q (VInt 100); py_round m 2.

End spec.

(** ** Concrete inputs used by the examples *)

Module examples.

(** A call as [get_options_chain] builds it. *)
Definition call (strike bid : spec_float) (days open_interest : Z) : gmap string value :=
  list_to_map [
    ("strike", VFloat strike); ("expiration", VStr "2025-02-15");
    ("days_to_expiry", VInt days); ("bid", VFloat bid);
    ("open_interest", VInt open_interest) ].

Definition call_103 : gmap string value := call (fl 103) (fl 1.2) 45 50.
Definition call_110 : gmap string value := call (fl 110) (fl 0.8) 30 20.
Definition call_95 : gmap string value := call (fl 95) (fl 6.5) 10 5.

(** The first record of [test_find_best_option]: its strike is an int. *)
Definition call_150 : gmap string value :=
  list_to_map [
    ("strike", VInt 150); ("bid", VFloat (fl 2.0)); ("days_to_expiry", VInt 30);
    ("expiration", VStr "2025-02-15") ].

Definition mixed_signals : gmap string value :=
  list_to_map [
    ("sentiment", VStr "slightly_bullish"); ("assignment_risk", VStr "moderate");
    ("bounce_potential", VNone); ("error", VNone) ].

Definition bullish_signals : gmap string value :=
  list_to_map [
    ("sentiment", VStr "bullish"); ("assignment_risk", VStr "high");
    ("bounce_potential", VNone); ("error", VNone) ].

End examples.

(** ** Signs and exact values of the numbers in a quote *)

Module quotes.

(** Classes of floats by sign: zero or more (infinity included), zero or
    more and finite, more than zero, more than zero and finite. *)
Definition nonneg_float (f : spec_float) : Prop :=
  match f with
  | S754_zero _ | S754_finite false _ _ | S754_infinity false => True
  | _ => False
  end.

Definition nonneg_finite (f : spec_float) : Prop :=
  match f with
  | S754_zero _ | S754_finite false _ _ => True
  | _ => False
  end.

Definition positive_float (f : spec_float) : Prop :=
  match f with
  | S754_finite false _ _ | S754_infinity false => True
  | _ => False
  end.

Definition positive_finite (f : spec_float) : Prop :=
  match f with
  | S754_finite false _ _ => True
  | _ => False
  end.

(** An int or a float that is zero or more. *)
Definition nonneg_value (v : value) : Prop :=
  match v with
  | VInt z => 0 ≤ z
  | VFloat f => nonneg_float f
  | _ => False
  end.

(** A quote as the market-data service delivers it: the bid, when it is a
    number, is zero or more and finite; the days to expiry are not an
    infinite float. *)
Definition sane_quote (opt : gmap string value) : Prop :=
  match opt !! "bid" with
  | Some v =>
    match as_num v with
    | Some (NInt z) => 0 ≤ z
    | Some (NFloat f) => nonneg_finite f
    | None => True
    end
  | None => True
  end
  ∧ match opt !! "days_to_expiry" with
    | Some (VFloat (S754_infinity _)) => False
    | _ => True
    end.

(** The exact value of a Python number; not-a-number for any other object. *)
Definition xval (v : value) : xreal :=
  match as_num v with
  | Some n => exact n
  | None => XNaN
  end.

End quotes.

(** ** [src/telegram_bot/handlers.py]: splitting a long reply

    [handle_message] sends the text [run_covered_call_strategy] returns, and
    splits it with [split_long_message] when it is longer than 4000
    characters.  A Python [str] is a sequence of code points; it is modelled
    by a list over a type [char] of characters with a decidable equality,
    [len] by the length of the list. *)

Module handlers.

Section split_long_message.

Context {char : Type} `{EqDecision char}.

(** The character ["\n"]. *)
Variable newline : char.

(** [s.split("\n")]: the pieces between the newlines, at least one. *)
Fixpoint split_lines (s : list char) : list (list char) :=
  match s with
  | [] => [[]]
  | c :: s' =>
    if decide (c = newline) then [] :: split_lines s'
    else
      match split_lines s' with
      | piece :: pieces => (c :: piece) :: pieces
      | [] => [[c]]
      end
  end.

(** [s.split("\n\n")]: the pieces between the occurrences of two newlines
    in a row, found from the left and not overlapping. *)
Fixpoint split_paragraphs (s : list char) : list (list char) :=
  match s with
  | [] => [[]]
  | c :: s' =>
    let keep :=
      match split_paragraphs s' with
      | piece :: pieces => (c :: piece) :: pieces
      | [] => [[c]]
      end in
    match s' with
    | c' :: s'' =>
      if decide (c = newline ∧ c' = newline) then [] :: split_paragraphs s''
      else keep
    | [] => keep
    end
  end.

(** [len(s)] as a Python int. *)
Definition len (s : list char) : Z := Z.of_nat (length s).

(** [if s:] on a string. *)
Definition nonempty (s : list char) : bool :=
  match s with [] => false | _ => true end.

(** [if current: parts.append(current)] *)
Definition flush (parts : list (list char)) (current : list char) : list (list char) :=
  if nonempty current then parts ++ [current] else parts.

(** The body of the loop [for line in lines], on [(parts, current)]. *)
Definition add_line (max_length : Z) (st : list (list char) * list char)
    (line : list char) : list (list char) * list char :=
  let '(parts, current) := st in
  if len current + len line + 1 <=? max_length then
    (parts, if nonempty current then current ++ [newline] ++ line else line)
  else (flush parts current, line).

(** The body of the loop [for para in paragraphs], on [(parts, current)]. *)
Definition add_paragraph (max_length : Z) (st : list (list char) * list char)
    (para : list char) : list (list char) * list char :=
  let '(parts, current) := st in
  if len current + len para + 2 <=? max_length then
    (parts, if nonempty current then current ++ [newline; newline] ++ para else para)
  else
    let parts := flush parts current in
    if max_length <? len para then
      foldl (add_line max_length) (parts, []) (split_lines para)
    else (parts, para).

Definition split_long_message (text : list char) (max_length : Z) : list (list char) :=
  if len text <=? max_length then [text]
  else
    let '(parts, current) :=
      foldl (add_paragraph max_length) ([], []) (split_paragraphs text) in
    flush parts current.

(** A text without its newlines. *)
Definition without_newlines (s : list char) : list char :=
  List.filter (λ c, negb (bool_decide (c = newline))) s.

End split_long_message.

End handlers.

(** ** [src/telegram_bot/rate_limiter.py]

    [handle_message] asks [RateLimiter.is_allowed] before it serves a
    message.  The limiter keeps one document per user in the collection
    ["rate_limits"] of the database; the collection is modelled by a finite
    map from document ids to documents, and a call by a function from the
    collection before to the collection after: the body of the call runs in
    one transaction.  The clock that [datetime.now] reads is an argument.

    A [datetime] in UTC is the number of microseconds since
    [datetime.min], the first instant of year 1; the last one, of year
    9999, is [datetime_max].  Arithmetic that leaves this range raises
    [OverflowError], as does a [timedelta] of more than 999999999 days.
    The field ["requests"] holds the instants of the requests in ISO format:
    [isoformat] writes them and [fromisoformat] reads the same instants
    back, so the model keeps the instants. *)

Module rate_limiter.

Import Py.
#[local] Open Scope py_scope.

Abbreviation datetime := Z.

Definition datetime_max : datetime := 315537897599999999.

(** [timedelta(seconds=n)] for an int [n], in microseconds. *)
Definition timedelta (seconds : Z) : result Z :=
  if bool_decide (-999999999 ≤ seconds / 86400 ≤ 999999999)
  then Ok (seconds * 1000000) else Raise OverflowError.

(** [t + delta] and [t - delta] for a datetime [t]. *)
Definition datetime_add (t : datetime) (delta : Z) : result datetime :=
  if bool_decide (0 ≤ t + delta ≤ datetime_max) then Ok (t + delta)
  else Raise OverflowError.

Definition datetime_sub (t : datetime) (delta : Z) : result datetime :=
  datetime_add t (- delta).

(** [delta.total_seconds()]: the microseconds of the duration divided by
    [10**6], a true division of two ints. *)
Definition total_seconds (delta : Z) : result spec_float :=
  int_truediv delta 1000000.

(** A document of the collection: one optional field per key. *)
Record document := {
  user_id : option string;
  platform : option string;
  requests : option (list datetime);
  created_at : option datetime;
  updated_at : option datetime;
}.

Abbreviation collection := (gmap string document).

Record RateLimiter := {
  max_requests : Z;
  window_seconds : Z;
}.

(** The outcome of a method: a result, or a raised exception; [requests[0]]
    on an empty list raises [IndexError]. *)
Inductive outcome (A : Type) :=
  | Returns (a : A)
  | Raises (e : exn)
  | RaisesIndexError.
Arguments Returns {A} a.
Arguments Raises {A} e.
Arguments RaisesIndexError {A}.

Definition of_result {A} (r : result A) : outcome A :=
  match r with
  | Ok a => Returns a
  | Raise e => Raises e
  end.

(** The f-string [f"{platform}_{user_id}"]. *)
Definition doc_id (platform user_id : string) : string :=
  platform +:+ "_" +:+ user_id.

(** The comprehension
    [[r for r in requests if datetime.fromisoformat(r) > window_start]]. *)
Definition in_window (window_start : datetime) (requests : list datetime)
    : list datetime :=
  filter (λ r, window_start < r) requests.

(** [is_allowed]: the collection after the call and the pair returned. *)
Definition is_allowed (self : RateLimiter) (db : collection) (now : datetime)
    (user_id platform : string) : outcome (collection * (bool * Z)) :=
  let doc_id := doc_id platform user_id in
  match (window <- timedelta (window_seconds self); datetime_sub now window) with
  | Raise e => Raises e
  | Ok window_start =>
    match db !! doc_id with
    | Some data =>
      let requests := default [] (data.(requests)) in
      let requests := in_window window_start requests in
      if bool_decide (max_requests self ≤ Z.of_nat (length requests)) then
        match requests with
        | [] => RaisesIndexError
        | oldest :: _ =>
          of_result
            (window <- timedelta (window_seconds self);
             reset_time <- datetime_add oldest window;
             seconds <- total_seconds (reset_time - now);
             seconds_until_reset <- map (Z.max 0) (trunc_float seconds);
             Ok (db, (false, seconds_until_reset)))
        end
      else
        Returns (<[doc_id := {| rate_limiter.user_id := data.(rate_limiter.user_id);
                                rate_limiter.platform := data.(rate_limiter.platform);
                                rate_limiter.requests := Some (requests ++ [now]);
                                created_at := data.(created_at);
                                updated_at := Some now |}]> db,
                 (true, 0))
    | None =>
      Returns (<[doc_id := {| rate_limiter.user_id := Some user_id;
                              rate_limiter.platform := Some platform;
                              rate_limiter.requests := Some [now];
                              created_at := Some now;
                              updated_at := Some now |}]> db,
               (true, 0))
    end
  end.

(** [get_remaining], which reads the collection and leaves it as it is. *)
Definition get_remaining (self : RateLimiter) (db : collection) (now : datetime)
    (user_id platform : string) : result Z :=
  let doc_id := doc_id platform user_id in
  window <- timedelta (window_seconds self);
  window_start <- datetime_sub now window;
  match db !! doc_id with
  | Some data =>
    let requests := default [] (data.(requests)) in
    let valid_requests := in_window window_start requests in
    Ok (Z.max 0 (max_requests self - Z.of_nat (length valid_requests)))
  | None => Ok (max_requests self)
  end.

(** *** The requests of a session

    A request is the reading of the clock and the arguments of one call of
    [is_allowed]; [serve] makes the calls one after the other, each on the
    collection the one before left, and collects the pairs returned. *)
Record request := {
  at_time : datetime;
  by_user : string;
  on_platform : string;
}.

Fixpoint serve (self : RateLimiter) (db : collection) (calls : list request)
    : outcome (collection * list (bool * Z)) :=
  match calls with
  | [] => Returns (db, [])
  | c :: calls =>
    match is_allowed self db (at_time c) (by_user c) (on_platform c) with
    | Returns (db, answer) =>
      match serve self db calls with
      | Returns (db, answers) => Returns (db, answer :: answers)
      | Raises e => Raises e
      | RaisesIndexError => RaisesIndexError
      end
    | Raises e => Raises e
    | RaisesIndexError => RaisesIndexError
    end
  end.

(** The instants of the requests that were allowed for the document [id]. *)
Fixpoint admitted (id : string) (calls : list request) (answers : list (bool * Z))
    : list datetime :=
  match calls, answers with
  | c :: calls, (allowed, _) :: answers =>
    if allowed && bool_decide (doc_id (on_platform c) (by_user c) = id)
    then at_time c :: admitted id calls answers
    else admitted id calls answers
  | _, _ => []
  end.

(** The clock does not go back: no request is made before [t], nor before
    the request it follows. *)
Fixpoint not_before (t : datetime) (calls : list request) : Prop :=
  match calls with
  | [] => True
  | c :: calls => t ≤ at_time c ∧ not_before (at_time c) calls
  end.

(** The readings of the clock at which the start of the window and the
    time of the reset are datetimes. *)
Definition window_in_range (self : RateLimiter) (t : datetime) : Prop :=
  window_seconds self * 1000000 ≤ t ≤ datetime_max - window_seconds self * 1000000.

(** *** What the collection holds during a session

    [recorded]: what the collection holds for a document, given the instants
    admitted for it so far: nothing before the first one; afterwards those
    within the window that ended at the last one.  [within_limit]: no window
    holds more than [max_requests] of the instants. *)
Definition recorded (self : RateLimiter) (db : collection) (id : string)
    (hist : list datetime) : Prop :=
  match last hist with
  | None => db !! id = None
  | Some a =>
    ∃ data, db !! id = Some data
            ∧ requests data
              = Some (in_window (a - window_seconds self * 1000000) hist)
  end.

Definition within_limit (self : RateLimiter) (hist : list datetime) : Prop :=
  ∀ t, Z.of_nat (length (filter (λ a, t - window_seconds self * 1000000 < a ≤ t) hist))
       ≤ max_requests self.

Definition kept (self : RateLimiter) (db : collection) (H : string → list datetime)
    (t : datetime) : Prop :=
  ∀ id, recorded self db id (H id) ∧ Forall (λ a, a ≤ t) (H id)
        ∧ within_limit self (H id).

(** The instant a request adds to the instants admitted for [id]. *)
Definition entered (id : string) (c : request) (allowed : bool) : list datetime :=
  if allowed && bool_decide (doc_id (on_platform c) (by_user c) = id)
  then [at_time c] else [].

(** The reading of the clock at the last of the requests made after [t]. *)
Fixpoint last_time (t : datetime) (calls : list request) : datetime :=
  match calls with
  | [] => t
  | c :: calls => last_time (at_time c) calls
  end.

(** *** The limiter of the bot and a session for the examples

    [handlers.py] builds [RateLimiter(max_requests=10, window_seconds=60)].
    [burst] is twelve requests of one user, one a second from the first
    instant of the year 2026; [later] is a thirteenth a minute after the
    first. *)
Definition of_handlers : RateLimiter :=
  {| max_requests := 10; window_seconds := 60 |}.

Definition new_year : datetime := 63902822400000000.

Definition burst : list request :=
  (λ k, {| at_time := new_year + k * 1000000; by_user := "7";
           on_platform := "telegram" |}) <$> seqZ 0 12.

Definition later : request :=
  {| at_time := new_year + 60000000; by_user := "7"; on_platform := "telegram" |}.

End rate_limiter.

(** ** [src/telegram_bot/firestore_client.py]

    The allowlist and the conversation histories that [handle_message]
    reads and writes.  Each of the two collections is a finite map from
    document ids to documents, as for the rate limiter; the readings of the
    clock are arguments, one for each [datetime.now] of a method, in the
    order in which they are made. *)

Module firestore_client.

Import Py.
#[local] Open Scope py_scope.

Abbreviation datetime := Z.

(** [l[start:]] for a list [l] and an int [start]: a negative [start]
    counts from the end, and a start outside the list is clipped. *)
Definition slice_from {A} (l : list A) (start : Z) : list A :=
  let n := Z.of_nat (length l) in
  let first := if bool_decide (start < 0) then Z.max (n + start) 0 else Z.min start n in
  drop (Z.to_nat first) l.

(** *** The allowlist *)

(** A document of ["allowed_users"].  The field ["telegram_id"] can be
    absent, [None] or an int. *)
Record user := {
  phone_number : option string;
  telegram_id : option (option Z);
  name : option (option string);
  active : option bool;
  user_created_at : option datetime;
  user_updated_at : option datetime;
}.

Abbreviation users := (gmap string user).

(** [is_user_allowed]: [data.get("active", False)] of the document of the
    phone number. *)
Definition is_user_allowed (db : users) (phone_number : string) : bool :=
  match db !! phone_number with
  | Some data => default false (active data)
  | None => false
  end.

(** The documents that the query
    [where("telegram_id", "==", telegram_id).where("active", "==", True)]
    selects. *)
Definition selected (telegram_id : Z) (data : user) : Prop :=
  firestore_client.telegram_id data = Some (Some telegram_id) ∧ active data = Some true.

#[global] Instance selected_dec (telegram_id : Z) (data : user) :
  Decision (selected telegram_id data).
Proof. unfold selected. apply _. Defined.

(** [is_telegram_user_allowed]: the query, limited to one document, has a
    result. *)
Definition is_telegram_user_allowed (db : users) (telegram_id : Z) : bool :=
  let results := take 1 (filter (selected telegram_id) (map_to_list db).*2) in
  bool_decide (0 < length results)%nat.

(** [add_allowed_user], with the two readings of the clock. *)
Definition add_allowed_user (db : users) (now1 now2 : datetime) (phone_number : string)
    (telegram_id : option Z) (name : option string) : users * bool :=
  (<[phone_number := {| firestore_client.phone_number := Some phone_number;
                        firestore_client.telegram_id := Some telegram_id;
                        firestore_client.name := Some name;
                        active := Some true;
                        user_created_at := Some now1;
                        user_updated_at := Some now2 |}]> db,
   true).

(** [link_telegram_id] *)
Definition link_telegram_id (db : users) (now : datetime) (phone_number : string)
    (telegram_id : Z) : users * bool :=
  match db !! phone_number with
  | Some data =>
    (<[phone_number := {| firestore_client.phone_number :=
                            firestore_client.phone_number data;
                          firestore_client.telegram_id := Some (Some telegram_id);
                          firestore_client.name := firestore_client.name data;
                          active := active data;
                          user_created_at := user_created_at data;
                          user_updated_at := Some now |}]> db,
     true)
  | None => (db, false)
  end.

(** *** The conversation histories *)

Record message := {
  role : string;
  content : string;
  timestamp : datetime;
}.

(** A document of ["conversations"]. *)
Record conversation := {
  user_id : option string;
  platform : option string;
  messages : option (list message);
  created_at : option datetime;
  updated_at : option datetime;
}.

Abbreviation conversations := (gmap string conversation).

(** The f-string [f"{platform}_{user_id}"]. *)
Definition doc_id (platform user_id : string) : string :=
  platform +:+ "_" +:+ user_id.

(** [get_conversation_history] *)
Definition get_conversation_history (db : conversations) (user_id platform : string)
    (limit : Z) : list message :=
  let doc_id := doc_id platform user_id in
  match db !! doc_id with
  | Some data =>
    let messages := default [] (data.(messages)) in
    slice_from messages (- limit)
  | None => []
  end.

(** [add_message], with the readings of the clock: one for the message,
    then one when the document is updated, two when it is created. *)
Definition add_message (db : conversations) (now1 now2 now3 : datetime)
    (user_id role content platform : string) (max_history : Z)
    : conversations * bool :=
  let doc_id := doc_id platform user_id in
  let message := {| firestore_client.role := role;
                    firestore_client.content := content;
                    timestamp := now1 |} in
  match db !! doc_id with
  | Some data =>
    let messages := default [] (data.(messages)) in
    let messages := messages ++ [message] in
    let messages :=
      if bool_decide (max_history < Z.of_nat (length messages))
      then slice_from messages (- max_history) else messages in
    (<[doc_id := {| firestore_client.user_id := data.(firestore_client.user_id);
                    firestore_client.platform := data.(firestore_client.platform);
                    firestore_client.messages := Some messages;
                    created_at := data.(created_at);
                    updated_at := Some now2 |}]> db,
     true)
  | None =>
    (<[doc_id := {| firestore_client.user_id := Some user_id;
                    firestore_client.platform := Some platform;
                    firestore_client.messages := Some [message];
                    created_at := Some now2;
                    updated_at := Some now3 |}]> db,
     true)
  end.

(** [clear_conversation] *)
Definition clear_conversation (db : conversations) (user_id platform : string)
    : conversations * bool :=
  let doc_id := doc_id platform user_id in
  (delete doc_id db, true).

(** The messages kept for a user: all of them, whatever their number. *)
Definition history (db : conversations) (user_id platform : string) : list message :=
  match db !! doc_id platform user_id with
  | Some data => default [] (messages data)
  | None => []
  end.

(** The last [n] elements of a list. *)
Definition last_n {A} (n : nat) (l : list A) : list A :=
  drop (length l - n) l.

End firestore_client.

(** * Properties *)

Import analysis_tools strategy_tools.

(** ** The result monad *)

Lemma bind_inv {A B} (r : result A) (k : A → result B) (b : B) :
  bind r k = Ok b → ∃ a, r = Ok a ∧ k a = Ok b.
Proof. destruct r as [a|e]; simpl; [eauto | discriminate]. Qed.

Ltac inv_bind H :=
  let a := fresh "a" in
  let Ha := fresh "Ha" in
  apply bind_inv in H; destruct H as (a & Ha & H).

(** ** Layering gate (claim C5) *)

(** C5.  [_create_layered_strategy] answers "no layered strategy" whenever
    the position has fewer than three contracts, whatever its other
    arguments; the orchestrator's layering step leaves [layered_strategy]
    at [None] unless the strike selection set [use_layered] and the
    position has at least 300 shares; 200 shares are two contracts and give
    no layered strategy. *)
Theorem layering_needs_three_contracts
    (sel : strike_selection) (opts : list (gmap string value))
    (stock_price : value) (shares : Z) (technical : gmap string value) :
  (shares / 100 < 3 →
     _create_layered_strategy opts stock_price shares technical = Ok None)
  ∧ (layering_step sel opts stock_price shares technical ≠ Ok None →
     sel_use_layered sel = true ∧ 300 ≤ shares)
  ∧ (sel_use_layered sel = true → 300 ≤ shares →
     layering_step sel opts stock_price shares technical
     = _create_layered_strategy opts stock_price shares technical)
  ∧ 200 / 100 = 2
  ∧ _create_layered_strategy opts stock_price 200 technical = Ok None.
Proof.
  split; [ | split; [ | split; [ | split ] ] ].
  - intros H. unfold _create_layered_strategy.
    destruct (Z.ltb_spec (shares / 100) 3); [reflexivity | lia].
  - intros H. unfold layering_step in H.
    destruct (sel_use_layered sel); simpl in H; [ | congruence ].
    split; [reflexivity | ].
    destruct (Z.leb_spec 300 shares); [assumption | congruence].
  - intros Hl Hs. unfold layering_step. rewrite Hl. simpl.
    destruct (Z.leb_spec 300 shares); [reflexivity | lia].
  - reflexivity.
  - reflexivity.
Qed.

Lemma layering_needs_three_contracts_witness :
  299 / 100 < 3
  ∧ _create_layered_strategy [] (VFloat (fl 100)) 299 ∅ = Ok None.
Proof.
  split; [reflexivity | ].
  refine (proj1 (layering_needs_three_contracts
           {| sel_option := None; sel_strategy := "balanced";
              sel_reason := Sentence "none"; sel_assignment_risk := VNone;
              sel_sentiment := VNone; sel_bounce_potential := VNone;
              sel_use_layered := true |}
           [] (VFloat (fl 100)) 299 ∅) _).
  reflexivity.
Defined.

(** ** Error codes of the orchestrator (claim C9) *)

Section error_codes.

Variable validate_ticker : string → validation.
Variable get_stock_price : string → price_data.
Variable get_options_chain : string → options_tools.options_data.
Variable get_technical_analysis : string → gmap string value.
Variable format_recommendation :
  string → value → metrics → Z → breakeven_result → max_profit → string + exn.
Variable format_itm_warning : value → value → itm_warning.
Variable _format_layered_strategy : layered → value → string → result string.
Variable _format_integrated_technical_section :
  gmap string value → strike_selection → value → metrics → result string.
Variable str_strip str_upper : string → string.
Variable str_int : Z → string.
Variable str_exn : exn → string.

Local Abbreviation run :=
  (run_covered_call_strategy validate_ticker get_stock_price get_options_chain
     get_technical_analysis format_recommendation format_itm_warning
     _format_layered_strategy _format_integrated_technical_section
     str_strip str_upper str_int str_exn).

Lemma fail_code (error_type details : string) (r : strategy_result) :
  fail error_type details = Ok r → error r = Some error_type.
Proof. unfold fail. intros [= <-]. reflexivity. Qed.

Ltac known_code :=
  unfold spec.error_codes;
  repeat first [ apply list_elem_of_here | apply list_elem_of_further ].

Ltac by_fail H := apply fail_code in H; rewrite H; known_code.

Lemma conclude_codes clean_ticker shares stock_price technical best sel layered r :
  conclude format_recommendation format_itm_warning _format_layered_strategy
    _format_integrated_technical_section str_exn
    clean_ticker shares stock_price technical best sel layered = Ok r →
  error r ∈ spec.error_codes.
Proof.
  unfold conclude. intros H.
  destruct (breakeven_error _); [ by_fail H | ].
  destruct (calculate_max_profit _ _ _ _); [ | by_fail H ].
  destruct (format_recommendation _ _ _ _ _ _); [ | by_fail H ].
  inv_bind H. inv_bind H. injection H as <-. simpl. known_code.
Qed.

Lemma select_and_conclude_codes clean_ticker shares stock_price opts r :
  select_and_conclude get_technical_analysis format_recommendation
    format_itm_warning _format_layered_strategy
    _format_integrated_technical_section str_exn
    clean_ticker shares stock_price opts = Ok r →
  error r ∈ spec.error_codes.
Proof.
  unfold select_and_conclude. intros H.
  destruct (py_truthy _).
  - destruct (found _); [ | by_fail H ].
    destruct (best_option _); [ | by_fail H ].
    eapply conclude_codes, H.
  - inv_bind H. destruct (sel_option _); [ | by_fail H ].
    inv_bind H. eapply conclude_codes, H.
Qed.

(** C9.  A share count that is not a positive multiple of 100 is answered
    with the error code [invalid_shares] and the message of the error table;
    that answer mentions none of the collaborators, so it is the same for
    every ticker validator, price source and chain source.  And whatever
    dictionary [run_covered_call_strategy] returns, its error code is one
    of the six codes or null. *)
Theorem run_error_codes (ticker : string) (shares : Z) (otm_only : bool) :
  (shares ≤ 0 ∨ shares mod 100 ≠ 0 →
     run ticker shares otm_only
     = Ok {| formatted_text :=
               formatting_tools.message
                 (formatting_tools.format_error_message "invalid_shares"
                    ("You provided " +:+ str_int shares +:+ " shares."));
             error := Some "invalid_shares" |})
  ∧ (∀ r, run ticker shares otm_only = Ok r → error r ∈ spec.error_codes).
Proof.
  split.
  - intros H. unfold run_covered_call_strategy.
    destruct (Z.leb_spec shares 0) as [Hle|Hgt]; simpl; [reflexivity | ].
    destruct (Z.eqb_spec (shares mod 100) 0) as [Hz|Hnz]; simpl; [lia | reflexivity].
  - intros r H. unfold run_covered_call_strategy in H.
    destruct (_ || _); [ by_fail H | ].
    destruct (negb (valid _)); [ by_fail H | ].
    destruct (negb (has_options _)); [ by_fail H | ].
    destruct (if options_tools.truthy_text _ then None else _); [ | by_fail H ].
    destruct (options_tools.truthy_text (options_tools.error _)); [ by_fail H | ].
    destruct (is_empty (options_tools.options _)); [ by_fail H | ].
    destruct (options_tools.f_error _) as [[msg|e]|];
      [ by_fail H | by_fail H | ].
    destruct (is_empty _); [ by_fail H | ].
    inv_bind H. inv_bind H.
    destruct (is_empty _); [ by_fail H | ].
    eapply select_and_conclude_codes, H.
Qed.

End error_codes.

Lemma run_error_codes_witness :
  ∃ r,
    run_covered_call_strategy
      (λ _, {| valid := true; has_options := true; v_error := None |})
      (λ _, {| price := Some (fl 100); p_error := None |})
      (λ t, {| options_tools.ticker := t; options_tools.options := [];
               options_tools.error := None |})
      (λ _, ∅) (λ _ _ _ _ _ _, inl "text")
      (λ _ _, {| warning := None; is_itm := false |})
      (λ _ _ _, Ok "layers") (λ _ _ _ _, Ok "technical")
      id id (λ _, "250") (λ _, "exception") "aapl" 250 true = Ok r
    ∧ error r = Some "invalid_shares".
Proof.
  eexists. split.
  - refine (proj1 (run_error_codes _ _ _ _ _ _ _ _ _ _ _ _ "aapl" 250 true) _).
    right. vm_compute. discriminate.
  - reflexivity.
Defined.

(** ** Comparisons and comprehensions that cannot raise *)

Lemma py_compare_numeric test (a b : value) :
  spec.numeric a → spec.numeric b → ∃ c, py_compare test a b = Ok c.
Proof.
  intros [x Hx] [y Hy]. unfold py_compare. rewrite Hx, Hy. eauto.
Qed.

Lemma py_eq_text (v : value) (s : string) : py_eq v (VStr s) = spec.is_text v s.
Proof. destruct v; reflexivity. Qed.

Lemma comprehension_filter {A} (p : A → result bool) (l : list A) :
  Forall (λ x, ∃ c, p x = Ok c) l →
  comprehension p l
  = Ok (List.filter (λ x, match p x with Ok true => true | _ => false end) l).
Proof.
  induction 1 as [|x l [c Hc] _ IH]; simpl; [reflexivity | ].
  rewrite Hc, IH. simpl. destruct c; reflexivity.
Qed.

Lemma filter_ext_Forall {A} (f g : A → bool) (l : list A) :
  Forall (λ x, f x = g x) l → List.filter f l = List.filter g l.
Proof.
  induction 1 as [|x l Hx _ IH]; simpl; [reflexivity | ].
  rewrite Hx, IH. reflexivity.
Qed.

(** ** The best-by-yield loops *)

Lemma py_round_numeric (v r : value) (nd : Z) :
  py_round v nd = Ok r → spec.numeric r.
Proof.
  unfold py_round, spec.numeric.
  destruct (as_num v) as [[z|f]|]; intros [= <-]; simpl; eauto.
Qed.

Lemma metrics_annualized_numeric opt stock_price m :
  calculate_option_metrics opt stock_price = Metrics m →
  spec.numeric (m_annualized_return m).
Proof.
  unfold calculate_option_metrics.
  destruct (option_metrics_try opt stock_price) as [m'|e] eqn:H; [ | discriminate ].
  intros [= <-]. unfold option_metrics_try in H.
  repeat inv_bind H. injection H as <-. simpl.
  eapply py_round_numeric; eassumption.
Qed.

Lemma highest_yield_best_loop stock_price st opts :
  highest_yield stock_price st opts = best_loop stock_price st opts.
Proof.
  revert st. induction opts as [|opt opts IH]; intros st; simpl; [reflexivity | ].
  unfold best_step.
  destruct (calculate_option_metrics opt stock_price) as [m|e]; simpl; [ | apply IH ].
  destruct (py_gt _ _) as [c|e]; simpl; [ apply IH | reflexivity ].
Qed.

Lemma best_loop_total stock_price st opts :
  spec.numeric (snd st) →
  ∃ st', best_loop stock_price st opts = Ok st' ∧ spec.numeric (snd st').
Proof.
  revert st. induction opts as [|opt opts IH]; intros st Hst; simpl; [eauto | ].
  unfold best_step.
  destruct (calculate_option_metrics opt stock_price) as [m|e] eqn:Hm; simpl;
    [ | apply IH, Hst ].
  pose proof (metrics_annualized_numeric _ _ _ Hm) as Hn.
  destruct (py_compare_numeric is_gt _ _ Hn Hst) as [c Hc].
  unfold py_gt. rewrite Hc. simpl. apply IH. destruct c; assumption.
Qed.

Lemma find_best_option_loop opts stock_price st :
  best_loop stock_price (None, VInt (-1)) opts = Ok st →
  best_option (find_best_option opts stock_price) = fst st.
Proof.
  intros H. unfold find_best_option. destruct opts as [|o opts].
  - simpl in H. injection H as <-. reflexivity.
  - rewrite H. simpl. destruct (fst st); reflexivity.
Qed.

(** ** Strike selection (claim C1) *)

Lemma strike_preference_table (sentiment assignment_risk : value) :
  let r := spec.row_of sentiment assignment_risk in
  min_otm_pct (strike_preference sentiment assignment_risk) = VFloat (fst (spec.band r))
  ∧ max_otm_pct (strike_preference sentiment assignment_risk) = VFloat (snd (spec.band r))
  ∧ strategy (strike_preference sentiment assignment_risk) = spec.label r
  ∧ use_layered (strike_preference sentiment assignment_risk) = spec.layered_row r.
Proof.
  unfold strike_preference, spec.row_of, py_in. simpl.
  rewrite !py_eq_text, !orb_false_r.
  destruct (_ || _); [ repeat split | ].
  destruct (_ || _); [ repeat split | ].
  destruct (spec.is_text assignment_risk "high"); [ repeat split | ].
  destruct (spec.is_text assignment_risk "moderate"); repeat split.
Qed.

Lemma float_of_int_1 : float_of_int 1 = Ok (fl 1).
Proof. reflexivity. Qed.

Lemma float_of_int_100 : float_of_int 100 = Ok (fl 100).
Proof. reflexivity. Qed.

Lemma otm_strike_float (price pct : spec_float) :
  otm_strike (VFloat price) (VFloat pct) = Ok (VFloat (spec.band_edge price pct)).
Proof. reflexivity. Qed.

Lemma in_band_within (lo hi : value) (opt : gmap string value) :
  spec.numeric lo → spec.numeric hi →
  spec.numeric (get opt "strike" (VInt 0)) →
  in_band lo hi opt = Ok (spec.within lo hi (get opt "strike" (VInt 0))).
Proof.
  intros Hlo Hhi Hs. unfold in_band, spec.within.
  destruct (py_compare_numeric is_le _ _ Hlo Hs) as [c1 H1].
  destruct (py_compare_numeric is_le _ _ Hs Hhi) as [c2 H2].
  unfold py_le. rewrite H1. simpl. rewrite H2.
  destruct c1, c2; reflexivity.
Qed.

(** ** Classification by bullish ratio (claim C2) *)

Import technical_tools.

(** Each scoring step is one of finitely many updates of the score. *)
Lemma score_rsi_cases (rsi : value) :
  spec.numeric rsi →
  score_rsi rsi
  = (λ st, st' <- add_bearish st (VFloat (fl 0.5));
           Ok ("overbought", set_bounce st' "overbought_pullback"))
  ∨ score_rsi rsi
    = (λ st, st' <- add_bullish st (VFloat (fl 0.5));
             Ok ("oversold", set_bounce st' "oversold_bounce"))
  ∨ score_rsi rsi
    = (λ st, st' <- add_bearish st (VFloat (fl 0.3)); Ok ("near_overbought", st'))
  ∨ score_rsi rsi = (λ st, st' <- add_bullish st (VInt 1); Ok ("bullish", st'))
  ∨ score_rsi rsi = (λ st, st' <- add_bearish st (VInt 1); Ok ("bearish", st'))
  ∨ score_rsi rsi = (λ st, Ok ("neutral", st)).
Proof.
  intros Hrsi.
  assert (Hint : ∀ z, spec.numeric (VInt z)) by (intros z; eexists; reflexivity).
  destruct (py_compare_numeric is_gt rsi (VInt 70) Hrsi (Hint _)) as [c1 H1].
  destruct (py_compare_numeric is_lt rsi (VInt 35) Hrsi (Hint _)) as [c2 H2].
  destruct (py_compare_numeric is_gt rsi (VInt 65) Hrsi (Hint _)) as [c3 H3].
  destruct (py_compare_numeric is_gt rsi (VInt 55) Hrsi (Hint _)) as [c4 H4].
  destruct (py_compare_numeric is_lt rsi (VInt 45) Hrsi (Hint _)) as [c5 H5].
  unfold score_rsi, py_gt, py_lt. rewrite H1, H2, H3, H4, H5. cbn [bind].
  destruct c1; [ auto | ]. destruct c2; [ auto | ].
  destruct c3; [ auto | ]. destruct c4; [ auto 6 | ]. destruct c5; auto 7.
Qed.

Lemma score_macd_cases (macd_trend : value) :
  score_macd macd_trend = (λ st, add_bullish st (VInt 1))
  ∨ score_macd macd_trend = (λ st, add_bearish st (VInt 1))
  ∨ score_macd macd_trend = (λ st, Ok st).
Proof.
  unfold score_macd.
  destruct (py_eq macd_trend (VStr "bullish")); [ auto | ].
  destruct (py_eq macd_trend (VStr "bearish")); auto.
Qed.

Lemma score_mas_cases (mas_trend : value) :
  score_mas mas_trend = (λ st, add_bullish st (VInt 1))
  ∨ score_mas mas_trend = (λ st, add_bearish st (VInt 1))
  ∨ score_mas mas_trend = (λ st, Ok st).
Proof.
  unfold score_mas.
  destruct (py_in mas_trend ["strong_bullish"; "bullish"]); [ auto | ].
  destruct (py_in mas_trend ["strong_bearish"; "bearish"]); auto.
Qed.

Lemma score_volume_cases (volume_signal : value) :
  score_volume volume_signal = (λ st, add_bullish st (VInt 1))
  ∨ score_volume volume_signal = (λ st, add_bearish st (VInt 1))
  ∨ score_volume volume_signal = (λ st, Ok st).
Proof.
  unfold score_volume.
  destruct (py_eq volume_signal (VStr "bullish_volume")); [ auto | ].
  destruct (py_eq volume_signal (VStr "bearish_volume")); auto.
Qed.

(** C2.  For every numeric RSI and every MACD trend, moving-average trend
    and volume signal, the aggregation returns an assessment; when it sets
    no bounce flag, [bullish_ratio] is 0.5 if both accumulators are zero
    and [bullish_signals / (bullish_signals + bearish_signals)] otherwise,
    and the assignment risk and sentiment are those of the thresholds
    0.7, 0.5 and 0.3 on it, the first one reached deciding: high/bullish,
    moderate/slightly_bullish, low/neutral, else very_low/bearish.  In
    particular a ratio equal to 0.75 gives high/bullish. *)
Theorem classification_by_ratio (rsi macd_trend mas_trend volume_signal : value) :
  spec.numeric rsi →
  ∃ a,
    assess rsi macd_trend mas_trend volume_signal = Ok a
    ∧ (bounce_potential a = VNone →
       (∃ total,
          py_add (bullish_signals a) (bearish_signals a) = Ok total
          ∧ ((py_eq (bullish_signals a) (VInt 0) && py_eq (bearish_signals a) (VInt 0)
              = true
              ∧ bullish_ratio a = VFloat (fl 0.5))
             ∨ (py_eq (bullish_signals a) (VInt 0)
                && py_eq (bearish_signals a) (VInt 0) = false
                ∧ py_truediv (bullish_signals a) total = Ok (bullish_ratio a))))
       ∧ (assignment_risk a, sentiment a) = spec.by_ratio (bullish_ratio a)
       ∧ (py_eq (bullish_ratio a) (VFloat (fl 0.75)) = true →
          assignment_risk a = "high" ∧ sentiment a = "bullish")).
Proof.
  intros Hrsi. unfold assess.
  destruct (score_rsi_cases rsi Hrsi) as [ -> | [ -> | [ -> | [ -> | [ -> | -> ] ] ] ] ];
    destruct (score_macd_cases macd_trend) as [ -> | [ -> | -> ] ];
    destruct (score_mas_cases mas_trend) as [ -> | [ -> | -> ] ];
    destruct (score_volume_cases volume_signal) as [ -> | [ -> | -> ] ];
    (match goal with
     | |- ∃ a, ?r = Ok a ∧ _ => let v := eval vm_compute in r in change r with v
     end);
    (eexists; split; [ reflexivity | ]);
    cbn [bounce_potential bullish_signals bearish_signals bullish_ratio
         assignment_risk sentiment];
    (intros Hb; try discriminate Hb);
    (split;
     [ eexists; split;
       [ reflexivity
       | first [ left; split; reflexivity | right; split; reflexivity ] ]
     | split;
       [ reflexivity
       | intros Hr; vm_compute in Hr; first [ discriminate Hr | split; reflexivity ] ] ]).
Qed.

Lemma classification_by_ratio_witness :
  ∃ a,
    assess (VFloat (fl 60)) (VStr "bullish") (VStr "strong_bullish")
      (VStr "bearish_volume") = Ok a
    ∧ bounce_potential a = VNone
    ∧ bullish_ratio a = VFloat (fl 0.75)
    ∧ assignment_risk a = "high" ∧ sentiment a = "bullish".
Proof.
  destruct (classification_by_ratio (VFloat (fl 60)) (VStr "bullish")
              (VStr "strong_bullish") (VStr "bearish_volume"))
    as (a & Ha & _).
  { eexists; reflexivity. }
  exists a. split; [ exact Ha | ].
  vm_compute in Ha. injection Ha as <-. repeat split.
Defined.

(** ** Composition of the filters (claim C8) *)

Lemma comprehension_inv {A} (p : A → result bool) (l kept : list A) :
  comprehension p l = Ok kept →
  Forall (λ x, ∃ c, p x = Ok c) l
  ∧ kept = List.filter (λ x, match p x with Ok true => true | _ => false end) l.
Proof.
  revert kept. induction l as [|x l IH]; simpl; intros kept H.
  - injection H as <-. split; [ constructor | reflexivity ].
  - inv_bind H. inv_bind H. injection H as <-.
    destruct (IH _ Ha0) as [Hall ->]. rewrite Ha.
    split; [ constructor; eauto | destruct a; reflexivity ].
Qed.

Lemma Forall_list_filter {A} (P : A → Prop) (f : A → bool) (l : list A) :
  Forall P l → Forall P (List.filter f l).
Proof.
  induction 1 as [|x l Hx _ IH]; simpl; [ constructor | ].
  destruct (f x); [ constructor; assumption | assumption ].
Qed.

Lemma list_filter_comm {A} (f g : A → bool) (l : list A) :
  List.filter f (List.filter g l) = List.filter g (List.filter f l).
Proof.
  induction l as [|x l IH]; simpl; [ reflexivity | ].
  destruct (f x) eqn:Hf, (g x) eqn:Hg; simpl; rewrite ?Hf, ?Hg, IH; reflexivity.
Qed.

Lemma list_filter_idem {A} (f : A → bool) (l : list A) :
  List.filter f (List.filter f l) = List.filter f l.
Proof.
  induction l as [|x l IH]; simpl; [ reflexivity | ].
  destruct (f x) eqn:Hf; simpl; rewrite ?Hf, IH; reflexivity.
Qed.

Lemma keeps_contract (opt : gmap string value) :
  spec.contract opt → ∃ c, options_tools.keeps 7 45 10 opt = Ok c.
Proof.
  intros ((d & Hd & Nd) & (oi & Hoi & Noi) & (b & Hb & Nb) & _).
  assert (Hint : ∀ z, spec.numeric (VInt z)) by (intros z; eexists; reflexivity).
  unfold options_tools.keeps, item. rewrite Hd, Hoi, Hb. cbn [bind].
  destruct (py_compare_numeric is_le _ _ (Hint 7) Nd) as [c1 H1].
  destruct (py_compare_numeric is_le _ _ Nd (Hint 45)) as [c2 H2].
  destruct (py_compare_numeric is_ge _ _ Noi (Hint 10)) as [c3 H3].
  destruct (py_compare_numeric is_gt _ _ Nb (Hint 0)) as [c4 H4].
  unfold py_le, py_ge, py_gt. rewrite H1. cbn [bind].
  destruct c1; cbn [negb]; [ | eauto ]. rewrite H2. cbn [bind].
  destruct c2; cbn [negb]; [ | eauto ]. rewrite H3. cbn [bind].
  destruct c3; cbn [negb]; eauto.
Qed.

Lemma is_otm_contract (price : value) (opt : gmap string value) :
  spec.numeric price → spec.contract opt → ∃ c, is_otm price opt = Ok c.
Proof.
  intros Hp (_ & _ & _ & Hs). unfold is_otm, py_ge.
  apply py_compare_numeric; assumption.
Qed.

(** C8.  On option records that carry the fields the filters read, and for
    a numeric stock price: filtering by window and liquidity (the
    comprehension of [filter_options]: 7 to 45 days, open interest at
    least 10, positive bid) and then by [strike >= stock_price] keeps the
    same options as filtering in the other order, and applying either
    filter to its own output changes nothing. *)
Theorem filters_commute_and_idempotent
    (ticker : string) (opts : list (gmap string value)) (price : value) :
  Forall spec.contract opts → spec.numeric price →
  ∃ liquid otm both,
    comprehension (options_tools.keeps 7 45 10) opts = Ok liquid
    ∧ options_tools.filtered_options
        (options_tools.filter_options
           {| options_tools.ticker := ticker; options_tools.options := opts;
              options_tools.error := None |}) = liquid
    ∧ comprehension (is_otm price) opts = Ok otm
    ∧ comprehension (is_otm price) liquid = Ok both
    ∧ comprehension (options_tools.keeps 7 45 10) otm = Ok both
    ∧ comprehension (options_tools.keeps 7 45 10) liquid = Ok liquid
    ∧ comprehension (is_otm price) otm = Ok otm.
Proof.
  intros Hall Hprice.
  assert (Hk : Forall (λ o, ∃ c, options_tools.keeps 7 45 10 o = Ok c) opts).
  { eapply Forall_impl; [ exact Hall | ]. intros o Ho. apply keeps_contract, Ho. }
  assert (Ho : Forall (λ o, ∃ c, is_otm price o = Ok c) opts).
  { eapply Forall_impl; [ exact Hall | ]. intros o Hc. apply is_otm_contract; assumption. }
  eexists _, _, _.
  split; [ apply comprehension_filter, Hk | ].
  split.
  { unfold options_tools.filter_options, options_tools.filter_options_with.
    cbn [options_tools.error options_tools.truthy_text options_tools.options].
    rewrite (comprehension_filter _ _ Hk). reflexivity. }
  split; [ apply comprehension_filter, Ho | ].
  split; [ apply comprehension_filter, Forall_list_filter, Ho | ].
  split.
  { rewrite (comprehension_filter _ _ (Forall_list_filter _ _ _ Hk)).
    f_equal. apply list_filter_comm. }
  split.
  - rewrite (comprehension_filter _ _ (Forall_list_filter _ _ _ Hk)).
    f_equal. apply list_filter_idem.
  - rewrite (comprehension_filter _ _ (Forall_list_filter _ _ _ Ho)).
    f_equal. apply list_filter_idem.
Qed.

Lemma filters_commute_and_idempotent_witness :
  ∃ both,
    (liquid <- comprehension (options_tools.keeps 7 45 10)
                 [examples.call_103; examples.call_110; examples.call_95];
     comprehension (is_otm (VFloat (fl 100))) liquid) = Ok both
    ∧ (otm <- comprehension (is_otm (VFloat (fl 100)))
                [examples.call_103; examples.call_110; examples.call_95];
       comprehension (options_tools.keeps 7 45 10) otm) = Ok both.
Proof.
  destruct (filters_commute_and_idempotent "AAPL"
              [examples.call_103; examples.call_110; examples.call_95]
              (VFloat (fl 100)))
    as (liquid & otm & both & H1 & _ & H2 & H3 & H4 & _).
  - repeat constructor; eexists; (split; [ reflexivity | eexists; reflexivity ])
      || (eexists; reflexivity).
  - eexists; reflexivity.
  - exists both. rewrite H1, H2. cbn [bind]. split; assumption.
Defined.

(** ** Binary digits and the rounding of [SpecFloat] *)

Lemma digits2_pos_size (p : positive) : digits2_pos p = Pos.size p.
Proof. induction p as [p IH|p IH|]; simpl; rewrite ?IH; reflexivity. Qed.

Lemma Zdigits2_nonneg (m : Z) : 0 ≤ Zdigits2 m.
Proof. destruct m; simpl; lia. Qed.

(** A non-negative [m] has at most [d] binary digits iff [m < 2^d]. *)
Lemma Zdigits2_le (m d : Z) : 0 ≤ m → 0 ≤ d → Zdigits2 m ≤ d ↔ m < 2 ^ d.
Proof.
  intros Hm Hd. destruct m as [|p|p]; [ | | lia ].
  - simpl. split; [ intros _; apply Z.pow_pos_nonneg; lia | lia ].
  - simpl. rewrite digits2_pos_size.
    assert (Hs : Zpos (Pos.size p) = Z.log2 (Zpos p) + 1).
    { destruct p; simpl; lia. }
    rewrite Hs. rewrite (Z.log2_lt_pow2 (Zpos p) d) by lia. lia.
Qed.

Lemma Zdigits2_bound (m : Z) : 0 ≤ m → m < 2 ^ Zdigits2 m.
Proof. intros Hm. apply Zdigits2_le; [ assumption | apply Zdigits2_nonneg | lia ]. Qed.

Lemma Zdigits2_mono (a b : Z) : 0 ≤ a ≤ b → Zdigits2 a ≤ Zdigits2 b.
Proof.
  intros H. apply Zdigits2_le; [ lia | apply Zdigits2_nonneg | ].
  pose proof (Zdigits2_bound b). lia.
Qed.

Lemma shr_1_m (mrs : shr_record) :
  0 ≤ shr_m mrs → shr_m (shr_1 mrs) = shr_m mrs / 2.
Proof.
  destruct mrs as [m r s]. simpl. intros Hm.
  rewrite <- Z.div2_div.
  destruct m as [|[p|p|]|p]; try reflexivity. lia.
Qed.

Lemma iter_shr_1_m (p : positive) (mrs : shr_record) :
  0 ≤ shr_m mrs → shr_m (SpecFloat.iter_pos shr_1 p mrs) = shr_m mrs / 2 ^ Zpos p.
Proof.
  revert mrs. induction p as [p IH|p IH|]; intros mrs Hm; simpl.
  - assert (H1 : 0 ≤ shr_m (shr_1 mrs)).
    { rewrite shr_1_m by assumption. apply Z.div_pos; lia. }
    assert (H2 : 0 ≤ shr_m (SpecFloat.iter_pos shr_1 p (shr_1 mrs))).
    { rewrite IH by assumption. apply Z.div_pos; [ assumption | apply Z.pow_pos_nonneg; lia ]. }
    assert (Hp : 2 ^ Zpos p~1 = 2 * 2 ^ Zpos p * 2 ^ Zpos p).
    { assert (Hx : Zpos p~1 = 1 + Zpos p + Zpos p) by lia.
      rewrite Hx, !Z.pow_add_r by lia. reflexivity. }
    rewrite IH, IH, shr_1_m by assumption.
    rewrite !Z.div_div by (try apply Z.pow_pos_nonneg; lia).
    rewrite Hp. f_equal; ring.
  - assert (H2 : 0 ≤ shr_m (SpecFloat.iter_pos shr_1 p mrs)).
    { rewrite IH by assumption. apply Z.div_pos; [ assumption | apply Z.pow_pos_nonneg; lia ]. }
    assert (Hp : 2 ^ Zpos p~0 = 2 ^ Zpos p * 2 ^ Zpos p).
    { assert (Hx : Zpos p~0 = Zpos p + Zpos p) by lia.
      rewrite Hx, Z.pow_add_r by lia. reflexivity. }
    rewrite IH, IH by assumption.
    rewrite !Z.div_div by (try apply Z.pow_pos_nonneg; lia).
    rewrite Hp. f_equal; ring.
  - rewrite shr_1_m by assumption. reflexivity.
Qed.

Lemma shr_record_of_loc_m (m : Z) (l : location) : shr_m (shr_record_of_loc m l) = m.
Proof. destruct l as [|[]]; reflexivity. Qed.

(** The first component of [shr]: the mantissa divided by [2^n], and the
    exponent raised by [n], for [n > 0]; no change otherwise. *)
Lemma shr_spec (mrs : shr_record) (e n : Z) :
  0 ≤ shr_m mrs →
  shr_m (fst (shr mrs e n)) = shr_m mrs / 2 ^ Z.max 0 n
  ∧ snd (shr mrs e n) = e + Z.max 0 n.
Proof.
  intros Hm. destruct n as [|p|p]; simpl.
  - rewrite Z.div_1_r. split; [ reflexivity | lia ].
  - rewrite iter_shr_1_m by assumption. split; reflexivity.
  - rewrite Z.div_1_r. split; [ reflexivity | lia ].
Qed.

Lemma round_nearest_even_bounds (m : Z) (l : location) :
  m ≤ round_nearest_even m l ≤ m + 1.
Proof.
  destruct l as [|[]]; simpl; try lia. destruct (Z.even m); lia.
Qed.

(** What [binary_round_aux] computes on a non-negative mantissa: a first
    shift by [k1] digits, a rounding to [m'], a second shift by [k2]. *)
Lemma binary_round_aux_anatomy_fexp (s : bool) (m e : Z) (l : location) :
  0 ≤ m →
  let k1 := Z.max 0 (fexp prec emax (Zdigits2 m + e) - e) in
  ∃ m',
    m / 2 ^ k1 ≤ m' ≤ m / 2 ^ k1 + 1
    ∧ let e1 := e + k1 in
      let k2 := Z.max 0 (fexp prec emax (Zdigits2 m' + e1) - e1) in
      let m2 := m' / 2 ^ k2 in
      let e2 := e1 + k2 in
      binary_round_aux prec emax s m e l
      = match m2 with
        | Z0 => S754_zero s
        | Zpos p => if e2 <=? emax - prec then S754_finite s p e2 else S754_infinity s
        | Zneg _ => S754_nan
        end.
Proof.
  intros Hm k1. unfold binary_round_aux, shr_fexp.
  pose proof (shr_spec (shr_record_of_loc m l) e
                (fexp prec emax (Zdigits2 m + e) - e)) as H1.
  rewrite shr_record_of_loc_m in H1. specialize (H1 Hm).
  destruct (shr (shr_record_of_loc m l) e _) as [mrs1 e1]. simpl in H1.
  destruct H1 as [Hm1 He1]. fold k1 in Hm1, He1.
  set (m' := round_nearest_even (shr_m mrs1) (loc_of_shr_record mrs1)).
  exists m'.
  pose proof (round_nearest_even_bounds (shr_m mrs1) (loc_of_shr_record mrs1)) as Hb.
  fold m' in Hb. rewrite Hm1 in Hb. split; [ exact Hb | ].
  assert (Hm' : 0 ≤ m').
  { assert (0 ≤ m / 2 ^ k1) by (apply Z.div_pos; [ | apply Z.pow_pos_nonneg ]; lia). lia. }
  pose proof (shr_spec (shr_record_of_loc m' loc_Exact) e1
                (fexp prec emax (Zdigits2 m' + e1) - e1)) as H2.
  rewrite shr_record_of_loc_m in H2. specialize (H2 Hm').
  destruct (shr (shr_record_of_loc m' loc_Exact) e1 _) as [mrs2 e2]. simpl in H2.
  destruct H2 as [Hm2 He2]. subst e1. cbv zeta. rewrite <- Hm2, <- He2. reflexivity.
Qed.

(** The same, with the exponent function of binary64 written out. *)
Lemma binary_round_aux_anatomy (s : bool) (m e : Z) (l : location) :
  0 ≤ m →
  let k1 := Z.max 0 (Z.max (Zdigits2 m + e - 53) (-1074) - e) in
  ∃ m',
    m / 2 ^ k1 ≤ m' ≤ m / 2 ^ k1 + 1
    ∧ let e1 := e + k1 in
      let k2 := Z.max 0 (Z.max (Zdigits2 m' + e1 - 53) (-1074) - e1) in
      let m2 := m' / 2 ^ k2 in
      let e2 := e1 + k2 in
      binary_round_aux prec emax s m e l
      = match m2 with
        | Z0 => S754_zero s
        | Zpos p => if e2 <=? 971 then S754_finite s p e2 else S754_infinity s
        | Zneg _ => S754_nan
        end.
Proof. exact (binary_round_aux_anatomy_fexp s m e l). Qed.

Lemma fexp_eq (x : Z) : fexp prec emax x = Z.max (x - 53) (-1074).
Proof. reflexivity. Qed.

Lemma div_pow2_lt (m a k : Z) : 0 ≤ k ≤ a → m < 2 ^ a → m / 2 ^ k < 2 ^ (a - k).
Proof.
  intros Hk Hm. apply Z.div_lt_upper_bound; [ apply Z.pow_pos_nonneg; lia | ].
  rewrite <- Z.pow_add_r by lia. replace (k + (a - k)) with a by lia. exact Hm.
Qed.


Lemma binary_round_aux_sign (s : bool) (m e : Z) (l : location) :
  0 ≤ m → spec.has_sign s (binary_round_aux prec emax s m e l).
Proof.
  intros Hm. destruct (binary_round_aux_anatomy s m e l Hm) as (m' & Hb & ->).
  cbv zeta.
  assert (H0 : 0 ≤ m / 2 ^ Z.max 0 (Z.max (Zdigits2 m + e - 53) (-1074) - e)).
  { apply Z.div_pos; [ | apply Z.pow_pos_nonneg ]; lia. }
  match goal with |- spec.has_sign _ (match ?q with _ => _ end) =>
    assert (Hq : 0 ≤ q) by (apply Z.div_pos; [ | apply Z.pow_pos_nonneg ]; lia);
    destruct q as [|p|p]; [ reflexivity | | lia ]
  end.
  destruct (_ <=? _); reflexivity.
Qed.

(** No overflow: a mantissa and exponent that denote less than [2^1023]
    round to a finite float. *)
Lemma binary_round_aux_finite (s : bool) (m e : Z) (l : location) :
  0 ≤ m → e ≤ 971 → Zdigits2 m + e < 1024 →
  is_infinity (binary_round_aux prec emax s m e l) = false.
Proof.
  intros Hm He Hd. destruct (binary_round_aux_anatomy s m e l Hm) as (m' & Hb & ->).
  cbv zeta.
  set (k1 := Z.max 0 (Z.max (Zdigits2 m + e - 53) (-1074) - e)) in *.
  assert (Hk1 : 0 ≤ k1) by lia.
  assert (He1 : e + k1 ≤ 971) by lia.
  assert (Hm1 : m / 2 ^ k1 < 2 ^ (1023 - e - k1)).
  { pose proof (Zdigits2_nonneg m).
    apply div_pow2_lt; [ lia | ].
    eapply Z.lt_le_trans; [ apply Zdigits2_bound, Hm | ].
    apply Z.pow_le_mono_r; lia. }
  assert (Hm' : 0 ≤ m').
  { assert (0 ≤ m / 2 ^ k1) by (apply Z.div_pos; [ | apply Z.pow_pos_nonneg ]; lia). lia. }
  assert (Hd' : Zdigits2 m' ≤ 1024 - e - k1).
  { apply Zdigits2_le; [ lia | lia | ].
    replace (1024 - e - k1) with (1023 - e - k1 + 1) by lia.
    rewrite Z.pow_add_r by lia. lia. }
  match goal with |- is_infinity (match ?q with _ => _ end) = _ =>
    destruct q as [|p|p]; [ reflexivity | | reflexivity ]
  end.
  destruct (Z.leb_spec (e + k1 + Z.max 0 (Z.max (Zdigits2 m' + (e + k1) - 53) (-1074) - (e + k1)))
              971) as [Hle|Hgt]; [ reflexivity | lia ].
Qed.

Lemma Zdigits2_pos_lower (m : Z) : 0 < m → 2 ^ (Zdigits2 m - 1) ≤ m.
Proof.
  intros Hm. pose proof (Zdigits2_nonneg m) as Hd.
  destruct (Z.eq_dec (Zdigits2 m) 0) as [H0|H0].
  - destruct m; simpl in H0; lia.
  - destruct (Z.le_gt_cases (2 ^ (Zdigits2 m - 1)) m) as [H|H]; [ exact H | ].
    apply Zdigits2_le in H; lia.
Qed.

Lemma Zdigits2_mul_pow2 (m k : Z) :
  0 < m → 0 ≤ k → Zdigits2 (m * 2 ^ k) = Zdigits2 m + k.
Proof.
  intros Hm Hk. pose proof (Zdigits2_nonneg m) as Hd.
  assert (Hp : 0 < 2 ^ k) by (apply Z.pow_pos_nonneg; lia).
  apply Z.le_antisymm.
  - apply Zdigits2_le; [ nia | lia | ].
    rewrite Z.pow_add_r by lia. pose proof (Zdigits2_bound m). nia.
  - destruct (Z.le_gt_cases (Zdigits2 m + k) (Zdigits2 (m * 2 ^ k))) as [H|H]; [ exact H | ].
    assert (H' : Zdigits2 (m * 2 ^ k) ≤ Zdigits2 m - 1 + k) by lia.
    assert (Hd1 : 1 ≤ Zdigits2 m) by (destruct m; simpl in *; lia).
    apply Zdigits2_le in H'; [ | nia | lia ].
    rewrite Z.pow_add_r in H' by lia.
    pose proof (Zdigits2_pos_lower m Hm). nia.
Qed.

Lemma iter_xO_pow2 (m d : positive) : Zpos (Pos.iter xO m d) = Zpos m * 2 ^ Zpos d.
Proof.
  induction d as [|d IH] using Pos.peano_ind.
  - simpl. lia.
  - rewrite Pos.iter_succ, Pos2Z.inj_xO, IH, Pos2Z.inj_succ, Z.pow_succ_r by lia. ring.
Qed.

Lemma shl_align_spec (mx : positive) (ex ex' : Z) :
  let '(mz, ez) := shl_align mx ex ex' in
  ez = Z.min ex ex' ∧ Zpos mz = Zpos mx * 2 ^ (ex - ez).
Proof.
  unfold shl_align. destruct (ex' - ex) as [|d|d] eqn:Hd.
  - split; [ lia | ]. replace (ex - ex) with 0 by lia. lia.
  - split; [ lia | ]. replace (ex - ex) with 0 by lia. lia.
  - split; [ lia | ]. rewrite iter_xO_pow2. f_equal. f_equal. lia.
Qed.

(** When no digit has to be dropped, [binary_round_aux] keeps the mantissa. *)
Lemma binary_round_aux_exact (s : bool) (m e : Z) :
  fexp prec emax (Zdigits2 m + e) ≤ e →
  binary_round_aux prec emax s m e loc_Exact
  = match m with
    | Z0 => S754_zero s
    | Zpos p => if e <=? emax - prec then S754_finite s p e else S754_infinity s
    | Zneg _ => S754_nan
    end.
Proof.
  intros Hk. unfold binary_round_aux, shr_fexp.
  assert (Hshr : ∀ mrs, shr mrs e (fexp prec emax (Zdigits2 m + e) - e) = (mrs, e)).
  { intros mrs. unfold shr.
    destruct (fexp prec emax (Zdigits2 m + e) - e) eqn:Hn; [ reflexivity | lia | reflexivity ]. }
  rewrite Hshr. simpl shr_record_of_loc. simpl loc_of_shr_record.
  simpl round_nearest_even. simpl shr_m at 1. rewrite Hshr. reflexivity.
Qed.

(** [float(z)] for an int below [2^1023] in magnitude: a zero for 0, a
    finite float of the sign of [z] otherwise. *)
Lemma binary_round_int (s : bool) (m : positive) :
  Zpos m < 2 ^ 1023 →
  ∃ p e, binary_round prec emax s m 0 = S754_finite s p e.
Proof.
  intros Hm. unfold binary_round.
  pose proof (shl_align_spec m 0 (fexp prec emax (Zpos (digits2_pos m) + 0))) as Ha.
  destruct (shl_align m 0 _) as [mz ez]. destruct Ha as [Hez Hmz].
  change (Zpos (digits2_pos m)) with (Zdigits2 (Zpos m)) in Hez.
  rewrite fexp_eq in Hez.
  assert (HD : 1 ≤ Zdigits2 (Zpos m) ≤ 1023).
  { split; [ simpl; lia | apply Zdigits2_le; lia ]. }
  assert (Hdz : Zdigits2 (Zpos mz) = Zdigits2 (Zpos m) - ez).
  { rewrite Hmz, Zdigits2_mul_pow2 by lia. lia. }
  pose proof (binary_round_aux_finite s (Zpos mz) ez loc_Exact) as Hfin.
  pose proof (binary_round_aux_sign s (Zpos mz) ez loc_Exact) as Hsign.
  destruct (binary_round_aux_anatomy s (Zpos mz) ez loc_Exact) as (m' & Hb & Heq); [ lia | ].
  cbv zeta in Heq.
  set (k1 := Z.max 0 (Z.max (Zdigits2 (Zpos mz) + ez - 53) (-1074) - ez)) in *.
  assert (Hk1 : Zdigits2 (Zpos mz) - 1 - k1 = 52) by lia.
  assert (Hlow : 2 ^ 52 ≤ Zpos mz / 2 ^ k1).
  { apply Z.div_le_lower_bound; [ apply Z.pow_pos_nonneg; lia | ].
    rewrite <- Z.pow_add_r by lia.
    replace (k1 + 52) with (Zdigits2 (Zpos mz) - 1) by lia.
    apply Zdigits2_pos_lower. lia. }
  assert (Hup : Zpos mz / 2 ^ k1 < 2 ^ 53).
  { replace 53 with (Zdigits2 (Zpos mz) - k1) by lia.
    apply div_pow2_lt; [ lia | apply Zdigits2_bound; lia ]. }
  assert (Hd' : Zdigits2 m' ≤ 54).
  { apply Zdigits2_le; lia. }
  set (k2 := Z.max 0 (Z.max (Zdigits2 m' + (ez + k1) - 53) (-1074) - (ez + k1))) in *.
  assert (Hk2 : 0 ≤ k2 ≤ 1) by lia.
  assert (Hm2 : 0 < m' / 2 ^ k2).
  { apply Z.div_str_pos. split; [ apply Z.pow_pos_nonneg; lia | ].
    assert (2 ^ k2 ≤ 2 ^ 1) by (apply Z.pow_le_mono_r; lia). lia. }
  specialize (Hfin ltac:(lia) ltac:(lia) ltac:(lia)).
  specialize (Hsign ltac:(lia)).
  rewrite Heq in *.
  destruct (m' / 2 ^ k2) as [|p|p]; [ lia | | lia ].
  destruct (_ <=? _); [ eauto | simpl in Hfin; discriminate ].
Qed.

Lemma float_of_int_total (z : Z) :
  Z.abs z < 2 ^ 1023 →
  ∃ f, float_of_int z = Ok f
       ∧ match f with
         | S754_zero s => z = 0 ∧ s = false
         | S754_finite s _ _ => z ≠ 0 ∧ s = (z <? 0)
         | _ => False
         end.
Proof.
  intros Hz. unfold float_of_int, binary_normalize. destruct z as [|m|m].
  - simpl. eexists. split; [ reflexivity | split; reflexivity ].
  - destruct (binary_round_int false m) as (p & e & ->); [ lia | ].
    simpl. eexists. split; [ reflexivity | ]. split; [ lia | reflexivity ].
  - destruct (binary_round_int true m) as (p & e & ->); [ lia | ].
    simpl. eexists. split; [ reflexivity | ]. split; [ lia | reflexivity ].
Qed.

Lemma SFdiv_core_binary_bounds (m1 e1 m2 e2 : Z) :
  0 < m1 → 0 < m2 →
  let '(q, e', _) := SFdiv_core_binary prec emax m1 e1 m2 e2 in
  0 ≤ q ∧ e' ≤ e1 - e2 ∧ Zdigits2 q + e' ≤ Zdigits2 m1 + e1 - e2.
Proof.
  intros H1 H2. unfold SFdiv_core_binary.
  set (e' := Z.min _ (e1 - e2)).
  assert (He' : e' ≤ e1 - e2) by (unfold e'; lia).
  set (m' := match e1 - e2 - e' with
             | Z0 => m1 | Zpos _ => Z.shiftl m1 (e1 - e2 - e') | Zneg _ => 0 end).
  assert (Hm' : m' = m1 * 2 ^ (e1 - e2 - e')).
  { unfold m'. destruct (e1 - e2 - e') as [|p|p] eqn:Hs.
    - simpl. lia.
    - rewrite Z.shiftl_mul_pow2 by lia. reflexivity.
    - lia. }
  pose proof (Z_div_mod m' m2 ltac:(lia)) as Hdiv.
  destruct (Z.div_eucl m' m2) as [q r]. destruct Hdiv as [Hq Hr].
  assert (Hp : 0 < 2 ^ (e1 - e2 - e')) by (apply Z.pow_pos_nonneg; lia).
  assert (Hq0 : 0 ≤ q) by nia.
  assert (Hqm : q ≤ m') by nia.
  split; [ exact Hq0 | ]. split; [ exact He' | ].
  pose proof (Zdigits2_mono q m' ltac:(lia)) as Hd.
  rewrite Hm', Zdigits2_mul_pow2 in Hd by lia. lia.
Qed.

Lemma int_truediv_total (a b : Z) :
  Z.abs a < 2 ^ 1023 → b ≠ 0 →
  ∃ f, int_truediv a b = Ok f ∧ spec.has_sign (xorb (a <? 0) (b <? 0)) f.
Proof.
  intros Ha Hb. unfold int_truediv.
  destruct (Z.eqb_spec b 0) as [|_]; [ contradiction | ].
  destruct (Z.eqb_spec a 0) as [|Ha0].
  - eexists. split; [ reflexivity | reflexivity ].
  - pose proof (SFdiv_core_binary_bounds (Z.abs a) 0 (Z.abs b) 0 ltac:(lia) ltac:(lia)) as Hc.
    destruct (SFdiv_core_binary prec emax (Z.abs a) 0 (Z.abs b) 0) as [[q e] l].
    destruct Hc as (Hq & He & Hd).
    assert (HD : Zdigits2 (Z.abs a) ≤ 1023) by (apply Zdigits2_le; lia).
    cbv zeta.
    rewrite binary_round_aux_finite by lia.
    eexists. split; [ reflexivity | apply binary_round_aux_sign, Hq ].
Qed.

(** ** Exact values *)

Lemma dyadic_pos (m e : Z) : 0 < m → (0 < dyadic m e)%Q.
Proof.
  intros Hm. unfold dyadic. apply Qmult_lt_0_compat.
  - change 0%Q with (inject_Z 0). rewrite <- Zlt_Qlt. exact Hm.
  - apply Qpower_0_lt. reflexivity.
Qed.

Lemma dyadic_neg (m e : Z) : m < 0 → (dyadic m e < 0)%Q.
Proof.
  intros Hm. pose proof (dyadic_pos (- m) e ltac:(lia)) as H.
  unfold dyadic in *. rewrite inject_Z_opp in H. lra.
Qed.

Lemma py_eq_zero_int (z : Z) : py_eq (VInt z) (VInt 0) = (z =? 0).
Proof.
  unfold py_eq. simpl. unfold num_cmp, exact, xcmp, is_eq, Qcompare. simpl.
  rewrite Z.mul_1_r. destruct z; reflexivity.
Qed.

Lemma py_eq_zero_float (f : spec_float) : py_eq (VFloat f) (VInt 0) = is_zero f.
Proof.
  destruct f as [s|s| |s m e]; try reflexivity.
  - destruct s; reflexivity.
  - unfold py_eq. simpl. unfold num_cmp, exact, exactF, xcmp, is_eq.
    destruct (Qcompare_spec (dyadic (cond_Zopp s (Zpos m)) e) (inject_Z 0)) as [H|H|H];
      try reflexivity.
    exfalso. change (inject_Z 0) with 0%Q in H. destruct s; cbn [cond_Zopp Z.opp] in H.
    + pose proof (dyadic_neg (Zneg m) e ltac:(lia)) as Hn. rewrite H in Hn.
      exact (Qlt_irrefl _ Hn).
    + pose proof (dyadic_pos (Zpos m) e ltac:(lia)) as Hp. rewrite H in Hp.
      exact (Qlt_irrefl _ Hp).
Qed.

(** ** Arithmetic on numbers of moderate size cannot overflow *)


Lemma sized_weaken (k k' : Z) (v : value) : 0 ≤ k ≤ k' → spec.sized k v → spec.sized k' v.
Proof.
  intros Hk. unfold spec.sized. destruct (as_num v) as [[z|f]|]; try tauto.
  intros Hz. eapply Z.lt_le_trans; [ exact Hz | apply Z.pow_le_mono_r; lia ].
Qed.

Lemma sized_numeric (k : Z) (v : value) : spec.sized k v → spec.numeric v.
Proof.
  unfold spec.sized, spec.numeric. destruct (as_num v) as [n|]; [ eauto | tauto ].
Qed.

Lemma to_float_total (n : num) :
  spec.sized 1023 (value_of_num n) →
  ∃ f, to_float n = Ok f
       ∧ is_zero f = py_eq (value_of_num n) (VInt 0).
Proof.
  destruct n as [z|f]; unfold spec.sized; simpl; intros Hz.
  - destruct (float_of_int_total z Hz) as (f & Hf & Hc). exists f. split; [ exact Hf | ].
    rewrite py_eq_zero_int. destruct f as [s|s| |s m e]; try contradiction.
    + destruct Hc as [-> _]. reflexivity.
    + destruct Hc as [Hz0 _]. simpl. symmetry. apply Z.eqb_neq, Hz0.
  - exists f. split; [ reflexivity | ]. symmetry. apply py_eq_zero_float.
Qed.

Lemma as_num_value_of_num (v : value) (n : num) :
  as_num v = Some n → ∀ w, py_eq v w = py_eq (value_of_num n) w.
Proof.
  intros H w. unfold py_eq. rewrite H.
  destruct n as [z|f]; simpl; destruct (as_num w); try reflexivity.
  - destruct v; try discriminate; destruct w; reflexivity.
  - destruct v; try discriminate; destruct w; reflexivity.
Qed.

Lemma sized_value_of_num (k : Z) (v : value) (n : num) :
  as_num v = Some n → spec.sized k v → spec.sized k (value_of_num n).
Proof.
  unfold spec.sized. intros ->. destruct n; simpl; tauto.
Qed.

Lemma py_truediv_total (a b : value) :
  spec.sized 1023 a → spec.sized 1023 b →
  if py_eq b (VInt 0) then py_truediv a b = Raise ZeroDivisionError
  else ∃ f, py_truediv a b = Ok (VFloat f).
Proof.
  intros Ha Hb.
  destruct (as_num a) as [x|] eqn:Hx; [ | unfold spec.sized in Ha; rewrite Hx in Ha; tauto ].
  destruct (as_num b) as [y|] eqn:Hy; [ | unfold spec.sized in Hb; rewrite Hy in Hb; tauto ].
  rewrite (as_num_value_of_num b y Hy).
  pose proof (sized_value_of_num _ _ _ Hx Ha) as Ha'.
  pose proof (sized_value_of_num _ _ _ Hy Hb) as Hb'.
  unfold py_truediv, num_arith. rewrite Hx, Hy.
  destruct (to_float_total x Ha') as (fx & Hfx & _).
  destruct (to_float_total y Hb') as (fy & Hfy & Hzy).
  destruct x as [x|x], y as [y|y].
  - simpl value_of_num. rewrite py_eq_zero_int.
    destruct (Z.eqb_spec y 0) as [->|Hy0]; [ reflexivity | ].
    destruct (int_truediv_total x y Ha' Hy0) as (f & Hf & _).
    rewrite Hf. eexists. reflexivity.
  - rewrite Hfx, Hfy. cbn [bind]. unfold float_truediv. rewrite Hzy.
    destruct (py_eq _ _); [ reflexivity | eexists; reflexivity ].
  - rewrite Hfx, Hfy. cbn [bind]. unfold float_truediv. rewrite Hzy.
    destruct (py_eq _ _); [ reflexivity | eexists; reflexivity ].
  - rewrite Hfx, Hfy. cbn [bind]. unfold float_truediv. rewrite Hzy.
    destruct (py_eq _ _); [ reflexivity | eexists; reflexivity ].
Qed.

Lemma py_sub_total (a b : value) :
  spec.sized 1000 a → spec.sized 1000 b → ∃ v, py_sub a b = Ok v ∧ spec.sized 1001 v.
Proof.
  intros Ha Hb.
  destruct (as_num a) as [x|] eqn:Hx; [ | unfold spec.sized in Ha; rewrite Hx in Ha; tauto ].
  destruct (as_num b) as [y|] eqn:Hy; [ | unfold spec.sized in Hb; rewrite Hy in Hb; tauto ].
  pose proof (sized_value_of_num _ _ _ Hx Ha) as Ha'.
  pose proof (sized_value_of_num _ _ _ Hy Hb) as Hb'.
  unfold py_sub, num_arith. rewrite Hx, Hy.
  destruct (to_float_total x (sized_weaken 1000 1023 _ ltac:(lia) Ha')) as (fx & Hfx & _).
  destruct (to_float_total y (sized_weaken 1000 1023 _ ltac:(lia) Hb')) as (fy & Hfy & _).
  destruct x as [x|x], y as [y|y]; try (rewrite Hfx, Hfy; eexists; split; [ reflexivity | exact I ]).
  eexists. split; [ reflexivity | ]. unfold spec.sized in *. simpl in *.
  replace (2 ^ 1001) with (2 * 2 ^ 1000) by reflexivity. lia.
Qed.

Lemma py_mul_float_int (f : spec_float) (z : Z) (fz : spec_float) :
  float_of_int z = Ok fz → py_mul (VFloat f) (VInt z) = Ok (VFloat (SF64mul f fz)).
Proof. intros H. unfold py_mul, num_arith. simpl. rewrite H. reflexivity. Qed.

Lemma py_round_total (v : value) (nd : Z) :
  spec.numeric v → ∃ r, py_round v nd = Ok r.
Proof.
  intros [n Hn]. unfold py_round. rewrite Hn. destruct n; eauto.
Qed.

Lemma gt_zero_nonzero (v : value) :
  py_gt v (VInt 0) = Ok true → py_eq v (VInt 0) = false.
Proof.
  unfold py_gt, py_compare, py_eq. destruct (as_num v) as [n|]; simpl.
  - destruct (num_cmp n (NInt 0)) as [[]|]; simpl; intros [= ]; reflexivity.
  - destruct v; intros [= ].
Qed.

Lemma py_mul_100 (f : spec_float) :
  py_mul (VFloat f) (VInt 100) = Ok (VFloat (SF64mul f (fl 100))).
Proof. apply py_mul_float_int. reflexivity. Qed.

Lemma py_mul_365 (f : spec_float) :
  py_mul (VFloat f) (VInt 365) = Ok (VFloat (SF64mul f (fl 365))).
Proof. apply py_mul_float_int. reflexivity. Qed.

(** ** Breakeven (claim C6) *)

(** C6, as the code has it.  For a numeric stock price and premium (ints
    below [2^1000] in magnitude): when the stock price equals zero
    [calculate_breakeven] fails, with null results and the division error;
    for every other stock price, negative ones included, it returns
    [stock_price - premium] and [premium / stock_price * 100], each rounded
    to two places, and no error. *)
Theorem breakeven_fails_at_zero_only (stock_price premium : value) :
  spec.sized 1000 stock_price → spec.sized 1000 premium →
  if py_eq stock_price (VInt 0) then
    calculate_breakeven stock_price premium
    = {| breakeven_price := None; downside_protection_percent := None;
         breakeven_error := Some ZeroDivisionError |}
  else
    ∃ diff q pct b d,
      py_sub stock_price premium = Ok diff
      ∧ py_truediv premium stock_price = Ok q
      ∧ py_mul q (VInt 100) = Ok pct
      ∧ py_round diff 2 = Ok b
      ∧ py_round pct 2 = Ok d
      ∧ calculate_breakeven stock_price premium
        = {| breakeven_price := Some b; downside_protection_percent := Some d;
             breakeven_error := None |}.
Proof.
  intros Hs Hp.
  destruct (py_sub_total stock_price premium Hs Hp) as (diff & Hdiff & Hsd).
  pose proof (py_truediv_total premium stock_price
                (sized_weaken 1000 1023 _ ltac:(lia) Hp)
                (sized_weaken 1000 1023 _ ltac:(lia) Hs)) as Hq.
  unfold calculate_breakeven. rewrite Hdiff. cbn [bind].
  destruct (py_eq stock_price (VInt 0)).
  - rewrite Hq. reflexivity.
  - destruct Hq as [f Hq]. rewrite Hq. cbn [bind]. rewrite py_mul_100. cbn [bind].
    destruct (py_round_total diff 2 (sized_numeric _ _ Hsd)) as [b Hb].
    destruct (py_round_total (VFloat (SF64mul f (fl 100))) 2) as [d Hd];
      [ eexists; reflexivity | ].
    rewrite Hb, Hd. cbn [bind].
    exists diff, (VFloat f), (VFloat (SF64mul f (fl 100))), b, d.
    repeat split; try assumption; apply py_mul_100.
Qed.

Lemma breakeven_fails_at_zero_only_witness :
  ∃ b d,
    calculate_breakeven (VInt 100) (VInt 3)
    = {| breakeven_price := Some b; downside_protection_percent := Some d;
         breakeven_error := None |}
    ∧ b = VInt 97 ∧ d = VFloat (fl 3).
Proof.
  pose proof (breakeven_fails_at_zero_only (VInt 100) (VInt 3)) as H.
  assert (H1 : spec.sized 1000 (VInt 100)) by (vm_compute; reflexivity).
  assert (H2 : spec.sized 1000 (VInt 3)) by (vm_compute; reflexivity).
  specialize (H H1 H2). cbv beta iota in H.
  change (py_eq (VInt 100) (VInt 0)) with false in H. cbv iota in H.
  destruct H as (diff & q & pct & b & d & _ & _ & _ & _ & _ & H).
  exists b, d. split; [ exact H | ].
  vm_compute in H. injection H as <- <-. split; reflexivity.
Defined.

(** The claim as stated fails: a negative stock price is at most zero, and
    [calculate_breakeven] returns results and no error for it. *)
Lemma breakeven_negative_price_succeeds :
  py_le (VFloat (fl (-100))) (VInt 0) = Ok true
  ∧ calculate_breakeven (VFloat (fl (-100))) (VFloat (fl 3))
    = {| breakeven_price := Some (VFloat (fl (-103)));
         downside_protection_percent := Some (VFloat (fl (-3)));
         breakeven_error := None |}.
Proof. split; vm_compute; reflexivity. Qed.

(** ** Option metrics (claims C4 and C7) *)

Lemma py_compare_sized test (a b : value) (j k : Z) :
  spec.sized j a → spec.sized k b → ∃ c, py_compare test a b = Ok c.
Proof.
  intros Ha Hb. apply py_compare_numeric; eapply sized_numeric; eassumption.
Qed.

Lemma sized_int (k z : Z) : Z.abs z < 2 ^ k → spec.sized k (VInt z).
Proof. intros H. exact H. Qed.

Lemma sized_float (k : Z) (f : spec_float) : spec.sized k (VFloat f).
Proof. exact I. Qed.

(** [calculate_option_metrics] on a record that carries its four required
    fields, with numbers of moderate size in the numeric ones, and a
    non-zero stock price of moderate size: the body of the [try] block runs
    to its end, and the metrics are the formulas of the source. *)
Lemma option_metrics_total (opt : gmap string value) (stock_price s b d e : value) :
  opt !! "strike" = Some s → opt !! "bid" = Some b →
  opt !! "days_to_expiry" = Some d → opt !! "expiration" = Some e →
  spec.sized 1000 s → spec.sized 1000 b → spec.sized 1000 d →
  spec.sized 1000 stock_price → py_eq stock_price (VInt 0) = false →
  ∃ m,
    option_metrics_try opt stock_price = Ok m
    ∧ m_strike m = s ∧ m_premium m = b ∧ m_days_to_expiry m = d
    ∧ m_expiration m = e
    ∧ (py_gt s (VInt 0) = Ok true →
       spec.premium_yield b s = Ok (m_premium_yield m))
    ∧ (py_gt s (VInt 0) = Ok true → py_gt d (VInt 0) = Ok true →
       spec.annualized_return b s d = Ok (m_annualized_return m))
    ∧ (py_gt d (VInt 0) = Ok false → m_annualized_return m = VInt 0)
    ∧ py_lt s stock_price = Ok (m_is_itm m)
    ∧ spec.moneyness s stock_price = Ok (m_moneyness m).
Proof.
  intros Hs Hb Hd He Ss Sb Sd Sp Hnz.
  assert (S0 : spec.sized 1000 (VInt 0)) by (vm_compute; reflexivity).
  assert (W : ∀ v, spec.sized 1000 v → spec.sized 1023 v).
  { intros v. apply sized_weaken. lia. }
  unfold option_metrics_try, item. rewrite Hs, Hb, Hd, He. cbn [bind].
  (* premium yield *)
  destruct (py_compare_sized is_gt s (VInt 0) _ _ Ss S0) as [cs Hcs].
  unfold spec.premium_yield, spec.annualized_return, spec.moneyness.
  fold (py_gt s (VInt 0)) in Hcs. rewrite Hcs. cbn [bind].
  assert (Hy : ∃ y, (if cs then bind (py_truediv b s) (λ q, py_mul q (VInt 100))
                     else Ok (VInt 0)) = Ok y
                    ∧ spec.sized 1000 y
                    ∧ (cs = true →
                       ∃ f, py_truediv b s = Ok (VFloat f)
                            ∧ y = VFloat (SF64mul f (fl 100)))
                    ∧ (cs = false → y = VInt 0)).
  { destruct cs.
    - pose proof (py_truediv_total b s (W _ Sb) (W _ Ss)) as Hq.
      rewrite (gt_zero_nonzero s Hcs) in Hq. destruct Hq as [f Hq].
      rewrite Hq. cbn [bind]. rewrite py_mul_100. eexists.
      split; [ reflexivity | ]. split; [ exact I | ].
      split; [ intros _; eauto | discriminate ].
    - eexists. split; [ reflexivity | ]. split; [ exact S0 | ].
      split; [ discriminate | reflexivity ]. }
  destruct Hy as (y & Hy & Sy & Hyt & Hyf). rewrite Hy. cbn [bind].
  (* annualized return *)
  destruct (py_compare_sized is_gt d (VInt 0) _ _ Sd S0) as [cd Hcd].
  fold (py_gt d (VInt 0)) in Hcd. rewrite Hcd. cbn [bind].
  assert (Ha : ∃ a, (if cd then bind (py_truediv y d) (λ q, py_mul q (VInt 365))
                     else Ok (VInt 0)) = Ok a
                    ∧ spec.numeric a
                    ∧ (cd = true →
                       ∃ f, py_truediv y d = Ok (VFloat f)
                            ∧ a = VFloat (SF64mul f (fl 365)))
                    ∧ (cd = false → a = VInt 0)).
  { destruct cd.
    - pose proof (py_truediv_total y d (W _ Sy) (W _ Sd)) as Hq.
      rewrite (gt_zero_nonzero d Hcd) in Hq. destruct Hq as [f Hq].
      rewrite Hq. cbn [bind]. rewrite py_mul_365. eexists.
      split; [ reflexivity | ]. split; [ eexists; reflexivity | ].
      split; [ intros _; eauto | discriminate ].
    - eexists. split; [ reflexivity | ]. split; [ eexists; reflexivity | ].
      split; [ discriminate | reflexivity ]. }
  destruct Ha as (a & Ha & Na & Hat & Haf). rewrite Ha. cbn [bind].
  (* moneyness *)
  destruct (py_compare_sized is_lt s stock_price _ _ Ss Sp) as [itm Hitm].
  fold (py_lt s stock_price) in Hitm. rewrite Hitm. cbn [bind].
  destruct (py_sub_total s stock_price Ss Sp) as (diff & Hdiff & Sdiff).
  rewrite Hdiff. cbn [bind].
  pose proof (py_truediv_total diff stock_price
                (sized_weaken 1001 1023 _ ltac:(lia) Sdiff) (W _ Sp)) as Hq.
  rewrite Hnz in Hq. destruct Hq as [fq Hq]. rewrite Hq. cbn [bind].
  rewrite py_mul_100. cbn [bind].
  (* rounding *)
  destruct (py_round_total y 4 (sized_numeric _ _ Sy)) as [yr Hyr].
  destruct (py_round_total a 2 Na) as [ar Har].
  destruct (py_round_total (VFloat (SF64mul fq (fl 100))) 2) as [mr Hmr];
    [ eexists; reflexivity | ].
  rewrite Hyr, Har, Hmr. cbn [bind].
  eexists. split; [ reflexivity | ].
  cbn [m_strike m_premium m_days_to_expiry m_expiration m_premium_yield
       m_annualized_return m_is_itm m_moneyness].
  repeat (split; [ reflexivity | ]).
  split; [ | split; [ | split; [ | split; [ reflexivity | first [ exact Hmr | reflexivity ] ] ] ] ].
  - intros Hc. injection Hc as ->. destruct (Hyt eq_refl) as (f & Hf & ->).
    rewrite Hf. cbn [bind]. rewrite py_mul_100. cbn [bind]. exact Hyr.
  - intros Hc Hc'. injection Hc as ->. injection Hc' as ->.
    destruct (Hyt eq_refl) as (f & Hf & ->). rewrite Hf. cbn [bind].
    rewrite py_mul_100. cbn [bind].
    destruct (Hat eq_refl) as (g & Hg & ->). rewrite Hg. cbn [bind].
    rewrite py_mul_365. cbn [bind]. exact Har.
  - intros Hc. injection Hc as ->. rewrite (Haf eq_refl) in Har.
    injection Har as <-. reflexivity.
Qed.

Lemma eq_zero_not_gt (v : value) :
  spec.numeric v → py_eq v (VInt 0) = true → py_gt v (VInt 0) = Ok false.
Proof.
  intros [n Hn]. unfold py_gt, py_compare, py_eq. rewrite Hn. simpl.
  destruct (num_cmp n (NInt 0)) as [[]|]; simpl; intros [= ]; reflexivity.
Qed.

(** C4, as the code has it.  For an option record with its four required
    fields, numbers of moderate size in [strike], [bid] and
    [days_to_expiry], [strike > 0], and a non-zero stock price of moderate
    size, [calculate_option_metrics] returns metrics with
    [premium_yield = bid/strike*100] rounded to 4 places,
    [is_itm = (strike < stock_price)],
    [moneyness = (strike - stock_price)/stock_price*100] rounded to 2
    places, [annualized_return = (bid/strike*100)/days_to_expiry*365]
    rounded to 2 places when [days_to_expiry > 0], and
    [annualized_return = 0] when [days_to_expiry = 0]. *)
Theorem option_metrics_formulas (opt : gmap string value) (stock_price s b d e : value) :
  opt !! "strike" = Some s → opt !! "bid" = Some b →
  opt !! "days_to_expiry" = Some d → opt !! "expiration" = Some e →
  spec.sized 1000 s → spec.sized 1000 b → spec.sized 1000 d →
  spec.sized 1000 stock_price →
  py_gt s (VInt 0) = Ok true → py_eq stock_price (VInt 0) = false →
  ∃ m,
    calculate_option_metrics opt stock_price = Metrics m
    ∧ spec.premium_yield b s = Ok (m_premium_yield m)
    ∧ (py_gt d (VInt 0) = Ok true →
       spec.annualized_return b s d = Ok (m_annualized_return m))
    ∧ (py_eq d (VInt 0) = true → m_annualized_return m = VInt 0)
    ∧ py_lt s stock_price = Ok (m_is_itm m)
    ∧ spec.moneyness s stock_price = Ok (m_moneyness m).
Proof.
  intros Hs Hb Hd He Ss Sb Sd Sp Hpos Hnz.
  destruct (option_metrics_total opt stock_price s b d e Hs Hb Hd He Ss Sb Sd Sp Hnz)
    as (m & Hm & _ & _ & _ & _ & Hy & Ha & Ha0 & Hitm & Hmon).
  exists m. unfold calculate_option_metrics. rewrite Hm.
  split; [ reflexivity | ]. split; [ exact (Hy Hpos) | ].
  split; [ exact (Ha Hpos) | ]. split; [ | split; assumption ].
  intros Hz. apply Ha0, eq_zero_not_gt; [ eapply sized_numeric, Sd | exact Hz ].
Qed.

Lemma option_metrics_formulas_witness :
  ∃ m,
    calculate_option_metrics examples.call_103 (VFloat (fl 100)) = Metrics m
    ∧ m_premium_yield m = VFloat (fl 1.165)
    ∧ m_annualized_return m = VFloat (fl 9.45)
    ∧ m_is_itm m = false
    ∧ m_moneyness m = VFloat (fl 3).
Proof.
  destruct (option_metrics_formulas examples.call_103 (VFloat (fl 100))
              (VFloat (fl 103)) (VFloat (fl 1.2)) (VInt 45) (VStr "2025-02-15"))
    as (m & Hm & _); try reflexivity.
  exists m. split; [ exact Hm | ].
  vm_compute in Hm. injection Hm as <-. repeat split.
Defined.

(** The claim as stated fails at a stock price of zero: the division in
    [moneyness] raises, and the function returns the error dictionary for a
    record with a positive strike and positive days to expiry. *)
Lemma option_metrics_zero_price_fails :
  py_gt (VFloat (fl 103)) (VInt 0) = Ok true
  ∧ py_gt (VInt 45) (VInt 0) = Ok true
  ∧ calculate_option_metrics examples.call_103 (VFloat (fl 0))
    = MetricsError ZeroDivisionError.
Proof. repeat split; vm_compute; reflexivity. Qed.

Lemma sized_dec (k : Z) (v : value) : {spec.sized k v} + {¬ spec.sized k v}.
Proof.
  unfold spec.sized. destruct (as_num v) as [[z|f]|].
  - apply Z_lt_dec.
  - left. exact I.
  - right. tauto.
Qed.

(** C7, as the code has it.  [calculate_option_metrics] succeeds for every
    record whose required fields are present, with numbers of moderate
    size in [strike], [bid] and [days_to_expiry], and every non-zero stock
    price of moderate size.  It returns the error dictionary only when a
    required field is missing, or one of [strike], [bid],
    [days_to_expiry] or the stock price is not a number (or is an int of
    [2^1000] or more), or the stock price is zero. *)
Theorem option_metrics_failures (opt : gmap string value) (stock_price : value) :
  (∀ s b d e,
     opt !! "strike" = Some s → opt !! "bid" = Some b →
     opt !! "days_to_expiry" = Some d → opt !! "expiration" = Some e →
     spec.sized 1000 s → spec.sized 1000 b → spec.sized 1000 d →
     spec.sized 1000 stock_price → py_eq stock_price (VInt 0) = false →
     ∃ m, calculate_option_metrics opt stock_price = Metrics m)
  ∧ (∀ err,
       calculate_option_metrics opt stock_price = MetricsError err →
       opt !! "strike" = None ∨ opt !! "bid" = None
       ∨ opt !! "days_to_expiry" = None ∨ opt !! "expiration" = None
       ∨ spec.unusable opt "strike" ∨ spec.unusable opt "bid"
       ∨ spec.unusable opt "days_to_expiry"
       ∨ ¬ spec.sized 1000 stock_price
       ∨ py_eq stock_price (VInt 0) = true).
Proof.
  assert (Hok : ∀ s b d e,
     opt !! "strike" = Some s → opt !! "bid" = Some b →
     opt !! "days_to_expiry" = Some d → opt !! "expiration" = Some e →
     spec.sized 1000 s → spec.sized 1000 b → spec.sized 1000 d →
     spec.sized 1000 stock_price → py_eq stock_price (VInt 0) = false →
     ∃ m, calculate_option_metrics opt stock_price = Metrics m).
  { intros s b d e Hs Hb Hd He Ss Sb Sd Sp Hnz.
    destruct (option_metrics_total opt stock_price s b d e Hs Hb Hd He Ss Sb Sd Sp Hnz)
      as (m & Hm & _).
    exists m. unfold calculate_option_metrics. rewrite Hm. reflexivity. }
  split; [ exact Hok | ].
  intros err Herr.
  destruct (opt !! "strike") as [s|] eqn:Hs; [ | auto ].
  destruct (opt !! "bid") as [b|] eqn:Hb; [ | auto ].
  destruct (opt !! "days_to_expiry") as [d|] eqn:Hd; [ | auto ].
  destruct (opt !! "expiration") as [e|] eqn:He; [ | auto 6 ].
  destruct (sized_dec 1000 s) as [Ss|Ss];
    [ | right; right; right; right; left; exists s; auto ].
  destruct (sized_dec 1000 b) as [Sb|Sb];
    [ | right; right; right; right; right; left; exists b; auto ].
  destruct (sized_dec 1000 d) as [Sd|Sd];
    [ | right; right; right; right; right; right; left; exists d; auto ].
  destruct (sized_dec 1000 stock_price) as [Sp|Sp]; [ | auto 10 ].
  destruct (py_eq stock_price (VInt 0)) eqn:Hnz; [ auto 10 | ].
  destruct (Hok s b d e eq_refl eq_refl eq_refl eq_refl Ss Sb Sd Sp eq_refl) as [m Hm].
  congruence.
Qed.

Lemma option_metrics_failures_witness :
  ∃ m, calculate_option_metrics examples.call_150 (VInt 148) = Metrics m
       ∧ m_strike m = VInt 150.
Proof.
  destruct (proj1 (option_metrics_failures examples.call_150 (VInt 148))
              (VInt 150) (VFloat (fl 2.0)) (VInt 30) (VStr "2025-02-15"))
    as [m Hm]; try reflexivity.
  exists m. split; [ exact Hm | ].
  vm_compute in Hm. injection Hm as <-. reflexivity.
Defined.

(** The claim as stated fails: every required field of the record is
    present and numeric, and at the stock price 0 the function returns the
    error dictionary. *)
Lemma option_metrics_numeric_record_fails :
  spec.numeric (VInt 150) ∧ spec.numeric (VFloat (fl 2.0)) ∧ spec.numeric (VInt 30)
  ∧ spec.numeric (VInt 0)
  ∧ calculate_option_metrics examples.call_150 (VInt 0)
    = MetricsError ZeroDivisionError.
Proof. repeat split; try (eexists; reflexivity). Qed.

(** * Further properties of the code *)

Import quotes.

(** ** The order of exact values *)

Lemma xcmp_flip (a b : xreal) : is_gt (xcmp a b) = is_lt (xcmp b a).
Proof.
  destruct a as [| |p|], b as [| |q|]; try reflexivity. simpl.
  rewrite <- (Qcompare_antisym p q). destruct (p ?= q)%Q; reflexivity.
Qed.

Lemma xcmp_not_gt (a b : xreal) :
  a ≠ XNaN → b ≠ XNaN → is_gt (xcmp a b) = false → is_le (xcmp a b) = true.
Proof.
  intros Ha Hb. destruct a as [| |p|], b as [| |q|]; simpl; try congruence.
  destruct (p ?= q)%Q; congruence.
Qed.

Lemma xcmp_le_lt_trans (a b c : xreal) :
  is_le (xcmp a b) = true → is_lt (xcmp b c) = true → is_lt (xcmp a c) = true.
Proof.
  destruct a as [| |p|], b as [| |q|], c as [| |r|]; simpl; try congruence; try reflexivity.
  destruct (Qcompare_spec p q) as [H1|H1|H1]; try congruence;
    destruct (Qcompare_spec q r) as [H2|H2|H2]; try congruence; intros _ _.
  - assert (H : (p < r)%Q) by (rewrite H1; exact H2).
    rewrite Qlt_alt in H. rewrite H. reflexivity.
  - assert (H : (p < r)%Q) by (eapply Qlt_trans; eassumption).
    rewrite Qlt_alt in H. rewrite H. reflexivity.
Qed.

Lemma xcmp_lt_le (a b : xreal) : is_lt (xcmp a b) = true → is_le (xcmp a b) = true.
Proof. destruct (xcmp a b) as [[]|]; simpl; congruence. Qed.

Lemma xcmp_le_antisym (a b : xreal) :
  is_le (xcmp a b) = true → is_le (xcmp b a) = true → is_eq (xcmp a b) = true.
Proof.
  destruct a as [| |p|], b as [| |q|]; simpl; try congruence.
  rewrite <- (Qcompare_antisym p q). destruct (p ?= q)%Q; simpl; congruence.
Qed.

Lemma xcmp_refl (a : xreal) : a ≠ XNaN → is_le (xcmp a a) = true.
Proof.
  intros Ha. destruct a as [| |p|]; simpl; try congruence.
  rewrite (proj1 (Qeq_alt p p)); reflexivity.
Qed.

(** ** Signs of the results of float arithmetic *)

(** [float(z)] of a non-zero int is a finite float or an infinity, of the
    sign of [z]. *)
Lemma binary_round_int_shape (s : bool) (m : positive) :
  match binary_round prec emax s m 0 with
  | S754_finite t _ _ | S754_infinity t => t = s
  | _ => False
  end.
Proof.
  unfold binary_round.
  pose proof (shl_align_spec m 0 (fexp prec emax (Zpos (digits2_pos m) + 0))) as Ha.
  destruct (shl_align m 0 _) as [mz ez]. destruct Ha as [Hez Hmz].
  change (Zpos (digits2_pos m)) with (Zdigits2 (Zpos m)) in Hez.
  rewrite fexp_eq in Hez.
  assert (HD : 1 ≤ Zdigits2 (Zpos m)) by (simpl; lia).
  assert (Hdz : Zdigits2 (Zpos mz) = Zdigits2 (Zpos m) - ez).
  { rewrite Hmz, Zdigits2_mul_pow2 by lia. lia. }
  destruct (binary_round_aux_anatomy s (Zpos mz) ez loc_Exact) as (m' & Hb & Heq); [ lia | ].
  cbv zeta in Heq.
  set (k1 := Z.max 0 (Z.max (Zdigits2 (Zpos mz) + ez - 53) (-1074) - ez)) in *.
  assert (Hk1 : Zdigits2 (Zpos mz) - 1 - k1 = 52) by lia.
  assert (Hlow : 2 ^ 52 ≤ Zpos mz / 2 ^ k1).
  { apply Z.div_le_lower_bound; [ apply Z.pow_pos_nonneg; lia | ].
    rewrite <- Z.pow_add_r by lia.
    replace (k1 + 52) with (Zdigits2 (Zpos mz) - 1) by lia.
    apply Zdigits2_pos_lower. lia. }
  assert (Hup : Zpos mz / 2 ^ k1 < 2 ^ 53).
  { replace 53 with (Zdigits2 (Zpos mz) - k1) by lia.
    apply div_pow2_lt; [ lia | apply Zdigits2_bound; lia ]. }
  assert (Hd' : Zdigits2 m' ≤ 54) by (apply Zdigits2_le; lia).
  set (k2 := Z.max 0 (Z.max (Zdigits2 m' + (ez + k1) - 53) (-1074) - (ez + k1))) in *.
  assert (Hk2 : 0 ≤ k2 ≤ 1) by lia.
  assert (Hm2 : 0 < m' / 2 ^ k2).
  { apply Z.div_str_pos. split; [ apply Z.pow_pos_nonneg; lia | ].
    assert (2 ^ k2 ≤ 2 ^ 1) by (apply Z.pow_le_mono_r; lia). lia. }
  rewrite Heq.
  destruct (m' / 2 ^ k2) as [|p|p]; [ lia | | lia ].
  destruct (_ <=? _); reflexivity.
Qed.

Lemma float_of_int_shape (z : Z) (f : spec_float) :
  float_of_int z = Ok f →
  match f with
  | S754_zero s => z = 0 ∧ s = false
  | S754_finite s _ _ => z ≠ 0 ∧ s = (z <? 0)
  | _ => False
  end.
Proof.
  unfold float_of_int, binary_normalize. destruct z as [|m|m].
  - simpl. intros [= <-]. split; reflexivity.
  - pose proof (binary_round_int_shape false m) as H.
    destruct (binary_round prec emax false m 0) as [s|s| |s p e]; simpl;
      try contradiction; intros [= <-]. split; [ lia | exact H ].
  - pose proof (binary_round_int_shape true m) as H.
    destruct (binary_round prec emax true m 0) as [s|s| |s p e]; simpl;
      try contradiction; intros [= <-]. split; [ lia | exact H ].
Qed.

Lemma int_truediv_sign (a b : Z) (f : spec_float) :
  int_truediv a b = Ok f → spec.has_sign (xorb (a <? 0) (b <? 0)) f.
Proof.
  unfold int_truediv.
  destruct (Z.eqb_spec b 0) as [|Hb]; [ discriminate | ].
  destruct (Z.eqb_spec a 0) as [|Ha]; [ intros [= <-]; reflexivity | ].
  pose proof (SFdiv_core_binary_bounds (Z.abs a) 0 (Z.abs b) 0 ltac:(lia) ltac:(lia)) as Hc.
  destruct (SFdiv_core_binary prec emax (Z.abs a) 0 (Z.abs b) 0) as [[q e] l].
  destruct Hc as (Hq & _). cbv zeta.
  destruct (is_infinity _); [ discriminate | ]. intros [= <-].
  apply binary_round_aux_sign, Hq.
Qed.

Lemma has_sign_nonneg (f : spec_float) : spec.has_sign false f → nonneg_float f.
Proof. destruct f as [s|s| |s m e]; simpl; intros H; subst; tauto. Qed.

Lemma SF64div_nonneg (x y : spec_float) :
  (nonneg_finite x ∧ positive_float y) ∨ (nonneg_float x ∧ positive_finite y) →
  nonneg_float (SF64div x y).
Proof.
  intros H.
  destruct x as [sx|[]| |[] mx ex], y as [sy|[]| |[] my ey]; simpl in H;
    try tauto; try exact I.
  unfold SF64div, SFdiv.
  pose proof (SFdiv_core_binary_bounds (Zpos mx) ex (Zpos my) ey ltac:(lia) ltac:(lia)) as Hc.
  destruct (SFdiv_core_binary prec emax (Zpos mx) ex (Zpos my) ey) as [[q e] l].
  destruct Hc as (Hq & _).
  apply has_sign_nonneg. apply (binary_round_aux_sign false q e l Hq).
Qed.

Lemma SF64mul_nonneg (x y : spec_float) :
  nonneg_float x → positive_finite y → nonneg_float (SF64mul x y).
Proof.
  intros Hx Hy.
  destruct x as [sx|[]| |[] mx ex], y as [sy|[]| |[] my ey]; simpl in Hx, Hy;
    try tauto; try exact I.
  unfold SF64mul, SFmul. apply has_sign_nonneg.
  apply (binary_round_aux_sign false (Zpos (mx * my)) (ex + ey) loc_Exact). lia.
Qed.

Lemma div_half_even_nonneg (n d : Z) : 0 ≤ n → 0 < d → 0 ≤ div_half_even n d.
Proof.
  intros Hn Hd. unfold div_half_even.
  pose proof (Z_div_mod n d ltac:(lia)) as H.
  destruct (Z.div_eucl n d) as [k r]. destruct H as [Hk Hr].
  assert (0 ≤ k) by nia.
  destruct (2 * r ?= d); [ destruct (Z.even k) | | ]; lia.
Qed.

Lemma round_float_nonneg (f : spec_float) (nd : Z) :
  0 ≤ nd → nonneg_float f → nonneg_float (round_float f nd).
Proof.
  intros Hnd Hf. destruct f as [s|[]| |[] m e]; simpl in Hf; try tauto; try exact I.
  unfold round_float. destruct (Z.leb_spec 0 e) as [He|He]; [ exact I | ].
  pose proof (div_half_even_nonneg (Zpos m * 10 ^ nd) (2 ^ (- e))) as Hq.
  assert (H10 : 0 < 10 ^ nd) by (apply Z.pow_pos_nonneg; lia).
  assert (H2 : 0 < 2 ^ (- e)) by (apply Z.pow_pos_nonneg; lia).
  specialize (Hq ltac:(nia) H2).
  destruct (Z.eqb_spec (div_half_even (Zpos m * 10 ^ nd) (2 ^ (- e))) 0); [ exact I | ].
  pose proof (SFdiv_core_binary_bounds (div_half_even (Zpos m * 10 ^ nd) (2 ^ (- e))) 0
                (10 ^ nd) 0 ltac:(lia) H10) as Hc.
  destruct (SFdiv_core_binary prec emax _ 0 (10 ^ nd) 0) as [[q e'] l].
  destruct Hc as (Hq' & _).
  apply has_sign_nonneg. apply (binary_round_aux_sign false q e' l Hq').
Qed.

Lemma num_arith_inv on_int on_float (a b v : value) :
  num_arith on_int on_float a b = Ok v →
  ∃ x y, as_num a = Some x ∧ as_num b = Some y
    ∧ ((∃ p q n, x = NInt p ∧ y = NInt q ∧ on_int p q = Ok n ∧ v = value_of_num n)
       ∨ (∃ fx fy f, to_float x = Ok fx ∧ to_float y = Ok fy
                     ∧ on_float fx fy = Ok f ∧ v = VFloat f)).
Proof.
  unfold num_arith.
  destruct (as_num a) as [x|]; [ | discriminate ].
  destruct (as_num b) as [y|]; [ | destruct x; discriminate ].
  intros H. exists x, y. split; [ reflexivity | ]. split; [ reflexivity | ].
  destruct x as [p|fx], y as [q|fy].
  - left. unfold map in H. inv_bind H. injection H as <-. eauto 10.
  - right. inv_bind H. inv_bind H. unfold map in H. inv_bind H. injection H as <-.
    eauto 10.
  - right. inv_bind H. inv_bind H. unfold map in H. inv_bind H. injection H as <-.
    eauto 10.
  - right. inv_bind H. inv_bind H. unfold map in H. inv_bind H. injection H as <-.
    eauto 10.
Qed.

Lemma int_gt_zero (z : Z) : is_gt (num_cmp (NInt z) (NInt 0)) = true → 0 < z.
Proof.
  unfold num_cmp, exact, xcmp, is_gt, Qcompare. simpl. rewrite Z.mul_1_r.
  change (0 * 1) with 0. destruct (Z.compare_spec z 0); try discriminate. lia.
Qed.

Lemma gt_zero_positive (n : num) (f : spec_float) :
  is_gt (num_cmp n (NInt 0)) = true → to_float n = Ok f → positive_float f.
Proof.
  destruct n as [z|g]; simpl.
  - intros Hz Hf. apply int_gt_zero in Hz. apply float_of_int_shape in Hf.
    destruct f as [s|s| |s m e]; try tauto.
    + lia.
    + destruct Hf as [_ ->]. destruct (Z.ltb_spec z 0); [ lia | exact I ].
  - intros Hg [= <-]. unfold num_cmp, exact, exactF, xcmp in Hg.
    destruct g as [s|[]| |[] m e]; simpl in Hg; try discriminate; try exact I.
    exfalso. change (inject_Z 0) with 0%Q in Hg.
    pose proof (dyadic_neg (Zneg m) e ltac:(lia)) as Hn.
    change (- Z.pos m) with (Z.neg m) in Hg.
    rewrite Qlt_alt in Hn. rewrite Hn in Hg. discriminate.
Qed.

Lemma nonneg_to_float (n : num) (f : spec_float) :
  match n with NInt z => 0 ≤ z | NFloat g => nonneg_finite g end →
  to_float n = Ok f → nonneg_finite f.
Proof.
  destruct n as [z|g]; simpl.
  - intros Hz Hf. apply float_of_int_shape in Hf.
    destruct f as [s|s| |s m e]; simpl; try tauto.
    destruct Hf as [_ ->]. destruct (Z.ltb_spec z 0); [ lia | exact I ].
  - intros Hg [= <-]. exact Hg.
Qed.

Lemma nonneg_finite_float (f : spec_float) : nonneg_finite f → nonneg_float f.
Proof. destruct f as [s|[]| |[] m e]; simpl; tauto. Qed.

Lemma positive_finite_100 : positive_finite (fl 100).
Proof. exact I. Qed.

Lemma positive_finite_365 : positive_finite (fl 365).
Proof. exact I. Qed.

Lemma mul_const_nonneg (f c : spec_float) (z : Z) (v : value) :
  float_of_int z = Ok c → positive_finite c → nonneg_float f →
  py_mul (VFloat f) (VInt z) = Ok v → nonneg_value v.
Proof.
  intros Hc Hp Hf H. rewrite (py_mul_float_int f z c Hc) in H. injection H as <-.
  apply SF64mul_nonneg; assumption.
Qed.

(** The premium yield of a quote with a bid of zero or more. *)
Lemma yield_nonneg (b s y : value) (c : bool) :
  match as_num b with
  | Some (NInt z) => 0 ≤ z
  | Some (NFloat f) => nonneg_finite f
  | None => True
  end →
  py_gt s (VInt 0) = Ok c →
  (if c then bind (py_truediv b s) (λ q, py_mul q (VInt 100)) else Ok (VInt 0)) = Ok y →
  nonneg_value y.
Proof.
  intros Hb Hc H. destruct c; [ | injection H as <-; simpl; lia ].
  inv_bind H. apply num_arith_inv in Ha.
  destruct Ha as (x & ys & Hx & Hys & Hcase). rewrite Hx in Hb.
  unfold py_gt, py_compare in Hc. rewrite Hys in Hc. simpl in Hc. injection Hc as Hc.
  assert (Hq : ∃ f, a = VFloat f ∧ nonneg_float f).
  { destruct Hcase as [(p & q & n & -> & -> & Hn & ->)|(fx & fy & f & Hfx & Hfy & Hf & ->)].
    - unfold map in Hn. inv_bind Hn. injection Hn as <-. eexists. split; [ reflexivity | ].
      apply has_sign_nonneg. apply int_truediv_sign in Ha.
      assert (Hq : 0 < q) by (apply int_gt_zero; exact Hc).
      destruct (Z.ltb_spec p 0); [ lia | ]. destruct (Z.ltb_spec q 0); [ lia | ].
      exact Ha.
    - eexists. split; [ reflexivity | ].
      unfold float_truediv in Hf. destruct (is_zero fy); [ discriminate | ].
      injection Hf as <-. apply SF64div_nonneg. left. split.
      + eapply nonneg_to_float; eassumption.
      + eapply gt_zero_positive; eassumption. }
  destruct Hq as (f & -> & Hf).
  exact (mul_const_nonneg f (fl 100) 100 y eq_refl positive_finite_100 Hf H).
Qed.

(** The annualized return of a yield of zero or more over days that are
    not an infinite float. *)
Lemma annualized_nonneg (y d a : value) (c : bool) :
  nonneg_value y →
  match d with VFloat (S754_infinity _) => False | _ => True end →
  py_gt d (VInt 0) = Ok c →
  (if c then bind (py_truediv y d) (λ q, py_mul q (VInt 365)) else Ok (VInt 0)) = Ok a →
  nonneg_value a.
Proof.
  intros Hy Hd Hc H. destruct c; [ | injection H as <-; simpl; lia ].
  inv_bind H. rename a0 into q. apply num_arith_inv in Ha.
  destruct Ha as (x & ys & Hx & Hys & Hcase).
  unfold py_gt, py_compare in Hc. rewrite Hys in Hc. simpl in Hc. injection Hc as Hc.
  assert (Hq : ∃ f, q = VFloat f ∧ nonneg_float f).
  { destruct Hcase as [(p & q' & n & -> & -> & Hn & ->)|(fx & fy & f & Hfx & Hfy & Hf & ->)].
    - unfold map in Hn. inv_bind Hn. injection Hn as <-. eexists. split; [ reflexivity | ].
      apply has_sign_nonneg. apply int_truediv_sign in Ha.
      assert (Hq : 0 < q') by (apply int_gt_zero; exact Hc).
      assert (Hp : 0 ≤ p) by (destruct y; try discriminate; try contradiction; injection Hx as <-; exact Hy).
      destruct (Z.ltb_spec p 0); [ lia | ]. destruct (Z.ltb_spec q' 0); [ lia | ].
      exact Ha.
    - eexists. split; [ reflexivity | ].
      unfold float_truediv in Hf. destruct (is_zero fy); [ discriminate | ].
      injection Hf as <-. apply SF64div_nonneg. right. split.
      + destruct y as [|?|z|g|]; try contradiction; injection Hx as <-.
        * apply nonneg_finite_float. eapply (nonneg_to_float (NInt z)); eassumption.
        * injection Hfx as <-. exact Hy.
      + pose proof (gt_zero_positive ys fy Hc Hfy) as Hpos.
        destruct d as [|?|z|g|]; try discriminate; injection Hys as <-.
        * simpl in Hfy. apply float_of_int_shape in Hfy.
          destruct fy as [s|s| |[] m e]; simpl in *; tauto.
        * simpl in Hfy. apply float_of_int_shape in Hfy.
          destruct fy as [s|s| |[] m e]; simpl in *; tauto.
        * injection Hfy as <-. destruct g as [s|[]| |[] m e]; simpl in *; tauto. }
  destruct Hq as (f & -> & Hf).
  exact (mul_const_nonneg f (fl 365) 365 a eq_refl positive_finite_365 Hf H).
Qed.

Lemma round_nonneg (a r : value) (nd : Z) :
  0 ≤ nd → nonneg_value a → py_round a nd = Ok r → nonneg_value r.
Proof.
  intros Hnd Ha. unfold py_round.
  destruct a as [|?|z|f|]; try contradiction; simpl; intros [= <-].
  - exact Ha.
  - apply round_float_nonneg; assumption.
Qed.

Lemma metrics_yields_nonneg (opt : gmap string value) (stock_price : value) (m : metrics) :
  sane_quote opt →
  calculate_option_metrics opt stock_price = Metrics m →
  nonneg_value (m_premium_yield m) ∧ nonneg_value (m_annualized_return m).
Proof.
  intros [Hbid Hdays]. unfold calculate_option_metrics.
  destruct (option_metrics_try opt stock_price) as [m'|e] eqn:H; [ | discriminate ].
  intros [= <-]. unfold option_metrics_try in H.
  inv_bind H. rename a into s, Ha into Hs.
  inv_bind H. rename a into b, Ha into Hb.
  inv_bind H. rename a into d, Ha into Hd.
  inv_bind H. rename a into cs, Ha into Hcs.
  inv_bind H. rename a into y, Ha into Hy.
  inv_bind H. rename a into cd, Ha into Hcd.
  inv_bind H. rename a into an, Ha into Han.
  repeat inv_bind H. injection H as <-. simpl.
  unfold item in Hb, Hd.
  destruct (opt !! "bid") as [b'|]; [ injection Hb as -> | discriminate ].
  destruct (opt !! "days_to_expiry") as [d'|]; [ injection Hd as -> | discriminate ].
  pose proof (yield_nonneg b s y cs Hbid Hcs Hy) as Ny.
  pose proof (annualized_nonneg y d an cd Ny Hdays Hcd Han) as Na.
  split; (eapply round_nonneg; cycle 2; [ eassumption | lia | assumption ]).
Qed.

Lemma metrics_yield_nonneg (opt : gmap string value) (stock_price : value) (m : metrics) :
  sane_quote opt →
  calculate_option_metrics opt stock_price = Metrics m →
  nonneg_value (m_annualized_return m).
Proof. intros Hs Hm. exact (proj2 (metrics_yields_nonneg opt stock_price m Hs Hm)). Qed.

(** ** The best-by-yield loop finds the first greatest yield *)


Lemma py_compare_xval test (a b : value) :
  spec.numeric a → spec.numeric b →
  py_compare test a b = Ok (test (xcmp (xval a) (xval b))).
Proof.
  intros [x Hx] [y Hy]. unfold py_compare, xval. rewrite Hx, Hy. reflexivity.
Qed.

Lemma xval_numeric (v : value) : xval v ≠ XNaN → spec.numeric v.
Proof.
  unfold xval, spec.numeric. destruct (as_num v); [ eauto | congruence ].
Qed.

(** Facts on the order of [xreal], by cases on the four kinds of value and
    on the comparisons of the rationals. *)
Ltac xorder :=
  intros;
  repeat match goal with a : xreal |- _ => destruct a end;
  simpl in *; try congruence;
  repeat match goal with
         | H : context [(?p ?= ?q)%Q] |- _ => destruct (Qcompare_spec p q)
         | |- context [(?p ?= ?q)%Q] => destruct (Qcompare_spec p q)
         end;
  simpl in *; try congruence; try (exfalso; lra).

Lemma xgt_not_nan (a b : xreal) : is_gt (xcmp a b) = true → a ≠ XNaN ∧ b ≠ XNaN.
Proof. destruct a, b; simpl; intros; split; congruence. Qed.

Lemma xgt_irrefl (a : xreal) : is_gt (xcmp a a) = false.
Proof. xorder. Qed.

Lemma xgt_trans (a b c : xreal) :
  is_gt (xcmp c b) = true → is_gt (xcmp b a) = true → is_gt (xcmp c a) = true.
Proof. xorder. Qed.

Lemma xgt_le (a b : xreal) : is_gt (xcmp b a) = true → is_le (xcmp a b) = true.
Proof. xorder. Qed.

Lemma xle_trans (a b c : xreal) :
  is_le (xcmp a b) = true → is_le (xcmp b c) = true → is_le (xcmp a c) = true.
Proof. xorder. Qed.

Lemma xle_not_gt (a b : xreal) : is_le (xcmp a b) = true → is_gt (xcmp a b) = false.
Proof. xorder. Qed.

Lemma xnot_gt_le (x b r : xreal) :
  is_gt (xcmp x b) = false → is_le (xcmp b r) = true → is_gt (xcmp x r) = false.
Proof. xorder. Qed.

Lemma xnot_gt_lt (x b m : xreal) :
  is_gt (xcmp x b) = false → is_gt (xcmp m b) = true → is_ge (xcmp x m) = false.
Proof. xorder. Qed.

Lemma xgt_not_ge (a b : xreal) : is_gt (xcmp b a) = true → is_ge (xcmp a b) = false.
Proof. xorder. Qed.

Lemma xnot_gt_eq (a b : xreal) :
  a ≠ XNaN → b ≠ XNaN →
  is_gt (xcmp a b) = false → is_gt (xcmp b a) = false → is_eq (xcmp a b) = true.
Proof. xorder. Qed.

Lemma metrics_yield_numeric opt sp m :
  calculate_option_metrics opt sp = Metrics m → spec.numeric (m_annualized_return m).
Proof. apply metrics_annualized_numeric. Qed.

(** The loop of [find_best_option], started with [best_annualized = b]:
    the final [best_annualized] is a number not below [b] that no yield of
    the list exceeds; and either no candidate was taken, or the one taken
    is the first whose yield is the greatest, and it exceeds [b]. *)
Lemma best_loop_spec (sp : value) (opts : list (gmap string value)) :
  ∀ (b_opt : option metrics) (b : value) (st' : option metrics * value),
  xval b ≠ XNaN →
  best_loop sp (b_opt, b) opts = Ok st' →
  xval (snd st') ≠ XNaN
  ∧ is_le (xcmp (xval b) (xval (snd st'))) = true
  ∧ (∀ j o m, opts !! j = Some o → calculate_option_metrics o sp = Metrics m →
       is_gt (xcmp (xval (m_annualized_return m)) (xval (snd st'))) = false)
  ∧ (st' = (b_opt, b)
     ∨ ∃ i o m,
         opts !! i = Some o ∧ calculate_option_metrics o sp = Metrics m
         ∧ st' = (Some m, m_annualized_return m)
         ∧ is_gt (xcmp (xval (m_annualized_return m)) (xval b)) = true
         ∧ ∀ j o' m', (j < i)%nat → opts !! j = Some o' →
             calculate_option_metrics o' sp = Metrics m' →
             is_ge (xcmp (xval (m_annualized_return m'))
                         (xval (m_annualized_return m))) = false).
Proof.
  induction opts as [|o rest IH]; intros b_opt b st' Hb H.
  - simpl in H. injection H as <-. simpl.
    split; [ exact Hb | ]. split; [ apply xcmp_refl, Hb | ].
    split; [ intros j o m Hj; rewrite lookup_nil in Hj; discriminate | left; reflexivity ].
  - simpl in H. unfold best_step in H.
    destruct (calculate_option_metrics o sp) as [m0|e] eqn:Hm.
    + pose proof (metrics_yield_numeric _ _ _ Hm) as Hn.
      unfold py_gt in H. rewrite (py_compare_xval _ _ _ Hn (xval_numeric _ Hb)) in H.
      cbn [bind snd] in H.
      destruct (is_gt (xcmp (xval (m_annualized_return m0)) (xval b))) eqn:Hc.
      * destruct (xgt_not_nan _ _ Hc) as [Hn0 _].
        destruct (IH _ _ _ Hn0 H) as (Hr & Hle & Hall & Hcase).
        split; [ exact Hr | ].
        split; [ exact (xle_trans _ _ _ (xgt_le _ _ Hc) Hle) | ].
        split.
        { intros [|j] o' m' Hj Hm'; simpl in Hj.
          - injection Hj as <-. rewrite Hm in Hm'. injection Hm' as <-.
            apply xle_not_gt, Hle.
          - eapply Hall; eassumption. }
        right. destruct Hcase as [->|(i & oi & mi & Hi & Hmi & -> & Hgt & Hearlier)].
        { exists 0%nat, o, m0. split; [ reflexivity | ]. split; [ exact Hm | ].
          split; [ reflexivity | ]. split; [ exact Hc | ]. intros j o' m' Hj. lia. }
        exists (S i), oi, mi. split; [ exact Hi | ]. split; [ exact Hmi | ].
        split; [ reflexivity | ]. split; [ exact (xgt_trans _ _ _ Hgt Hc) | ].
        intros [|j] o' m' Hlt Hj Hm'; simpl in Hj.
        { injection Hj as <-. rewrite Hm in Hm'. injection Hm' as <-.
          apply xgt_not_ge, Hgt. }
        eapply (Hearlier j); [ lia | eassumption | eassumption ].
      * destruct (IH _ _ _ Hb H) as (Hr & Hle & Hall & Hcase).
        split; [ exact Hr | ]. split; [ exact Hle | ].
        split.
        { intros [|j] o' m' Hj Hm'; simpl in Hj.
          - injection Hj as <-. rewrite Hm in Hm'. injection Hm' as <-.
            exact (xnot_gt_le _ _ _ Hc Hle).
          - eapply Hall; eassumption. }
        destruct Hcase as [->|(i & oi & mi & Hi & Hmi & -> & Hgt & Hearlier)];
          [ left; reflexivity | right ].
        exists (S i), oi, mi. split; [ exact Hi | ]. split; [ exact Hmi | ].
        split; [ reflexivity | ]. split; [ exact Hgt | ].
        intros [|j] o' m' Hlt Hj Hm'; simpl in Hj.
        { injection Hj as <-. rewrite Hm in Hm'. injection Hm' as <-.
          exact (xnot_gt_lt _ _ _ Hc Hgt). }
        eapply (Hearlier j); [ lia | eassumption | eassumption ].
    + cbn [bind] in H.
      destruct (IH _ _ _ Hb H) as (Hr & Hle & Hall & Hcase).
      split; [ exact Hr | ]. split; [ exact Hle | ].
      split.
      { intros [|j] o' m' Hj Hm'; simpl in Hj.
        - injection Hj as <-. rewrite Hm in Hm'. discriminate.
        - eapply Hall; eassumption. }
      destruct Hcase as [->|(i & oi & mi & Hi & Hmi & -> & Hgt & Hearlier)];
        [ left; reflexivity | right ].
      exists (S i), oi, mi. split; [ exact Hi | ]. split; [ exact Hmi | ].
      split; [ reflexivity | ]. split; [ exact Hgt | ].
      intros [|j] o' m' Hlt Hj Hm'; simpl in Hj.
      { injection Hj as <-. rewrite Hm in Hm'. discriminate. }
      eapply (Hearlier j); [ lia | eassumption | eassumption ].
Qed.

Lemma xval_minus_one : xval (VInt (-1)) ≠ XNaN.
Proof. discriminate. Qed.

(** The loop of [find_best_option] always runs to its end. *)
Lemma best_loop_runs (sp : value) (opts : list (gmap string value)) :
  ∃ st, best_loop sp (None, VInt (-1)) opts = Ok st.
Proof.
  destruct (best_loop_total sp (None, VInt (-1)) opts) as (st & Hst & _).
  - eexists; reflexivity.
  - eauto.
Qed.

Lemma find_best_option_unfold (opts : list (gmap string value)) (sp : value)
    (st : option metrics * value) :
  best_loop sp (None, VInt (-1)) opts = Ok st →
  find_best_option opts sp
  = match fst st with
    | Some best =>
      {| found := true; best_option := Some best; analysis_tools.error := None |}
    | None =>
      {| found := false; best_option := None;
         analysis_tools.error :=
           Some (if is_empty opts
                 then "No options available after filtering."
                 else "Could not calculate metrics for any options.") |}
    end.
Proof.
  intros H. unfold find_best_option. destruct opts as [|o opts].
  - simpl in H. injection H as <-. reflexivity.
  - rewrite H. simpl. destruct (fst st); reflexivity.
Qed.

Lemma py_eq_xval (a b : value) :
  spec.numeric a → spec.numeric b → py_eq a b = is_eq (xcmp (xval a) (xval b)).
Proof.
  intros [x Hx] [y Hy]. unfold py_eq, xval. rewrite Hx, Hy. reflexivity.
Qed.

Lemma nonneg_above_minus_one (v : value) :
  nonneg_value v → is_gt (xcmp (xval v) (xval (VInt (-1)))) = true.
Proof.
  destruct v as [|?|z|f|]; simpl; try contradiction.
  - intros Hz. unfold xval. simpl. unfold Qcompare. simpl.
    rewrite Z.mul_1_r. change (-1 * 1) with (-1).
    destruct (Z.compare_spec z (-1)); [ lia | lia | reflexivity ].
  - destruct f as [s|[]| |[] m e]; simpl; try contradiction; intros _; try reflexivity.
    unfold xval. simpl.
    pose proof (dyadic_pos (Zpos m) e ltac:(lia)) as Hp.
    set (d := dyadic (Zpos m) e) in *.
    change (inject_Z (-1)) with (-1)%Q.
    destruct (Qcompare_spec d (-1)%Q) as [H|H|H]; [ | | reflexivity ]; exfalso; lra.
Qed.

Lemma best_loop_all_error (sp : value) (st : option metrics * value)
    (opts : list (gmap string value)) :
  Forall (λ o, ∃ e, calculate_option_metrics o sp = MetricsError e) opts →
  best_loop sp st opts = Ok st.
Proof.
  induction 1 as [|o opts [e He] _ IH]; simpl; [ reflexivity | ].
  unfold best_step. rewrite He. exact IH.
Qed.

(** [find_best_option] has three outcomes, and its [except] clause is
    none of them: for every list of candidates and every stock price, it
    either reports a best option with [found = True] and no error, or
    reports none with [found = False] and the message for an empty list
    or the message for a list without computable metrics. *)
Theorem find_best_option_outcomes (opts : list (gmap string value)) (sp : value) :
  match best_option (find_best_option opts sp) with
  | Some _ =>
    found (find_best_option opts sp) = true
    ∧ analysis_tools.error (find_best_option opts sp) = None
  | None =>
    found (find_best_option opts sp) = false
    ∧ analysis_tools.error (find_best_option opts sp)
      = Some (if is_empty opts
              then "No options available after filtering."
              else "Could not calculate metrics for any options.")
  end.
Proof.
  destruct (best_loop_runs sp opts) as [st Hst].
  rewrite (find_best_option_unfold opts sp st Hst).
  destruct (fst st); split; reflexivity.
Qed.

(** The option [find_best_option] reports is the metrics of a candidate
    of the list whose annualized return exceeds -1, is exceeded by that of
    no candidate with computable metrics, and is not reached by that of
    any earlier candidate: the first of the greatest. *)
Theorem find_best_option_first_greatest
    (opts : list (gmap string value)) (sp : value) (m : metrics) :
  best_option (find_best_option opts sp) = Some m →
  ∃ (i : nat) (o : gmap string value),
    opts !! i = Some o
    ∧ calculate_option_metrics o sp = Metrics m
    ∧ py_gt (m_annualized_return m) (VInt (-1)) = Ok true
    ∧ ∀ (j : nat) o' m',
        opts !! j = Some o' → calculate_option_metrics o' sp = Metrics m' →
        py_gt (m_annualized_return m') (m_annualized_return m) = Ok false
        ∧ ((j < i)%nat →
           py_ge (m_annualized_return m') (m_annualized_return m) = Ok false).
Proof.
  intros H. destruct (best_loop_runs sp opts) as [st Hst].
  rewrite (find_best_option_loop opts sp st Hst) in H.
  destruct (best_loop_spec sp opts None (VInt (-1)) st xval_minus_one Hst)
    as (Hr & _ & Hall & Hcase).
  destruct Hcase as [->|(i & o & m1 & Hi & Hm1 & -> & Hgt & Hearlier)];
    [ discriminate | ].
  simpl in H. injection H as ->. simpl in Hall.
  pose proof (metrics_yield_numeric _ _ _ Hm1) as Hn.
  exists i, o. split; [ exact Hi | ]. split; [ exact Hm1 | ].
  split.
  { unfold py_gt. rewrite py_compare_xval; [ | exact Hn | eexists; reflexivity ].
    rewrite Hgt. reflexivity. }
  intros j o' m' Hj Hm'.
  pose proof (metrics_yield_numeric _ _ _ Hm') as Hn'.
  split.
  - unfold py_gt. rewrite (py_compare_xval _ _ _ Hn' Hn).
    rewrite (Hall j o' m' Hj Hm'). reflexivity.
  - intros Hlt. unfold py_ge. rewrite (py_compare_xval _ _ _ Hn' Hn).
    rewrite (Hearlier j o' m' Hlt Hj Hm'). reflexivity.
Qed.

Lemma find_best_option_first_greatest_witness :
  ∃ (m : metrics) (i : nat) (o : gmap string value),
    best_option (find_best_option [examples.call_110; examples.call_103; examples.call_103]
                   (VFloat (fl 100))) = Some m
    ∧ [examples.call_110; examples.call_103; examples.call_103] !! i = Some o
    ∧ calculate_option_metrics o (VFloat (fl 100)) = Metrics m
    ∧ i = 1%nat.
Proof.
  destruct (best_option (find_best_option
                           [examples.call_110; examples.call_103; examples.call_103]
                           (VFloat (fl 100)))) as [m|] eqn:H;
    [ | vm_compute in H; discriminate H ].
  destruct (find_best_option_first_greatest _ _ _ H) as (i & o & Hi & Hm & _ & Hall).
  exists m, i, o. split; [ reflexivity | ]. split; [ exact Hi | ]. split; [ exact Hm | ].
  destruct i as [|[|[|i]]]; [ | reflexivity | | discriminate Hi ].
  - exfalso. simpl in Hi. injection Hi as <-.
    destruct (Hall 1%nat examples.call_103 _ eq_refl eq_refl) as [Hgt _].
    vm_compute in Hm. injection Hm as <-. vm_compute in Hgt. discriminate Hgt.
  - exfalso. simpl in Hi. injection Hi as <-.
    destruct (Hall 1%nat examples.call_103 _ eq_refl eq_refl) as [_ Hge].
    specialize (Hge ltac:(lia)).
    vm_compute in Hm. injection Hm as <-. vm_compute in Hge. discriminate Hge.
Defined.

(** On quotes as the market-data service delivers them (no negative bid),
    [find_best_option] answers [found = False] exactly when the list is
    empty or the metrics of every candidate fail. *)
Theorem find_best_option_not_found (opts : list (gmap string value)) (sp : value) :
  Forall sane_quote opts →
  found (find_best_option opts sp) = false
  ↔ opts = []
    ∨ Forall (λ o, ∃ e, calculate_option_metrics o sp = MetricsError e) opts.
Proof.
  intros Hsane. destruct (best_loop_runs sp opts) as [st Hst].
  rewrite (find_best_option_unfold opts sp st Hst).
  split.
  - intros Hf. right.
    destruct (best_loop_spec sp opts None (VInt (-1)) st xval_minus_one Hst)
      as (_ & _ & Hall & Hcase).
    destruct Hcase as [->|(i & o & m1 & _ & _ & -> & _)]; [ | discriminate Hf ].
    simpl in Hall. apply Forall_lookup_2. intros j o Hj.
    destruct (calculate_option_metrics o sp) as [m|e] eqn:Hm; [ exfalso | eauto ].
    pose proof (Hall j o m Hj Hm) as Hle.
    rewrite nonneg_above_minus_one in Hle; [ discriminate Hle | ].
    eapply metrics_yield_nonneg; [ | exact Hm ].
    eapply Forall_lookup_1; eassumption.
  - intros [->|Herr].
    + simpl in Hst. injection Hst as <-. reflexivity.
    + rewrite (best_loop_all_error sp _ opts Herr) in Hst. injection Hst as <-.
      reflexivity.
Qed.

Lemma find_best_option_not_found_witness :
  found (find_best_option [examples.call_103; examples.call_110] (VFloat (fl 100))) = false
  ↔ [examples.call_103; examples.call_110] = []
    ∨ Forall (λ o, ∃ e, calculate_option_metrics o (VFloat (fl 100)) = MetricsError e)
        [examples.call_103; examples.call_110].
Proof.
  apply find_best_option_not_found.
  repeat constructor; vm_compute; exact I.
Defined.

(** [find_best_option] does not depend on the order of the candidates
    when no two different candidates have equal annualized returns: on two
    lists that are permutations of each other it returns the same result. *)
Theorem find_best_option_order_independent
    (opts opts' : list (gmap string value)) (sp : value) :
  opts ≡ₚ opts' →
  (∀ o1 o2 m1 m2, o1 ∈ opts → o2 ∈ opts →
     calculate_option_metrics o1 sp = Metrics m1 →
     calculate_option_metrics o2 sp = Metrics m2 →
     py_eq (m_annualized_return m1) (m_annualized_return m2) = true → o1 = o2) →
  find_best_option opts sp = find_best_option opts' sp.
Proof.
  intros Hperm Hdistinct.
  destruct (best_loop_runs sp opts) as [st Hst].
  destruct (best_loop_runs sp opts') as [st' Hst'].
  rewrite (find_best_option_unfold opts sp st Hst).
  rewrite (find_best_option_unfold opts' sp st' Hst').
  assert (Hempty : is_empty opts = is_empty opts').
  { destruct opts as [|o l], opts' as [|o' l']; try reflexivity.
    - apply Permutation_nil_cons in Hperm. contradiction.
    - symmetry in Hperm. apply Permutation_nil_cons in Hperm. contradiction. }
  destruct (best_loop_spec sp opts None (VInt (-1)) st xval_minus_one Hst)
    as (Hr & _ & Hall & Hcase).
  destruct (best_loop_spec sp opts' None (VInt (-1)) st' xval_minus_one Hst')
    as (Hr' & _ & Hall' & Hcase').
  destruct Hcase as [->|(i & o & m & Hi & Hm & -> & Hgt & _)];
    destruct Hcase' as [->|(i' & o' & m' & Hi' & Hm' & -> & Hgt' & _)];
    cbn [fst snd] in *.
  - rewrite Hempty. reflexivity.
  - exfalso. apply list_elem_of_lookup_2 in Hi'. rewrite <- Hperm in Hi'.
    apply list_elem_of_lookup_1 in Hi' as [j Hj].
    rewrite (Hall j o' m' Hj Hm') in Hgt'. discriminate Hgt'.
  - exfalso. apply list_elem_of_lookup_2 in Hi. rewrite Hperm in Hi.
    apply list_elem_of_lookup_1 in Hi as [j Hj].
    rewrite (Hall' j o m Hj Hm) in Hgt. discriminate Hgt.
  - assert (Ho : o ∈ opts) by (eapply list_elem_of_lookup_2; exact Hi).
    assert (Ho' : o' ∈ opts').
    { eapply list_elem_of_lookup_2; exact Hi'. }
    assert (Ho'1 : o' ∈ opts) by (rewrite Hperm; exact Ho').
    assert (Ho1 : o ∈ opts') by (rewrite <- Hperm; exact Ho).
    destruct (list_elem_of_lookup_1 _ _ Ho'1) as [j Hj].
    destruct (list_elem_of_lookup_1 _ _ Ho1) as [j' Hj'].
    pose proof (Hall j o' m' Hj Hm') as H1.
    pose proof (Hall' j' o m Hj' Hm) as H2.
    assert (Heq : py_eq (m_annualized_return m) (m_annualized_return m') = true).
    { rewrite py_eq_xval by (eapply metrics_yield_numeric; eassumption).
      apply xnot_gt_eq; assumption. }
    pose proof (Hdistinct o o' m m' Ho Ho'1 Hm Hm' Heq) as <-.
    rewrite Hm in Hm'. injection Hm' as <-. reflexivity.
Qed.

Lemma find_best_option_order_independent_witness :
  find_best_option [examples.call_103; examples.call_110] (VFloat (fl 100))
  = find_best_option [examples.call_110; examples.call_103] (VFloat (fl 100)).
Proof.
  apply find_best_option_order_independent.
  - apply perm_swap.
  - intros o1 o2 m1 m2 H1 H2 Hm1 Hm2 Heq.
    apply elem_of_cons in H1 as [->|H1]; [ | apply list_elem_of_singleton in H1 as -> ];
      (apply elem_of_cons in H2 as [->|H2]; [ | apply list_elem_of_singleton in H2 as -> ]);
      try reflexivity;
      vm_compute in Hm1; vm_compute in Hm2;
      injection Hm1 as <-; injection Hm2 as <-;
      vm_compute in Heq; discriminate Heq.
Defined.

(** The yields [calculate_option_metrics] computes for a quote with a bid
    of zero or more are zero or more: neither negative nor not-a-number. *)
Theorem option_metrics_yields_not_negative
    (opt : gmap string value) (stock_price : value) (m : metrics) :
  sane_quote opt →
  calculate_option_metrics opt stock_price = Metrics m →
  py_ge (m_premium_yield m) (VInt 0) = Ok true
  ∧ py_ge (m_annualized_return m) (VInt 0) = Ok true.
Proof.
  intros Hs Hm. destruct (metrics_yields_nonneg opt stock_price m Hs Hm) as [Hy Ha].
  assert (Hge : ∀ v, nonneg_value v → py_ge v (VInt 0) = Ok true).
  { intros v Hv. destruct v as [|?|z|f|]; simpl in Hv; try contradiction.
    - unfold py_ge, py_compare, num_cmp. simpl. unfold Qcompare. simpl.
      rewrite Z.mul_1_r. change (0 * 1) with 0.
      destruct (Z.compare_spec z 0); [ reflexivity | lia | reflexivity ].
    - destruct f as [s|[]| |[] mf e]; simpl in Hv; try contradiction; try reflexivity.
      unfold py_ge, py_compare, num_cmp. simpl.
      pose proof (dyadic_pos (Zpos mf) e ltac:(lia)) as Hp.
      set (d := dyadic (Zpos mf) e) in *.
      change (inject_Z 0) with 0%Q.
      destruct (Qcompare_spec d 0%Q) as [H|H|H]; try reflexivity; exfalso; lra. }
  split; apply Hge; assumption.
Qed.

Lemma option_metrics_yields_not_negative_witness :
  ∃ m,
    calculate_option_metrics examples.call_103 (VFloat (fl 100)) = Metrics m
    ∧ py_ge (m_premium_yield m) (VInt 0) = Ok true
    ∧ py_ge (m_annualized_return m) (VInt 0) = Ok true.
Proof.
  destruct (calculate_option_metrics examples.call_103 (VFloat (fl 100))) as [m|e] eqn:H;
    [ | vm_compute in H; discriminate H ].
  exists m. split; [ reflexivity | ].
  apply (option_metrics_yields_not_negative examples.call_103 (VFloat (fl 100)) m);
    [ split; vm_compute; exact I | exact H ].
Defined.

(** ** Strike selection (claim C1): the option selected *)

(** The loop started at [(None, -1)]: the option it ends with is the first
    of the candidates with the greatest annualized return, which exceeds
    -1; it ends with none only when no candidate with computable metrics
    has an annualized return above -1. *)
Lemma best_loop_first_greatest (sp : value) (opts : list (gmap string value))
    (st : option metrics * value) :
  best_loop sp (None, VInt (-1)) opts = Ok st →
  (∀ m, fst st = Some m →
     ∃ (i : nat) (o : gmap string value),
       opts !! i = Some o
       ∧ calculate_option_metrics o sp = Metrics m
       ∧ py_gt (m_annualized_return m) (VInt (-1)) = Ok true
       ∧ ∀ (j : nat) o' m',
           opts !! j = Some o' → calculate_option_metrics o' sp = Metrics m' →
           py_gt (m_annualized_return m') (m_annualized_return m) = Ok false
           ∧ ((j < i)%nat →
              py_ge (m_annualized_return m') (m_annualized_return m) = Ok false))
  ∧ (fst st = None →
     ∀ o m', o ∈ opts → calculate_option_metrics o sp = Metrics m' →
       py_gt (m_annualized_return m') (VInt (-1)) = Ok false).
Proof.
  intros Hst.
  destruct (best_loop_spec sp opts None (VInt (-1)) st xval_minus_one Hst)
    as (Hr & _ & Hall & Hcase).
  split.
  - intros m H.
    destruct Hcase as [->|(i & o & m1 & Hi & Hm1 & -> & Hgt & Hearlier)];
      [ discriminate | ].
    simpl in H. injection H as ->. simpl in Hall.
    pose proof (metrics_yield_numeric _ _ _ Hm1) as Hn.
    exists i, o. split; [ exact Hi | ]. split; [ exact Hm1 | ].
    split.
    { unfold py_gt. rewrite py_compare_xval; [ | exact Hn | eexists; reflexivity ].
      rewrite Hgt. reflexivity. }
    intros j o' m' Hj Hm'.
    pose proof (metrics_yield_numeric _ _ _ Hm') as Hn'.
    split.
    + unfold py_gt. rewrite (py_compare_xval _ _ _ Hn' Hn).
      rewrite (Hall j o' m' Hj Hm'). reflexivity.
    + intros Hlt. unfold py_ge. rewrite (py_compare_xval _ _ _ Hn' Hn).
      rewrite (Hearlier j o' m' Hlt Hj Hm'). reflexivity.
  - intros Hnone o m' Ho Hm'.
    destruct Hcase as [->|(i & oi & m1 & _ & _ & -> & _)]; [ | discriminate ].
    cbn [snd] in Hall. apply list_elem_of_lookup_1 in Ho as [j Hj].
    pose proof (metrics_yield_numeric _ _ _ Hm') as Hn'.
    unfold py_gt. rewrite py_compare_xval; [ | exact Hn' | eexists; reflexivity ].
    rewrite (Hall j o m' Hj Hm'). reflexivity.
Qed.

(** The loop ends with an option as soon as one candidate is a quote with
    its four required fields and a bid that is not negative. *)
Lemma best_loop_chooses (sp : value) (opts : list (gmap string value))
    (st : option metrics * value) (o : gmap string value) (s b d e : value) :
  best_loop sp (None, VInt (-1)) opts = Ok st →
  o ∈ opts →
  o !! "strike" = Some s → o !! "bid" = Some b →
  o !! "days_to_expiry" = Some d → o !! "expiration" = Some e →
  spec.sized 1000 s → spec.sized 1000 b → spec.sized 1000 d →
  sane_quote o →
  spec.sized 1000 sp → py_eq sp (VInt 0) = false →
  fst st ≠ None.
Proof.
  intros Hst Ho Hs Hb Hd He Ss Sb Sd Hsane Sp Hnz Hnone.
  destruct (option_metrics_total o sp s b d e Hs Hb Hd He Ss Sb Sd Sp Hnz)
    as (m & Hm & _).
  assert (Hm' : calculate_option_metrics o sp = Metrics m).
  { unfold calculate_option_metrics. rewrite Hm. reflexivity. }
  destruct (best_loop_first_greatest sp opts st Hst) as [_ Hlow].
  specialize (Hlow Hnone o m Ho Hm').
  pose proof (metrics_yield_numeric _ _ _ Hm') as Hn.
  pose proof (nonneg_above_minus_one _ (metrics_yield_nonneg o sp m Hsane Hm')) as Hgt.
  unfold py_gt in Hlow. rewrite py_compare_xval in Hlow;
    [ | exact Hn | eexists; reflexivity ].
  rewrite Hgt in Hlow. discriminate.
Qed.

(** C1.  For candidates whose strike, where present, is a number, a float
    stock price and any technical snapshot, the strike selector returns a
    selection such that: the snapshot's sentiment and assignment risk pick
    a row of the fixed table, and with it the band, the strategy label and
    the layering flag; the preferred candidates are those whose strike lies
    in [[price*(1+min), price*(1+max)]]; the full candidate list replaces
    them, and the "no options in preferred range" notice replaces the
    row's reason, exactly when no candidate is preferred; the selected
    option is the one [find_best_option] returns on the resulting list,
    that is: the metrics of a candidate of that list whose annualized
    return exceeds -1, is exceeded by that of no candidate of the list with
    computable metrics, and is not reached by that of any earlier one; no
    option is selected only when no candidate of the list has a computable
    annualized return above -1, and one is selected as soon as the list
    holds a quote with its four required fields, numbers of moderate size in
    them and a bid that is not negative, and the stock price is not zero;
    and [use_layered] is true on the oversold and moderate-risk rows
    only. *)
Theorem select_strike_by_table
    (candidates : list (gmap string value)) (price : spec_float)
    (technical : gmap string value) :
  Forall (λ opt, spec.numeric (get opt "strike" (VInt 0))) candidates →
  let sentiment := get technical "sentiment" (VStr "neutral") in
  let assignment_risk := get technical "assignment_risk" (VStr "moderate") in
  let r := spec.row_of sentiment assignment_risk in
  let preferred := spec.in_band_of r price candidates in
  let searched := if is_empty preferred then candidates else preferred in
  ∃ sel,
    _select_strike_based_on_technicals candidates (VFloat price) technical = Ok sel
    ∧ sel_option sel = best_option (find_best_option searched (VFloat price))
    ∧ (∀ m, sel_option sel = Some m →
         ∃ (i : nat) (o : gmap string value),
           searched !! i = Some o
           ∧ calculate_option_metrics o (VFloat price) = Metrics m
           ∧ py_gt (m_annualized_return m) (VInt (-1)) = Ok true
           ∧ ∀ (j : nat) o' m',
               searched !! j = Some o' →
               calculate_option_metrics o' (VFloat price) = Metrics m' →
               py_gt (m_annualized_return m') (m_annualized_return m) = Ok false
               ∧ ((j < i)%nat →
                  py_ge (m_annualized_return m') (m_annualized_return m) = Ok false))
    ∧ (sel_option sel = None →
         ∀ o m', o ∈ searched →
           calculate_option_metrics o (VFloat price) = Metrics m' →
           py_gt (m_annualized_return m') (VInt (-1)) = Ok false)
    ∧ (∀ o s b d e,
         o ∈ searched →
         o !! "strike" = Some s → o !! "bid" = Some b →
         o !! "days_to_expiry" = Some d → o !! "expiration" = Some e →
         spec.sized 1000 s → spec.sized 1000 b → spec.sized 1000 d →
         sane_quote o → py_eq (VFloat price) (VInt 0) = false →
         sel_option sel ≠ None)
    ∧ sel_strategy sel = spec.label r
    ∧ sel_use_layered sel = spec.layered_row r
    ∧ sel_reason sel =
        (if is_empty preferred
         then NoOptionsInPreferredRange
                (VFloat (SF64mul (fst (spec.band r)) (fl 100)))
                (VFloat (SF64mul (snd (spec.band r)) (fl 100)))
         else reason (strike_preference sentiment assignment_risk))
    ∧ sel_sentiment sel = sentiment
    ∧ sel_assignment_risk sel = assignment_risk.
Proof.
  intros Hnum sentiment assignment_risk r preferred searched.
  destruct (strike_preference_table sentiment assignment_risk)
    as (Hmin & Hmax & Hlabel & Hlayered).
  fold r in Hmin, Hmax, Hlabel, Hlayered.
  unfold _select_strike_based_on_technicals.
  fold sentiment assignment_risk.
  rewrite Hmin, Hmax, !otm_strike_float. cbn [bind].
  assert (Hc : comprehension
                 (in_band (VFloat (spec.band_edge price (fst (spec.band r))))
                          (VFloat (spec.band_edge price (snd (spec.band r)))))
                 candidates = Ok preferred).
  { rewrite comprehension_filter.
    - f_equal. apply filter_ext_Forall.
      eapply Forall_impl; [ exact Hnum | ]. intros opt Hopt. simpl.
      rewrite in_band_within; [ | eexists; reflexivity | eexists; reflexivity | exact Hopt ].
      destruct (spec.within _ _ _); reflexivity.
    - eapply Forall_impl; [ exact Hnum | ]. intros opt Hopt. simpl.
      rewrite in_band_within; [ eauto | eexists; reflexivity | eexists; reflexivity | exact Hopt ]. }
  rewrite Hc. cbn [bind].
  assert (Hpair :
    (if is_empty preferred
     then bind (py_mul (VFloat (fst (spec.band r))) (VInt 100))
            (λ lo, bind (py_mul (VFloat (snd (spec.band r))) (VInt 100))
                     (λ hi, Ok (candidates, NoOptionsInPreferredRange lo hi)))
     else Ok (preferred, reason (strike_preference sentiment assignment_risk)))
    = Ok (searched,
          if is_empty preferred
          then NoOptionsInPreferredRange
                 (VFloat (SF64mul (fst (spec.band r)) (fl 100)))
                 (VFloat (SF64mul (snd (spec.band r)) (fl 100)))
          else reason (strike_preference sentiment assignment_risk))).
  { unfold searched. destruct (is_empty preferred); reflexivity. }
  rewrite Hpair. cbn [bind].
  rewrite highest_yield_best_loop.
  destruct (best_loop_total (VFloat price) (None, VInt (-1)) searched) as (st & Hst & _).
  { eexists; reflexivity. }
  rewrite Hst. cbn [bind]. eexists. split; [ reflexivity | ].
  cbn [sel_option sel_strategy sel_use_layered sel_reason sel_sentiment
       sel_assignment_risk fst snd].
  destruct (best_loop_first_greatest (VFloat price) searched st Hst) as [Hfirst Hlow].
  split; [ symmetry; apply (find_best_option_loop _ _ _ Hst) | ].
  split; [ exact Hfirst | ]. split; [ exact Hlow | ].
  split.
  { intros o s b d e Ho Hs Hb Hd He Ss Sb Sd Hsane Hnz.
    exact (best_loop_chooses (VFloat price) searched st o s b d e Hst Ho Hs Hb Hd He
             Ss Sb Sd Hsane I Hnz). }
  repeat split; assumption.
Qed.

Lemma select_strike_by_table_witness :
  ∃ sel m,
    _select_strike_based_on_technicals [examples.call_110; examples.call_103]
      (VFloat (fl 100)) examples.bullish_signals = Ok sel
    ∧ sel_strategy sel = "defensive"
    ∧ sel_use_layered sel = false
    ∧ sel_option sel = Some m
    ∧ m_strike m = VFloat (fl 103).
Proof.
  assert (Hnum : Forall (λ opt, spec.numeric (get opt "strike" (VInt 0)))
                   [examples.call_110; examples.call_103]).
  { repeat constructor; eexists; reflexivity. }
  destruct (select_strike_by_table _ (fl 100) examples.bullish_signals Hnum)
    as (sel & Hsel & _ & Hfirst & _ & Hsome & Hlabel & Hlayered & _).
  match type of Hsome with
  | context [if is_empty ?p then ?a else ?b] =>
    assert (Hsearched : (if is_empty p then a else b)
                        = [examples.call_110; examples.call_103])
      by reflexivity;
    rewrite Hsearched in Hfirst, Hsome
  end.
  destruct (sel_option sel) as [m|] eqn:Hm.
  - exists sel, m. split; [ exact Hsel | ]. split; [ exact Hlabel | ].
    split; [ exact Hlayered | ]. split; [ exact Hm | ].
    destruct (Hfirst m eq_refl) as (i & o & Hi & Hmo & _ & Hall).
    destruct i as [|[|i]]; [ exfalso | | discriminate Hi ].
    + simpl in Hi. injection Hi as <-.
      destruct (Hall 1%nat examples.call_103 _ eq_refl eq_refl) as [Hgt _].
      vm_compute in Hmo. injection Hmo as <-. vm_compute in Hgt. discriminate Hgt.
    + simpl in Hi. injection Hi as <-.
      vm_compute in Hmo. injection Hmo as <-. reflexivity.
  - exfalso.
    apply (Hsome examples.call_103 (VFloat (fl 103)) (VFloat (fl 1.2)) (VInt 45)
             (VStr "2025-02-15")); try reflexivity; try exact I.
    + right. left.
    + split; vm_compute; exact I.
Defined.

(** ** The window and liquidity filter *)

Lemma comprehension_sublist {A} (p : A → result bool) (l kept : list A) :
  comprehension p l = Ok kept → kept `sublist_of` l.
Proof.
  revert kept. induction l as [|x l IH]; simpl; intros kept H.
  - injection H as <-. constructor.
  - inv_bind H. inv_bind H. injection H as <-.
    destruct a; [ apply sublist_skip | apply sublist_cons ]; apply IH; assumption.
Qed.

Lemma comprehension_elem {A} (p : A → result bool) (l kept : list A) :
  comprehension p l = Ok kept →
  ∀ x, x ∈ l → (x ∈ kept ∧ p x = Ok true) ∨ p x = Ok false.
Proof.
  revert kept. induction l as [|x l IH]; simpl; intros kept H y Hy.
  - apply elem_of_nil in Hy. contradiction.
  - inv_bind H. inv_bind H. injection H as <-.
    apply elem_of_cons in Hy as [->|Hy].
    + destruct a; [ left; split; [ apply list_elem_of_here | exact Ha ] | right; exact Ha ].
    + destruct (IH _ Ha0 y Hy) as [[Hin Hp]|Hp]; [ left | right; exact Hp ].
      split; [ | exact Hp ]. destruct a; [ apply list_elem_of_further | ]; exact Hin.
Qed.

Lemma comprehension_kept {A} (p : A → result bool) (l kept : list A) :
  comprehension p l = Ok kept → ∀ x, x ∈ kept → x ∈ l ∧ p x = Ok true.
Proof.
  revert kept. induction l as [|x l IH]; simpl; intros kept H y Hy.
  - injection H as <-. apply elem_of_nil in Hy. contradiction.
  - inv_bind H. inv_bind H. injection H as <-.
    destruct a.
    + apply elem_of_cons in Hy as [->|Hy].
      * split; [ apply list_elem_of_here | exact Ha ].
      * destruct (IH _ Ha0 y Hy) as [Hin Hp]. split; [ apply list_elem_of_further, Hin | exact Hp ].
    + destruct (IH _ Ha0 y Hy) as [Hin Hp]. split; [ apply list_elem_of_further, Hin | exact Hp ].
Qed.

Lemma comprehension_raises {A} (p : A → result bool) (l : list A) (x : A) :
  x ∈ l → (∃ e, p x = Raise e) → ∃ e, comprehension p l = Raise e.
Proof.
  intros Hx [e He]. induction l as [|y l IH]; simpl.
  - apply elem_of_nil in Hx. contradiction.
  - destruct (p y) as [c|e'] eqn:Hy; [ | eauto ]. cbn [bind].
    apply elem_of_cons in Hx as [->|Hx]; [ congruence | ].
    destruct (IH Hx) as [e' ->]. eauto.
Qed.

(** What [keeps] answers [True] on: the three fields are present and
    satisfy the four comparisons. *)
Lemma keeps_true (min_days max_days min_open_interest : Z) (opt : gmap string value) :
  options_tools.keeps min_days max_days min_open_interest opt = Ok true →
  ∃ d oi b,
    opt !! "days_to_expiry" = Some d
    ∧ py_le (VInt min_days) d = Ok true ∧ py_le d (VInt max_days) = Ok true
    ∧ opt !! "open_interest" = Some oi ∧ py_ge oi (VInt min_open_interest) = Ok true
    ∧ opt !! "bid" = Some b ∧ py_gt b (VInt 0) = Ok true.
Proof.
  unfold options_tools.keeps, item. intros H.
  destruct (opt !! "days_to_expiry") as [d|] eqn:Hd; [ | discriminate ]. cbn [bind] in H.
  destruct (py_le (VInt min_days) d) as [[]|] eqn:H1; try discriminate.
  cbn [bind negb] in H.
  destruct (py_le d (VInt max_days)) as [[]|] eqn:H2; try discriminate.
  cbn [bind negb] in H.
  destruct (opt !! "open_interest") as [oi|] eqn:Ho; [ | discriminate ]. cbn [bind] in H.
  destruct (py_ge oi (VInt min_open_interest)) as [[]|] eqn:H3; try discriminate.
  cbn [bind negb] in H.
  destruct (opt !! "bid") as [b|] eqn:Hb; [ | discriminate ]. cbn [bind] in H.
  exists d, oi, b. repeat split; assumption.
Qed.

(** The result of [filter_options], for every input: the count after the
    filter is the length of the filtered list, which is a sub-list of the
    chain, in its order; every option kept has its days to expiry between 7
    and 45, an open interest of 10 or more and a positive bid.  When the
    result carries no error, the count before the filter is the length of the
    chain and every option left out fails the condition; when it carries
    one, the filtered list is empty and both counts are zero. *)
Theorem filter_options_result (data : options_tools.options_data) :
  options_tools.total_after_filter (options_tools.filter_options data)
  = length (options_tools.filtered_options (options_tools.filter_options data))
  ∧ options_tools.filtered_options (options_tools.filter_options data)
    `sublist_of` options_tools.options data
  ∧ (∀ o, o ∈ options_tools.filtered_options (options_tools.filter_options data) →
       ∃ d oi b,
         o !! "days_to_expiry" = Some d
         ∧ py_le (VInt 7) d = Ok true ∧ py_le d (VInt 45) = Ok true
         ∧ o !! "open_interest" = Some oi ∧ py_ge oi (VInt 10) = Ok true
         ∧ o !! "bid" = Some b ∧ py_gt b (VInt 0) = Ok true)
  ∧ match options_tools.f_error (options_tools.filter_options data) with
    | None =>
      options_tools.total_before_filter (options_tools.filter_options data)
      = length (options_tools.options data)
      ∧ ∀ o, o ∈ options_tools.options data →
          o ∈ options_tools.filtered_options (options_tools.filter_options data)
          ∨ options_tools.keeps 7 45 10 o = Ok false
    | Some _ =>
      options_tools.filtered_options (options_tools.filter_options data) = []
      ∧ options_tools.total_before_filter (options_tools.filter_options data) = 0%nat
      ∧ options_tools.total_after_filter (options_tools.filter_options data) = 0%nat
    end.
Proof.
  unfold options_tools.filter_options, options_tools.filter_options_with.
  destruct (options_tools.truthy_text (options_tools.error data)) eqn:Herr.
  - cbn. destruct (options_tools.error data); [ | discriminate Herr ].
    split; [ reflexivity | ]. split; [ apply sublist_nil_l | ].
    split; [ intros o Ho; apply elem_of_nil in Ho; contradiction | ].
    cbn. repeat split.
  - destruct (comprehension _ _) as [kept|e] eqn:Hc; cbn.
    + split; [ reflexivity | ]. split; [ eapply comprehension_sublist, Hc | ].
      split.
      * intros o Ho. destruct (comprehension_kept _ _ _ Hc o Ho) as [_ Hk].
        apply keeps_true, Hk.
      * split; [ reflexivity | ]. intros o Ho.
        destruct (comprehension_elem _ _ _ Hc o Ho) as [[Hin _]|Hk]; auto.
    + split; [ reflexivity | ]. split; [ apply sublist_nil_l | ].
      split; [ intros o Ho; apply elem_of_nil in Ho; contradiction | ].
      repeat split.
Qed.

(** One malformed record voids the whole filter: when the chain holds a
    record without a numeric [days_to_expiry] (the key is missing, or its
    value is not a number), [filter_options] returns the error of its
    [except] clause, an empty list and zero counts, whatever the other
    records are. *)
Theorem filter_options_all_or_nothing
    (data : options_tools.options_data) (o : gmap string value) :
  options_tools.truthy_text (options_tools.error data) = false →
  o ∈ options_tools.options data →
  (∀ d, o !! "days_to_expiry" = Some d → ¬ spec.numeric d) →
  (∃ e, options_tools.f_error (options_tools.filter_options data)
        = Some (options_tools.Caught e))
  ∧ options_tools.filtered_options (options_tools.filter_options data) = []
  ∧ options_tools.total_before_filter (options_tools.filter_options data) = 0%nat
  ∧ options_tools.total_after_filter (options_tools.filter_options data) = 0%nat.
Proof.
  intros Herr Ho Hd.
  assert (Hr : ∃ e, options_tools.keeps 7 45 10 o = Raise e).
  { unfold options_tools.keeps, item.
    destruct (o !! "days_to_expiry") as [d|]; [ | eauto ]. cbn [bind].
    pose proof (Hd d eq_refl) as Hn. unfold spec.numeric in Hn.
    unfold py_le, py_compare. simpl.
    destruct (as_num d) as [n|]; [ exfalso; apply Hn; eauto | ].
    destruct d; simpl; eauto. }
  destruct (comprehension_raises _ _ o Ho Hr) as [e He].
  unfold options_tools.filter_options, options_tools.filter_options_with.
  rewrite Herr, He. cbn. eauto.
Qed.

Lemma filter_options_all_or_nothing_witness :
  options_tools.filtered_options
    (options_tools.filter_options
       {| options_tools.ticker := "AAPL";
          options_tools.options :=
            [examples.call_103; examples.call_110; delete "days_to_expiry" examples.call_103];
          options_tools.error := None |}) = [].
Proof.
  refine (proj1 (proj2 (filter_options_all_or_nothing _
                          (delete "days_to_expiry" examples.call_103) _ _ _))).
  - reflexivity.
  - cbn. apply list_elem_of_further, list_elem_of_further, list_elem_of_here.
  - intros d Hd. vm_compute in Hd. discriminate Hd.
Defined.

(** ** What the selection loops pick *)

Lemma int_cmp (a b : Z) : num_cmp (NInt a) (NInt b) = Some (a ?= b).
Proof.
  unfold num_cmp, exact, xcmp, Qcompare. simpl. rewrite !Z.mul_1_r. reflexivity.
Qed.

Lemma py_ge_not_lt (a b : value) : py_ge a b = Ok true → py_lt a b = Ok false.
Proof.
  unfold py_ge, py_lt, py_compare.
  destruct (as_num a) as [x|], (as_num b) as [y|].
  - destruct (num_cmp x y) as [[]|]; simpl; intros [= ]; reflexivity.
  - destruct a, b; try discriminate.
    destruct (String.compare _ _); simpl; intros [= ]; reflexivity.
  - destruct a, b; try discriminate.
    destruct (String.compare _ _); simpl; intros [= ]; reflexivity.
  - destruct a, b; try discriminate.
    destruct (String.compare _ _); simpl; intros [= ]; reflexivity.
Qed.

(** The option a best-by-yield loop started at [(None, -1)] ends with is
    the metrics of a member of the list. *)
Lemma best_loop_member (sp : value) (opts : list (gmap string value))
    (st : option metrics * value) (m : metrics) :
  best_loop sp (None, VInt (-1)) opts = Ok st → fst st = Some m →
  ∃ o, o ∈ opts ∧ calculate_option_metrics o sp = Metrics m.
Proof.
  intros Hst Hm.
  destruct (best_loop_spec sp opts None (VInt (-1)) st xval_minus_one Hst)
    as (_ & _ & _ & Hcase).
  destruct Hcase as [->|(i & o & m1 & Hi & Hm1 & -> & _)]; [ discriminate | ].
  simpl in Hm. injection Hm as ->.
  exists o. split; [ eapply list_elem_of_lookup_2, Hi | exact Hm1 ].
Qed.

Lemma select_option_member (opts : list (gmap string value)) (sp : value)
    (technical : gmap string value) (sel : strike_selection) (m : metrics) :
  _select_strike_based_on_technicals opts sp technical = Ok sel →
  sel_option sel = Some m →
  ∃ o, o ∈ opts ∧ calculate_option_metrics o sp = Metrics m.
Proof.
  unfold _select_strike_based_on_technicals. intros H Hm.
  inv_bind H. inv_bind H. inv_bind H. rename a1 into preferred, Ha1 into Hpref.
  inv_bind H. destruct a1 as [searched reason].
  inv_bind H. injection H as <-. simpl in Hm.
  rewrite highest_yield_best_loop in Ha2.
  destruct (best_loop_member _ _ _ _ Ha2 Hm) as (o & Ho & Hom).
  exists o. split; [ | exact Hom ].
  destruct (is_empty preferred).
  - inv_bind Ha1. inv_bind Ha1. injection Ha1 as <- _. exact Ho.
  - injection Ha1 as <- _. exact (proj1 (comprehension_kept _ _ _ Hpref o Ho)).
Qed.

(** ** The layers of a layered strategy *)

Lemma layer_contracts_at_least_one (contracts : Z) (pct v : value) :
  layer_contracts contracts pct = Ok v → ∃ k, v = VInt k ∧ 1 ≤ k.
Proof.
  unfold layer_contracts. intros H. inv_bind H. inv_bind H.
  assert (Hz : ∃ z, a0 = VInt z).
  { unfold py_int in Ha0. destruct (as_num a) as [[z|f]|]; try discriminate.
    - injection Ha0 as <-. eauto.
    - unfold map in Ha0. inv_bind Ha0. injection Ha0 as <-. eauto. }
  destruct Hz as [z ->]. unfold py_max, py_gt, py_compare in H.
  cbn [as_num bind] in H. rewrite int_cmp in H. cbn [bind] in H. injection H as <-.
  destruct (Z.compare_spec z 1); simpl; eexists; split; try reflexivity; lia.
Qed.

Lemma allocation_names (sentiment bounce_potential : value) :
  List.map name (allocations sentiment bounce_potential)
  = ["Conservative"; "Balanced"; "Aggressive"].
Proof.
  unfold allocations. destruct (py_in _ _); [ reflexivity | ].
  destruct (_ || _); reflexivity.
Qed.

Lemma add_layer_spec (opts : list (gmap string value)) (sp : value) (contracts : Z)
    (st st' : list layer * value) (alloc : allocation) :
  add_layer opts sp contracts st alloc = Ok st' →
  st' = st
  ∨ ∃ l, fst st' = fst st ++ [l]
         ∧ l_name l = name alloc
         ∧ (∃ k, l_contracts l = VInt k ∧ 1 ≤ k)
         ∧ ∃ o, o ∈ opts ∧ calculate_option_metrics o sp = Metrics (l_option l).
Proof.
  unfold add_layer. intros H.
  inv_bind H. rename a into n, Ha into Hn.
  inv_bind H. inv_bind H. inv_bind H. rename a1 into range_options, Ha1 into Hrange.
  inv_bind H. rename a1 into best, Ha1 into Hbest.
  destruct (fst best) as [m|] eqn:Hm; [ | injection H as <-; left; reflexivity ].
  inv_bind H. inv_bind H. inv_bind H. injection H as <-. right.
  eexists. split; [ reflexivity | ]. cbn [l_name l_contracts l_option].
  split; [ reflexivity | ]. split; [ eapply layer_contracts_at_least_one, Hn | ].
  rewrite highest_yield_best_loop in Hbest.
  destruct (best_loop_member _ _ _ _ Hbest Hm) as (o & Ho & Hom).
  exists o. split; [ | exact Hom ].
  destruct (is_empty range_options); [ exact Ho | ].
  exact (proj1 (comprehension_kept _ _ _ Hrange o Ho)).
Qed.

Lemma add_layers_spec (opts : list (gmap string value)) (sp : value) (contracts : Z)
    (allocs : list allocation) :
  ∀ st st', add_layers opts sp contracts st allocs = Ok st' →
  ∃ new,
    fst st' = fst st ++ new
    ∧ List.map l_name new `sublist_of` List.map name allocs
    ∧ Forall (λ l, (∃ k, l_contracts l = VInt k ∧ 1 ≤ k)
                   ∧ ∃ o, o ∈ opts ∧ calculate_option_metrics o sp = Metrics (l_option l))
        new.
Proof.
  induction allocs as [|alloc rest IH]; simpl; intros st st' H.
  - injection H as <-. exists []. rewrite app_nil_r.
    split; [ reflexivity | ]. split; constructor.
  - inv_bind H. destruct (IH _ _ H) as (new & Hnew & Hnames & Hall).
    destruct (add_layer_spec _ _ _ _ _ _ Ha) as [->|(l & Hl & Hname & Hk & Ho)].
    + exists new. split; [ exact Hnew | ]. split; [ apply sublist_cons, Hnames | exact Hall ].
    + exists (l :: new). rewrite Hnew, Hl, <- app_assoc. split; [ reflexivity | ].
      split; [ simpl; rewrite Hname; apply sublist_skip, Hnames | ].
      constructor; [ split; assumption | exact Hall ].
Qed.

Lemma sum_contracts_ints (ks : list Z) :
  ∀ (a : Z) (ls : list layer),
  List.map l_contracts ls = List.map VInt ks →
  sum_contracts (VInt a) ls = Ok (VInt (a + foldr Z.add 0 ks)).
Proof.
  induction ks as [|k ks IH]; intros a [|l ls] H; simpl in H; try discriminate.
  - simpl. rewrite Z.add_0_r. reflexivity.
  - injection H as Hl Hls. simpl. rewrite Hl. cbn [bind].
    change (py_add (VInt a) (VInt k)) with (@Ok value (VInt (a + k))). cbn [bind].
    rewrite (IH _ _ Hls). f_equal. f_equal. lia.
Qed.

Lemma create_layered_spec (opts : list (gmap string value)) (sp : value) (shares : Z)
    (technical : gmap string value) (L : layered) :
  _create_layered_strategy opts sp shares technical = Ok (Some L) →
  3 ≤ shares / 100
  ∧ layers L ≠ []
  ∧ List.map l_name (layers L) `sublist_of` ["Conservative"; "Balanced"; "Aggressive"]
  ∧ (∃ ks, List.map l_contracts (layers L) = List.map VInt ks
           ∧ Forall (λ k, 1 ≤ k) ks
           ∧ total_contracts L = VInt (foldr Z.add 0 ks))
  ∧ Forall (λ l, ∃ o, o ∈ opts ∧ calculate_option_metrics o sp = Metrics (l_option l))
      (layers L).
Proof.
  unfold _create_layered_strategy. intros H.
  destruct (Z.ltb_spec (shares / 100) 3) as [Hlt|Hge]; [ discriminate | ].
  inv_bind H. rename a into st, Ha into Hst.
  destruct (fst st) as [|l0 ls0] eqn:Hls; [ discriminate | ]. cbn [is_empty] in H.
  inv_bind H. injection H as <-. cbn [layers total_contracts].
  destruct (add_layers_spec _ _ _ _ _ _ Hst) as (new & Hnew & Hnames & Hall).
  rewrite allocation_names in Hnames. simpl in Hnew. rewrite Hls in Hnew. subst new.
  split; [ exact Hge | ]. split; [ discriminate | ]. split; [ exact Hnames | ].
  split.
  - assert (Hks : ∃ ks, List.map l_contracts (l0 :: ls0) = List.map VInt ks
                        ∧ Forall (λ k, 1 ≤ k) ks).
    { clear -Hall. induction Hall as [|l ls [(k & Hk & Hk1) _] _ (ks & Hks & Hks1)].
      - exists []. split; [ reflexivity | constructor ].
      - exists (k :: ks). simpl. rewrite Hk, Hks. split; [ reflexivity | ].
        constructor; assumption. }
    destruct Hks as (ks & Hks & Hks1). exists ks.
    split; [ exact Hks | ]. split; [ exact Hks1 | ].
    rewrite (sum_contracts_ints ks 0 _ Hks) in Ha. injection Ha as <-. reflexivity.
  - eapply Forall_impl; [ exact Hall | ]. intros l [_ Ho]. exact Ho.
Qed.

(** A layered strategy, whenever [_create_layered_strategy] returns one:
    the position has at least three contracts; there are between one and
    three layers, named in the order Conservative, Balanced, Aggressive;
    every layer has an int number of contracts that is at least 1, and
    [total_contracts] is their sum; every layer's option is the metrics of a
    candidate of the list. *)
Theorem layered_strategy_layers (opts : list (gmap string value)) (sp : value)
    (shares : Z) (technical : gmap string value) (L : layered) :
  _create_layered_strategy opts sp shares technical = Ok (Some L) →
  3 ≤ shares / 100
  ∧ (1 ≤ length (layers L) ≤ 3)%nat
  ∧ List.map l_name (layers L) `sublist_of` ["Conservative"; "Balanced"; "Aggressive"]
  ∧ (∃ ks, List.map l_contracts (layers L) = List.map VInt ks
           ∧ Forall (λ k, 1 ≤ k) ks
           ∧ total_contracts L = VInt (foldr Z.add 0 ks))
  ∧ Forall (λ l, ∃ o, o ∈ opts ∧ calculate_option_metrics o sp = Metrics (l_option l))
      (layers L).
Proof.
  intros H. destruct (create_layered_spec _ _ _ _ _ H) as (H3 & Hne & Hnames & Hks & Hopts).
  split; [ exact H3 | ]. split; [ | auto ].
  pose proof (sublist_length _ _ Hnames) as Hlen.
  rewrite length_map in Hlen. simpl in Hlen.
  destruct (layers L); [ congruence | simpl in *; lia ].
Qed.

Lemma layered_strategy_layers_witness :
  ∃ L,
    _create_layered_strategy [examples.call_103; examples.call_110] (VFloat (fl 100))
      1000 examples.mixed_signals = Ok (Some L)
    ∧ (1 ≤ length (layers L) ≤ 3)%nat.
Proof.
  destruct (_create_layered_strategy [examples.call_103; examples.call_110]
              (VFloat (fl 100)) 1000 examples.mixed_signals) as [[L|]|e] eqn:H;
    [ | vm_compute in H; discriminate H | vm_compute in H; discriminate H ].
  exists L. split; [ reflexivity | ].
  exact (proj1 (proj2 (layered_strategy_layers _ _ _ _ _ H))).
Defined.

(** ** The out-of-the-money filter and the option recommended *)

Lemma otm_metrics_not_itm (sp : value) (o : gmap string value) (m : metrics) :
  is_otm sp o = Ok true → calculate_option_metrics o sp = Metrics m → m_is_itm m = false.
Proof.
  unfold is_otm, get, calculate_option_metrics. intros Hotm.
  destruct (option_metrics_try o sp) as [m'|e] eqn:H; [ | discriminate ].
  intros [= <-]. unfold option_metrics_try, item in H.
  destruct (o !! "strike") as [s|]; [ | discriminate ]. cbn [bind] in H.
  change (default (VInt 0) (Some s)) with s in Hotm.
  apply py_ge_not_lt in Hotm.
  repeat inv_bind H. injection H as <-. simpl. congruence.
Qed.

(** After the orchestrator's out-of-the-money filter
    ([strike >= stock_price], applied when [otm_only] is set), no selection
    recommends an in-the-money option: the best option of
    [find_best_option], the option of the strike selection and the option
    of every layer of a layered strategy all have [is_itm = False]. *)
Theorem otm_filter_excludes_itm (opts kept : list (gmap string value)) (sp : value)
    (technical : gmap string value) :
  comprehension (is_otm sp) opts = Ok kept →
  (∀ m, best_option (find_best_option kept sp) = Some m → m_is_itm m = false)
  ∧ (∀ sel m,
       _select_strike_based_on_technicals kept sp technical = Ok sel →
       sel_option sel = Some m → m_is_itm m = false)
  ∧ (∀ shares L,
       _create_layered_strategy kept sp shares technical = Ok (Some L) →
       Forall (λ l, m_is_itm (l_option l) = false) (layers L)).
Proof.
  intros Hkept.
  assert (Hmember : ∀ o m, o ∈ kept → calculate_option_metrics o sp = Metrics m →
                           m_is_itm m = false).
  { intros o m Ho Hm. eapply otm_metrics_not_itm; [ | exact Hm ].
    exact (proj2 (comprehension_kept _ _ _ Hkept o Ho)). }
  split; [ | split ].
  - intros m Hm. destruct (best_loop_runs sp kept) as [st Hst].
    rewrite (find_best_option_loop kept sp st Hst) in Hm.
    destruct (best_loop_member _ _ _ _ Hst Hm) as (o & Ho & Hom). eauto.
  - intros sel m Hsel Hm.
    destruct (select_option_member _ _ _ _ _ Hsel Hm) as (o & Ho & Hom). eauto.
  - intros shares L HL.
    destruct (create_layered_spec _ _ _ _ _ HL) as (_ & _ & _ & _ & Hopts).
    eapply Forall_impl; [ exact Hopts | ]. intros l (o & Ho & Hom). eauto.
Qed.

Lemma otm_filter_excludes_itm_witness :
  ∃ m,
    best_option (find_best_option [examples.call_103; examples.call_110] (VFloat (fl 100)))
    = Some m
    ∧ m_is_itm m = false.
Proof.
  destruct (best_option (find_best_option [examples.call_103; examples.call_110]
                           (VFloat (fl 100)))) as [m|] eqn:H;
    [ | vm_compute in H; discriminate H ].
  exists m. split; [ reflexivity | ].
  refine (proj1 (otm_filter_excludes_itm
                   [examples.call_103; examples.call_110; examples.call_95]
                   [examples.call_103; examples.call_110] (VFloat (fl 100))
                   examples.mixed_signals _) m H).
  vm_compute. reflexivity.
Defined.

(** ** The sizes of the tiers of a layered strategy *)

(** [float(n)] is exact for a positive int below [2^53]. *)
Lemma float_of_int_exact (n : Z) :
  0 < n < 2 ^ 53 →
  ∃ mn en,
    float_of_int n = Ok (S754_finite false mn en)
    ∧ en = Zdigits2 n - 53 ∧ Zpos mn = n * 2 ^ (- en).
Proof.
  intros Hn. destruct n as [|p|p]; try lia.
  unfold float_of_int, binary_normalize, binary_round.
  pose proof (shl_align_spec p 0 (fexp prec emax (Zpos (digits2_pos p) + 0))) as Ha.
  destruct (shl_align p 0 _) as [mz ez]. destruct Ha as [Hez Hmz].
  change (Zpos (digits2_pos p)) with (Zdigits2 (Zpos p)) in Hez.
  rewrite fexp_eq in Hez.
  assert (HD : 1 ≤ Zdigits2 (Zpos p) ≤ 53).
  { split; [ simpl; lia | apply Zdigits2_le; lia ]. }
  assert (Hdz : Zdigits2 (Zpos mz) = Zdigits2 (Zpos p) - ez).
  { rewrite Hmz, Zdigits2_mul_pow2 by lia. lia. }
  rewrite binary_round_aux_exact by (rewrite fexp_eq; lia).
  change (emax - prec) with 971.
  destruct (Z.leb_spec ez 971) as [_|Hbig]; [ | lia ].
  cbn [is_infinity]. exists mz, ez. split; [ reflexivity | ].
  split; [ lia | ]. rewrite Hmz. repeat f_equal; lia.
Qed.

(** Two facts of integer arithmetic: the chain of roundings, and the
    room the scale leaves. *)
Lemma trunc_chain (k p m' q1 m T2 K2 K1 : Z) :
  0 ≤ k → 0 < T2 → 0 < K2 → 0 < K1 →
  k * T2 ≤ p → p * K2 ≤ m' → m' ≤ q1 + 1 → q1 * K1 ≤ m →
  k * (T2 * K2 * K1) ≤ m + K1.
Proof.
  intros Hk HT2 HK2 HK1 H1 H2 H3 H4.
  assert (Ha : k * T2 * K2 ≤ m').
  { etransitivity; [ apply Z.mul_le_mono_nonneg_r; [ lia | exact H1 ] | exact H2 ]. }
  assert (Hb : k * T2 * K2 * K1 ≤ (q1 + 1) * K1).
  { apply Z.mul_le_mono_nonneg_r; lia. }
  replace (k * (T2 * K2 * K1)) with (k * T2 * K2 * K1) by ring.
  replace ((q1 + 1) * K1) with (q1 * K1 + K1) in Hb by ring. lia.
Qed.

Lemma scale_room (n A B P mp m K k : Z) :
  0 < n < 2 ^ 40 → 2 ^ 13 ≤ A → 2 ^ 54 ≤ B → 0 ≤ P →
  100 * mp ≤ P * B + 64 → m = n * A * mp → 0 < K ≤ 2 ^ 53 → 0 ≤ k →
  k * (A * B) ≤ m + K → 100 * k ≤ n * P.
Proof.
  intros Hn HA HB HP Hpct Hm HK Hk H4.
  assert (H5 : 100 * m ≤ n * P * (A * B) + 64 * n * A).
  { subst m.
    assert (Hx : n * A * (100 * mp) ≤ n * A * (P * B + 64)).
    { apply Z.mul_le_mono_nonneg_l; [ nia | exact Hpct ]. }
    replace (100 * (n * A * mp)) with (n * A * (100 * mp)) by ring.
    replace (n * P * (A * B) + 64 * n * A) with (n * A * (P * B + 64)) by ring.
    exact Hx. }
  assert (H6 : 64 * n * A + 100 * K < A * B).
  { assert (Ha : 64 * n * A ≤ 64 * (2 ^ 40 - 1) * A).
    { apply Z.mul_le_mono_nonneg_r; lia. }
    assert (Hb : A * 2 ^ 54 ≤ A * B) by (apply Z.mul_le_mono_nonneg_l; lia).
    lia. }
  assert (H7 : 100 * (k * (A * B)) ≤ 100 * (m + K)) by lia.
  assert (H8 : 100 * k * (A * B) < (n * P + 1) * (A * B)).
  { replace (100 * k * (A * B)) with (100 * (k * (A * B))) by ring.
    replace ((n * P + 1) * (A * B)) with (n * P * (A * B) + A * B) by ring. lia. }
  assert (HAB : 0 < A * B) by (apply Z.mul_pos_pos; lia).
  apply Z.mul_lt_mono_pos_r in H8; [ lia | exact HAB ].
Qed.

(** The product of an int below [2^40] and a fraction [P/100] written as
    a binary64 literal, truncated: it does not exceed [n * P / 100]. *)
Lemma mul_trunc_bound (n : Z) (mn mp : positive) (en ep P : Z) :
  0 < n < 2 ^ 40 → en = Zdigits2 n - 53 → Zpos mn = n * 2 ^ (- en) →
  Zpos mp < 2 ^ 53 → -56 ≤ ep ≤ -54 → 0 ≤ P →
  100 * Zpos mp ≤ P * 2 ^ (- ep) + 64 →
  ∃ k,
    trunc_float (SF64mul (S754_finite false mn en) (S754_finite false mp ep)) = Ok k
    ∧ 0 ≤ k ∧ 100 * k ≤ n * P.
Proof.
  intros Hn Hen Hmn Hmp Hep HP Hpct.
  change (SF64mul (S754_finite false mn en) (S754_finite false mp ep))
    with (binary_round_aux prec emax false (Zpos (mn * mp)) (en + ep) loc_Exact).
  assert (Hd : 1 ≤ Zdigits2 n ≤ 40).
  { split; [ destruct n; simpl; lia | apply Zdigits2_le; lia ]. }
  set (A := 2 ^ (- en)) in *. set (B := 2 ^ (- ep)).
  assert (HA : 2 ^ 13 ≤ A) by (apply Z.pow_le_mono_r; lia).
  assert (HB : 2 ^ 54 ≤ B) by (apply Z.pow_le_mono_r; lia).
  assert (Hmn53 : Zpos mn < 2 ^ 53).
  { rewrite Hmn. unfold A. pose proof (Zdigits2_bound n ltac:(lia)) as Hb.
    replace 53 with (Zdigits2 n + (- en)) by lia. rewrite Z.pow_add_r by lia.
    apply Z.mul_lt_mono_pos_r; [ apply Z.pow_pos_nonneg; lia | exact Hb ]. }
  set (m := Zpos (mn * mp)). set (e := en + ep).
  assert (Hm : m = Zpos mn * Zpos mp) by reflexivity.
  assert (Hm0 : 0 < m) by (unfold m; lia).
  assert (HD : Zdigits2 m ≤ 106).
  { apply Zdigits2_le; [ lia | lia | ].
    change (2 ^ 106) with (2 ^ 53 * 2 ^ 53). rewrite Hm.
    apply Z.mul_lt_mono_nonneg; lia. }
  destruct (binary_round_aux_anatomy false m e loc_Exact ltac:(lia)) as (m' & Hb & Heq).
  rewrite Heq. clear Heq. cbv zeta.
  set (k1 := Z.max 0 (Z.max (Zdigits2 m + e - 53) (-1074) - e)) in *.
  assert (Hk1 : 0 ≤ k1 ≤ 53) by (unfold k1, e; lia).
  assert (Hk1' : Zdigits2 m - 53 ≤ k1) by (unfold k1; lia).
  assert (Hq1 : m / 2 ^ k1 < 2 ^ 53).
  { pose proof (Zdigits2_bound m ltac:(lia)) as Hbm.
    pose proof (Zdigits2_nonneg m) as Hnn.
    destruct (Z.le_gt_cases (Zdigits2 m) 53) as [Hle|Hgt].
    - assert (k1 = 0) as -> by (unfold k1, e; lia). rewrite Z.pow_0_r, Z.div_1_r.
      eapply Z.lt_le_trans; [ exact Hbm | apply Z.pow_le_mono_r; lia ].
    - assert (k1 = Zdigits2 m - 53) as -> by (unfold k1, e; lia).
      replace 53 with (Zdigits2 m - (Zdigits2 m - 53)) at 2 by lia.
      apply div_pow2_lt; [ lia | exact Hbm ]. }
  assert (Hq0 : 0 ≤ m / 2 ^ k1) by (apply Z.div_pos; [ | apply Z.pow_pos_nonneg ]; lia).
  assert (Hm' : 0 ≤ m' ≤ 2 ^ 53) by lia.
  assert (HD' : Zdigits2 m' ≤ 54) by (apply Zdigits2_le; lia).
  set (e1 := e + k1) in *.
  set (k2 := Z.max 0 (Z.max (Zdigits2 m' + e1 - 53) (-1074) - e1)) in *.
  assert (Hk2 : 0 ≤ k2 ≤ 1) by (unfold k2, e1, e; lia).
  assert (He2 : e1 + k2 < 0) by (unfold e1, e; lia).
  assert (Hq2 : 0 ≤ m' / 2 ^ k2) by (apply Z.div_pos; [ | apply Z.pow_pos_nonneg ]; lia).
  destruct (m' / 2 ^ k2) as [|p|p] eqn:Hm2; [ | | lia ].
  - exists 0. split; [ reflexivity | ]. split; [ lia | ].
    apply Z.mul_nonneg_nonneg; lia.
  - destruct (Z.leb_spec (e1 + k2) 971) as [_|Hbig]; [ | lia ].
    cbn [trunc_float]. destruct (Z.leb_spec 0 (e1 + k2)) as [Hpos|_]; [ lia | ].
    cbn [cond_Zopp]. eexists. split; [ reflexivity | ].
    set (k := Zpos p / 2 ^ (- (e1 + k2))).
    assert (HT2 : 0 < 2 ^ (- (e1 + k2))) by (apply Z.pow_pos_nonneg; lia).
    assert (HK2 : 0 < 2 ^ k2) by (apply Z.pow_pos_nonneg; lia).
    assert (HK1 : 0 < 2 ^ k1) by (apply Z.pow_pos_nonneg; lia).
    assert (Hk0 : 0 ≤ k) by (apply Z.div_pos; lia).
    split; [ exact Hk0 | ].
    assert (H1 : k * 2 ^ (- (e1 + k2)) ≤ Zpos p).
    { unfold k. rewrite Z.mul_comm. apply Z.mul_div_le. exact HT2. }
    assert (H2 : Zpos p * 2 ^ k2 ≤ m').
    { rewrite <- Hm2, Z.mul_comm. apply Z.mul_div_le. exact HK2. }
    assert (H3 : (m / 2 ^ k1) * 2 ^ k1 ≤ m).
    { rewrite Z.mul_comm. apply Z.mul_div_le. exact HK1. }
    assert (HT : 2 ^ (- (e1 + k2)) * 2 ^ k2 * 2 ^ k1 = A * B).
    { unfold A, B. rewrite <- !Z.pow_add_r by lia. f_equal. unfold e1, e. lia. }
    assert (HK1b : 2 ^ k1 ≤ 2 ^ 53) by (apply Z.pow_le_mono_r; lia).
    assert (H4 : k * (A * B) ≤ m + 2 ^ k1).
    { rewrite <- HT.
      exact (trunc_chain k (Zpos p) m' (m / 2 ^ k1) m _ _ _ Hk0 HT2 HK2 HK1 H1 H2
               (proj2 Hb) H3). }
    apply (scale_room n A B P (Zpos mp) m (2 ^ k1) k);
      first [ assumption | lia | rewrite Hm, Hmn; reflexivity ].
Qed.

(** The three tables never hand out more than the position has. *)
Ltac by_quotients :=
  intros;
  repeat match goal with
         | H : context [?a / 100] |- _ =>
           let q := fresh "q" in
           let r := fresh "r" in
           pose proof (Z.div_mod a 100 ltac:(lia));
           pose proof (Z.mod_pos_bound a 100 ltac:(lia));
           set (q := a / 100) in *; set (r := a mod 100) in *;
           clearbody q r
         end;
  lia.
Lemma three_tiers_40 (n c1 c2 c3 : Z) :
  3 ≤ n → c1 ≤ Z.max 1 (n * 40 / 100) → c2 ≤ Z.max 1 (n * 40 / 100) →
  c3 ≤ Z.max 1 (n * 20 / 100) → c1 + c2 + c3 ≤ n.
Proof. by_quotients. Qed.
Lemma three_tiers_33 (n c1 c2 c3 : Z) :
  3 ≤ n → c1 ≤ Z.max 1 (n * 33 / 100) → c2 ≤ Z.max 1 (n * 34 / 100) →
  c3 ≤ Z.max 1 (n * 33 / 100) → c1 + c2 + c3 ≤ n.
Proof. by_quotients. Qed.
Lemma three_tiers_30 (n c1 c2 c3 : Z) :
  3 ≤ n → c1 ≤ Z.max 1 (n * 30 / 100) → c2 ≤ Z.max 1 (n * 40 / 100) →
  c3 ≤ Z.max 1 (n * 30 / 100) → c1 + c2 + c3 ≤ n.
Proof. by_quotients. Qed.

(** The size of a tier: [max(1, int(n * pct))] is at least 1 and at most
    [max(1, n * P / 100)], for [pct] the binary64 literal of [P/100]. *)
Lemma layer_contracts_bound (n : Z) (pct : spec_float) (mp : positive) (ep P : Z) :
  0 < n < 2 ^ 40 → pct = S754_finite false mp ep →
  Zpos mp < 2 ^ 53 → -56 ≤ ep ≤ -54 → 0 ≤ P →
  100 * Zpos mp ≤ P * 2 ^ (- ep) + 64 →
  ∃ c, layer_contracts n (VFloat pct) = Ok (VInt c) ∧ 1 ≤ c ≤ Z.max 1 (n * P / 100).
Proof.
  intros Hn -> Hmp Hep HP Hpct.
  destruct (float_of_int_exact n) as (mn & en & Hf & Hen & Hmn).
  { split; [ lia | ]. eapply Z.lt_trans; [ apply Hn | reflexivity ]. }
  destruct (mul_trunc_bound n mn mp en ep P Hn Hen Hmn Hmp Hep HP Hpct)
    as (k & Hk & Hk0 & Hkb).
  unfold layer_contracts, py_mul, num_arith. cbn [as_num to_float].
  rewrite Hf. cbn [bind map]. unfold py_int. cbn [as_num]. unfold map.
  rewrite Hk. cbn [bind].
  unfold py_max, py_gt, py_compare. cbn [as_num]. rewrite int_cmp. cbn [bind].
  assert (Hdiv : k ≤ n * P / 100) by (apply Z.div_le_lower_bound; lia).
  destruct (Z.compare_spec k 1); cbn [is_gt]; eexists; (split; [ reflexivity | lia ]).
Qed.

(** The three tables of [_create_layered_strategy], by their percentages. *)
Lemma allocation_tables (sentiment bounce_potential : value) :
  List.map pct (allocations sentiment bounce_potential)
  = [VFloat (fl 0.40); VFloat (fl 0.40); VFloat (fl 0.20)]
  ∨ List.map pct (allocations sentiment bounce_potential)
    = [VFloat (fl 0.33); VFloat (fl 0.34); VFloat (fl 0.33)]
  ∨ List.map pct (allocations sentiment bounce_potential)
    = [VFloat (fl 0.30); VFloat (fl 0.40); VFloat (fl 0.30)].
Proof.
  unfold allocations. destruct (py_in _ _); [ left; reflexivity | ].
  destruct (_ || _); [ right; left | right; right ]; reflexivity.
Qed.

Lemma tier_sizes (n : Z) (sentiment bounce_potential : value) :
  3 ≤ n < 2 ^ 40 →
  ∃ cs,
    Forall2 (λ p c, layer_contracts n p = Ok (VInt c))
      (List.map pct (allocations sentiment bounce_potential)) cs
    ∧ Forall (λ c, 1 ≤ c) cs
    ∧ foldr Z.add 0 cs ≤ n.
Proof.
  intros Hn. assert (Hn' : 0 < n < 2 ^ 40) by lia.
  destruct (allocation_tables sentiment bounce_potential) as [ -> | [ -> | -> ] ].
  - destruct (layer_contracts_bound n (fl 0.40) 7205759403792794 (-54) 40 Hn' eq_refl) as (c1 & H1 & B1);
      [ reflexivity | lia | lia | vm_compute; discriminate | ].
    destruct (layer_contracts_bound n (fl 0.20) 7205759403792794 (-55) 20 Hn' eq_refl) as (c3 & H3 & B3);
      [ reflexivity | lia | lia | vm_compute; discriminate | ].
    exists [c1; c1; c3]. split; [ repeat constructor; assumption | ].
    split; [ repeat constructor; lia | ].
    cbn [foldr]. pose proof (three_tiers_40 n c1 c1 c3). lia.
  - destruct (layer_contracts_bound n (fl 0.33) 5944751508129055 (-54) 33 Hn' eq_refl) as (c1 & H1 & B1);
      [ reflexivity | lia | lia | vm_compute; discriminate | ].
    destruct (layer_contracts_bound n (fl 0.34) 6124895493223875 (-54) 34 Hn' eq_refl) as (c2 & H2 & B2);
      [ reflexivity | lia | lia | vm_compute; discriminate | ].
    exists [c1; c2; c1]. split; [ repeat constructor; assumption | ].
    split; [ repeat constructor; lia | ].
    cbn [foldr]. pose proof (three_tiers_33 n c1 c2 c1). lia.
  - destruct (layer_contracts_bound n (fl 0.30) 5404319552844595 (-54) 30 Hn' eq_refl) as (c1 & H1 & B1);
      [ reflexivity | lia | lia | vm_compute; discriminate | ].
    destruct (layer_contracts_bound n (fl 0.40) 7205759403792794 (-54) 40 Hn' eq_refl) as (c2 & H2 & B2);
      [ reflexivity | lia | lia | vm_compute; discriminate | ].
    exists [c1; c2; c1]. split; [ repeat constructor; assumption | ].
    split; [ repeat constructor; lia | ].
    cbn [foldr]. pose proof (three_tiers_30 n c1 c2 c1). lia.
Qed.

Lemma add_layer_contracts (opts : list (gmap string value)) (sp : value) (contracts : Z)
    (st st' : list layer * value) (alloc : allocation) :
  add_layer opts sp contracts st alloc = Ok st' →
  fst st' = fst st
  ∨ ∃ l, fst st' = fst st ++ [l]
         ∧ layer_contracts contracts (pct alloc) = Ok (l_contracts l).
Proof.
  unfold add_layer. intros H.
  inv_bind H. rename a into n, Ha into Hn.
  inv_bind H. inv_bind H. inv_bind H. inv_bind H. rename a2 into best.
  destruct (fst best) as [m|]; [ | injection H as <-; left; reflexivity ].
  inv_bind H. inv_bind H. inv_bind H. injection H as <-. right.
  eexists. split; [ reflexivity | exact Hn ].
Qed.

Lemma add_layers_sum (opts : list (gmap string value)) (sp : value) (n : Z)
    (allocs : list allocation) (cs : list Z) :
  Forall2 (λ p c, layer_contracts n p = Ok (VInt c)) (List.map pct allocs) cs →
  Forall (λ c, 1 ≤ c) cs →
  ∀ st st', add_layers opts sp n st allocs = Ok st' →
  ∃ new ks,
    fst st' = fst st ++ new
    ∧ List.map l_contracts new = List.map VInt ks
    ∧ Forall (λ k, 1 ≤ k) ks
    ∧ foldr Z.add 0 ks ≤ foldr Z.add 0 cs.
Proof.
  revert cs. induction allocs as [|alloc rest IH]; intros cs Hcs Hpos st st' H.
  - simpl in H. injection H as <-. exists [], []. rewrite app_nil_r.
    apply Forall2_nil_inv_l in Hcs as ->.
    split; [ reflexivity | ]. split; [ reflexivity | ]. split; [ constructor | reflexivity ].
  - cbn [List.map] in Hcs. apply Forall2_cons_inv_l in Hcs as (c & cs' & Hc & Hcs' & ->).
    apply Forall_cons in Hpos as [Hc1 Hpos'].
    simpl in H. inv_bind H.
    destruct (IH cs' Hcs' Hpos' _ _ H) as (new & ks & Hnew & Hks & Hks1 & Hsum).
    destruct (add_layer_contracts _ _ _ _ _ _ Ha) as [Hsame|(l & Hl & Hlc)].
    + exists new, ks. rewrite Hnew, Hsame. split; [ reflexivity | ].
      split; [ exact Hks | ]. split; [ exact Hks1 | ]. cbn [foldr]. lia.
    + exists (l :: new), (c :: ks). rewrite Hnew, Hl, <- app_assoc.
      split; [ reflexivity | ]. rewrite Hc in Hlc. injection Hlc as Hlc.
      split; [ cbn [List.map]; rewrite <- Hlc, Hks; reflexivity | ].
      split; [ constructor; assumption | ]. cbn [foldr]. lia.
Qed.

(** A layered strategy never allocates more contracts than the position
    has: for a position of fewer than [2^40] contracts, [total_contracts]
    is an int between 1 and [shares // 100]. *)
Theorem layered_total_within_position (opts : list (gmap string value)) (sp : value)
    (shares : Z) (technical : gmap string value) (L : layered) :
  _create_layered_strategy opts sp shares technical = Ok (Some L) →
  shares / 100 < 2 ^ 40 →
  ∃ total, total_contracts L = VInt total ∧ 1 ≤ total ≤ shares / 100.
Proof.
  unfold _create_layered_strategy. intros H Hsmall.
  destruct (Z.ltb_spec (shares / 100) 3) as [Hlt|Hge]; [ discriminate | ].
  inv_bind H. rename a into st, Ha into Hst.
  destruct (tier_sizes (shares / 100)
              (get technical "sentiment" (VStr "neutral"))
              (get technical "bounce_potential" VNone) ltac:(lia))
    as (cs & Hcs & Hpos & Hsum).
  destruct (add_layers_sum _ _ _ _ _ Hcs Hpos _ _ Hst) as (new & ks & Hnew & Hks & Hks1 & Hle).
  cbn [fst app] in Hnew. rewrite Hnew in H.
  destruct new as [|l0 ls0]; [ discriminate | ]. cbn [is_empty] in H.
  inv_bind H. injection H as <-. cbn [total_contracts].
  rewrite (sum_contracts_ints ks 0 _ Hks) in Ha. injection Ha as <-.
  eexists. split; [ reflexivity | ].
  destruct ks as [|k ks]; [ discriminate | ].
  apply Forall_cons in Hks1 as [Hk1 Hks1].
  assert (Hnn : 0 ≤ foldr Z.add 0 ks).
  { clear -Hks1. induction Hks1; cbn [foldr]; lia. }
  cbn [foldr] in *. lia.
Qed.

Lemma layered_total_within_position_witness :
  ∃ L total,
    _create_layered_strategy [examples.call_103; examples.call_110] (VFloat (fl 100))
      1000 examples.mixed_signals = Ok (Some L)
    ∧ total_contracts L = VInt total ∧ 1 ≤ total ≤ 10.
Proof.
  destruct (_create_layered_strategy [examples.call_103; examples.call_110]
              (VFloat (fl 100)) 1000 examples.mixed_signals) as [[L|]|e] eqn:H;
    [ | vm_compute in H; discriminate H | vm_compute in H; discriminate H ].
  destruct (layered_total_within_position _ _ _ _ _ H) as (total & Ht & Hb);
    [ reflexivity | ].
  exists L, total. split; [ reflexivity | ]. split; [ exact Ht | exact Hb ].
Defined.

(** ** Maximum profit *)

(** [float(z)] of a positive int is a finite float of value at least 1. *)
Lemma binary_round_int_value (s : bool) (m : positive) :
  match binary_round prec emax s m 0 with
  | S754_finite t p e => t = s ∧ 1 ≤ Zdigits2 (Zpos p) + e
  | S754_infinity t => t = s
  | _ => False
  end.
Proof.
  unfold binary_round.
  pose proof (shl_align_spec m 0 (fexp prec emax (Zpos (digits2_pos m) + 0))) as Ha.
  destruct (shl_align m 0 _) as [mz ez]. destruct Ha as [Hez Hmz].
  change (Zpos (digits2_pos m)) with (Zdigits2 (Zpos m)) in Hez.
  rewrite fexp_eq in Hez.
  assert (HD : 1 ≤ Zdigits2 (Zpos m)) by (simpl; lia).
  assert (Hdz : Zdigits2 (Zpos mz) = Zdigits2 (Zpos m) - ez).
  { rewrite Hmz, Zdigits2_mul_pow2 by lia. lia. }
  destruct (binary_round_aux_anatomy s (Zpos mz) ez loc_Exact) as (m' & Hb & Heq); [ lia | ].
  cbv zeta in Heq.
  set (k1 := Z.max 0 (Z.max (Zdigits2 (Zpos mz) + ez - 53) (-1074) - ez)) in *.
  assert (Hk1 : Zdigits2 (Zpos mz) - 1 - k1 = 52) by lia.
  assert (Hlow : 2 ^ 52 ≤ Zpos mz / 2 ^ k1).
  { apply Z.div_le_lower_bound; [ apply Z.pow_pos_nonneg; lia | ].
    rewrite <- Z.pow_add_r by lia.
    replace (k1 + 52) with (Zdigits2 (Zpos mz) - 1) by lia.
    apply Zdigits2_pos_lower. lia. }
  assert (Hup : Zpos mz / 2 ^ k1 < 2 ^ 53).
  { replace 53 with (Zdigits2 (Zpos mz) - k1) by lia.
    apply div_pow2_lt; [ lia | apply Zdigits2_bound; lia ]. }
  assert (Hd' : Zdigits2 m' ≤ 54) by (apply Zdigits2_le; lia).
  set (k2 := Z.max 0 (Z.max (Zdigits2 m' + (ez + k1) - 53) (-1074) - (ez + k1))) in *.
  assert (Hk2 : 0 ≤ k2 ≤ 1) by lia.
  assert (Hm2 : 2 ^ 52 ≤ m' / 2 ^ k2).
  { destruct (Z.eq_dec k2 0) as [Hk|Hk].
    - rewrite Hk, Z.pow_0_r, Z.div_1_r. lia.
    - assert (Hd54 : 54 ≤ Zdigits2 m') by (unfold k2 in Hk, Hk2; lia).
      assert (Hk' : k2 = 1) by lia. rewrite Hk'.
      pose proof (Zdigits2_pos_lower m' ltac:(lia)) as Hlo.
      assert (2 ^ 53 ≤ m').
      { eapply Z.le_trans; [ | exact Hlo ]. apply Z.pow_le_mono_r; lia. }
      apply Z.div_le_lower_bound; [ lia | ]. change (2 ^ 1 * 2 ^ 52) with (2 ^ 53). lia. }
  rewrite Heq.
  destruct (m' / 2 ^ k2) as [|p|p] eqn:Hp; [ lia | | lia ].
  destruct (_ <=? _); [ | reflexivity ]. split; [ reflexivity | ].
  assert (Hdp : 53 ≤ Zdigits2 (Zpos p)).
  { destruct (Z.le_gt_cases 53 (Zdigits2 (Zpos p))) as [H|H]; [ exact H | ].
    assert (Hle : Zdigits2 (Zpos p) ≤ 52) by lia.
    apply Zdigits2_le in Hle; lia. }
  lia.
Qed.

Lemma float_of_int_positive (z : Z) (f : spec_float) :
  0 < z → float_of_int z = Ok f →
  ∃ m e, f = S754_finite false m e ∧ 1 ≤ Zdigits2 (Zpos m) + e.
Proof.
  intros Hz. unfold float_of_int, binary_normalize. destruct z as [|p|p]; try lia.
  pose proof (binary_round_int_value false p) as H.
  destruct (binary_round prec emax false p 0) as [s|s| |s m e]; simpl;
    try contradiction; try discriminate.
  intros [= <-]. destruct H as [-> H]. eauto.
Qed.

Lemma Zdigits2_mul_lower (a b : Z) :
  0 < a → 0 < b → Zdigits2 a + Zdigits2 b - 1 ≤ Zdigits2 (a * b).
Proof.
  intros Ha Hb.
  pose proof (Zdigits2_pos_lower a Ha) as La. pose proof (Zdigits2_pos_lower b Hb) as Lb.
  assert (Da : 1 ≤ Zdigits2 a) by (destruct a; simpl in *; lia).
  assert (Db : 1 ≤ Zdigits2 b) by (destruct b; simpl in *; lia).
  destruct (Z.le_gt_cases (Zdigits2 a + Zdigits2 b - 1) (Zdigits2 (a * b))) as [H|H];
    [ exact H | exfalso ].
  assert (H' : Zdigits2 (a * b) ≤ Zdigits2 a + Zdigits2 b - 2) by lia.
  apply Zdigits2_le in H'; [ | nia | lia ].
  replace (Zdigits2 a + Zdigits2 b - 2) with ((Zdigits2 a - 1) + (Zdigits2 b - 1)) in H'
    by lia.
  rewrite Z.pow_add_r in H' by lia.
  assert (2 ^ (Zdigits2 a - 1) * 2 ^ (Zdigits2 b - 1) ≤ a * b).
  { apply Z.mul_le_mono_nonneg; try assumption; apply Z.pow_nonneg; lia. }
  lia.
Qed.

(** The product of a non-zero binary64 number and a float of value 1 or
    more does not underflow to zero. *)
Lemma SF64mul_no_underflow (sx sy : bool) (mx my : positive) (ex ey : Z) :
  -1074 ≤ ex → 1 ≤ Zdigits2 (Zpos my) + ey →
  is_zero (SF64mul (S754_finite sx mx ex) (S754_finite sy my ey)) = false.
Proof.
  intros Hex Hy.
  change (SF64mul (S754_finite sx mx ex) (S754_finite sy my ey))
    with (binary_round_aux prec emax (xorb sx sy) (Zpos (mx * my)) (ex + ey) loc_Exact).
  remember (Zpos (mx * my)) as m eqn:Hm. remember (ex + ey) as e eqn:He.
  rewrite Pos2Z.inj_mul in Hm.
  assert (Hm0 : 0 < m) by lia.
  assert (Dx : 1 ≤ Zdigits2 (Zpos mx)) by (simpl; lia).
  assert (Dy : 1 ≤ Zdigits2 (Zpos my)) by (simpl; lia).
  pose proof (Zdigits2_mul_lower (Zpos mx) (Zpos my) ltac:(lia) ltac:(lia)) as HD.
  rewrite <- Hm in HD.
  destruct (binary_round_aux_anatomy (xorb sx sy) m e loc_Exact ltac:(lia))
    as (m' & Hb & Heq).
  rewrite Heq. clear Heq. cbv zeta.
  set (k1 := Z.max 0 (Z.max (Zdigits2 m + e - 53) (-1074) - e)) in *.
  assert (Hk1 : 0 ≤ k1 ≤ Zdigits2 m - 1) by (unfold k1; lia).
  assert (Hq1 : 1 ≤ m / 2 ^ k1).
  { apply Z.div_le_lower_bound; [ apply Z.pow_pos_nonneg; lia | ].
    rewrite Z.mul_1_r. eapply Z.le_trans; [ | apply Zdigits2_pos_lower, Hm0 ].
    apply Z.pow_le_mono_r; lia. }
  assert (Hm' : 1 ≤ m') by lia.
  assert (D' : 1 ≤ Zdigits2 m') by (destruct m'; simpl; lia).
  set (e1 := e + k1) in *.
  set (k2 := Z.max 0 (Z.max (Zdigits2 m' + e1 - 53) (-1074) - e1)) in *.
  assert (Hk2 : 0 ≤ k2 ≤ Zdigits2 m' - 1) by (unfold k2, e1, k1; lia).
  assert (Hq2 : 1 ≤ m' / 2 ^ k2).
  { apply Z.div_le_lower_bound; [ apply Z.pow_pos_nonneg; lia | ].
    rewrite Z.mul_1_r. eapply Z.le_trans; [ | apply Zdigits2_pos_lower; lia ].
    apply Z.pow_le_mono_r; lia. }
  destruct (m' / 2 ^ k2) as [|p|p]; [ lia | | lia ].
  destruct (_ <=? _); reflexivity.
Qed.

Lemma valid_exponent (s : bool) (m : positive) (e : Z) :
  SpecFloat.valid_binary prec emax (S754_finite s m e) = true → -1074 ≤ e.
Proof.
  unfold SpecFloat.valid_binary, bounded, canonical_mantissa. intros H.
  apply andb_true_iff in H as [H _]. apply Z.eqb_eq in H.
  rewrite fexp_eq in H. lia.
Qed.

(** [stock_price * shares] is zero exactly when the stock price is. *)
Lemma invested_zero (sp fs : spec_float) (shares : Z) :
  SpecFloat.valid_binary prec emax sp = true → 0 < shares → float_of_int shares = Ok fs →
  is_zero (SF64mul sp fs) = is_zero sp.
Proof.
  intros Hv Hs Hf.
  destruct (float_of_int_positive shares fs Hs Hf) as (ms & es & -> & Hval).
  destruct sp as [s|s| |s m e]; try reflexivity.
  cbn [is_zero]. apply SF64mul_no_underflow; [ eapply valid_exponent, Hv | exact Hval ].
Qed.

(** [calculate_max_profit] on float prices (any binary64 value, not-a-number
    and the infinities included) and a positive number of shares that
    [float()] can convert: the call fails exactly when the stock price is a
    zero, and then with the division error, which the [except] turns into
    the error dictionary; for every other stock price it returns the
    dictionary of profits, with [contracts = shares // 100], the share count
    and the two per-share amounts rounded to cents.  In particular
    [stock_price * shares] never underflows to zero. *)
Theorem max_profit_fails_at_zero_price (stock_price strike premium : spec_float)
    (shares : Z) :
  SpecFloat.valid_binary prec emax stock_price = true → 0 < shares < 2 ^ 1023 →
  if is_zero stock_price then
    calculate_max_profit (VFloat stock_price) (VFloat strike) (VFloat premium) shares
    = inr ZeroDivisionError
  else
    ∃ r,
      calculate_max_profit (VFloat stock_price) (VFloat strike) (VFloat premium) shares
      = inl r
      ∧ mp_contracts r = shares / 100 ∧ mp_shares r = shares
      ∧ mp_capital_gain_per_share r = VFloat (round_float (SF64sub strike stock_price) 2)
      ∧ mp_premium_per_share r = VFloat (round_float premium 2).
Proof.
  intros Hv Hs.
  destruct (float_of_int_total shares) as (fs & Hfs & _).
  { lia. }
  pose proof (invested_zero stock_price fs shares Hv ltac:(lia) Hfs) as Hz.
  unfold calculate_max_profit.
  change (py_sub (VFloat strike) (VFloat stock_price))
    with (@Ok value (VFloat (SF64sub strike stock_price))).
  cbn [bind]. rewrite !(py_mul_float_int _ shares fs Hfs). cbn [bind].
  change (py_add (VFloat ?a) (VFloat ?b)) with (@Ok value (VFloat (SF64add a b))).
  cbn [bind].
  unfold py_truediv, num_arith. cbn [as_num to_float bind]. unfold float_truediv.
  rewrite Hz. destruct (is_zero stock_price); [ reflexivity | ].
  cbn [map bind]. rewrite py_mul_100. cbn [bind].
  unfold py_round. cbn [as_num bind].
  eexists. split; [ reflexivity | ]. repeat split.
Qed.

Lemma max_profit_fails_at_zero_price_witness :
  ∃ r,
    calculate_max_profit (VFloat (fl 100)) (VFloat (fl 103)) (VFloat (fl 1.2)) 300 = inl r
    ∧ mp_contracts r = 3.
Proof.
  pose proof (max_profit_fails_at_zero_price (fl 100) (fl 103) (fl 1.2) 300) as H.
  assert (H1 : SpecFloat.valid_binary prec emax (fl 100) = true) by reflexivity.
  assert (H2 : 0 < 300 < 2 ^ 1023) by (split; reflexivity).
  specialize (H H1 H2). change (is_zero (fl 100)) with false in H. cbv iota in H.
  destruct H as (r & Hr & Hc & _). exists r. split; [ exact Hr | ].
  rewrite Hc. reflexivity.
Defined.

(** ** The oversold and overbought overrides of the technical aggregation *)

Lemma gt_70_not_lt_35 (rsi : value) :
  py_gt rsi (VInt 70) = Ok true → py_lt rsi (VInt 35) = Ok false.
Proof.
  unfold py_gt, py_lt, py_compare.
  destruct (as_num rsi) as [n|]; [ | destruct rsi; discriminate ].
  cbn [as_num]. unfold num_cmp. cbn [exact].
  change (inject_Z 70) with 70%Q. change (inject_Z 35) with 35%Q.
  destruct (exact n) as [| |q|]; simpl; try discriminate; try reflexivity.
  destruct (Qcompare_spec q 70%Q), (Qcompare_spec q 35%Q); simpl;
    intros [= ]; try reflexivity; exfalso; lra.
Qed.

(** The three regimes of the RSI step: overbought, oversold, and the four
    that set no bounce flag. *)
Lemma score_rsi_regimes (rsi : value) :
  spec.numeric rsi →
  (py_gt rsi (VInt 70) = Ok true
   ∧ score_rsi rsi
     = (λ st, st' <- add_bearish st (VFloat (fl 0.5));
              Ok ("overbought", set_bounce st' "overbought_pullback")))
  ∨ (py_gt rsi (VInt 70) = Ok false ∧ py_lt rsi (VInt 35) = Ok true
     ∧ score_rsi rsi
       = (λ st, st' <- add_bullish st (VFloat (fl 0.5));
                Ok ("oversold", set_bounce st' "oversold_bounce")))
  ∨ (py_gt rsi (VInt 70) = Ok false ∧ py_lt rsi (VInt 35) = Ok false
     ∧ (score_rsi rsi
        = (λ st, st' <- add_bearish st (VFloat (fl 0.3)); Ok ("near_overbought", st'))
        ∨ score_rsi rsi = (λ st, st' <- add_bullish st (VInt 1); Ok ("bullish", st'))
        ∨ score_rsi rsi = (λ st, st' <- add_bearish st (VInt 1); Ok ("bearish", st'))
        ∨ score_rsi rsi = (λ st, Ok ("neutral", st)))).
Proof.
  intros Hrsi.
  assert (Hint : ∀ z, spec.numeric (VInt z)) by (intros z; eexists; reflexivity).
  destruct (py_compare_numeric is_gt rsi (VInt 70) Hrsi (Hint _)) as [c1 H1].
  destruct (py_compare_numeric is_lt rsi (VInt 35) Hrsi (Hint _)) as [c2 H2].
  destruct (py_compare_numeric is_gt rsi (VInt 65) Hrsi (Hint _)) as [c3 H3].
  destruct (py_compare_numeric is_gt rsi (VInt 55) Hrsi (Hint _)) as [c4 H4].
  destruct (py_compare_numeric is_lt rsi (VInt 45) Hrsi (Hint _)) as [c5 H5].
  fold (py_gt rsi (VInt 70)) in H1. fold (py_lt rsi (VInt 35)) in H2.
  unfold score_rsi. rewrite H1, H2. unfold py_gt, py_lt. rewrite H3, H4, H5. cbn [bind].
  destruct c1; [ left; split; reflexivity | right ].
  destruct c2; [ left; repeat split; reflexivity | right ].
  split; [ reflexivity | ]. split; [ reflexivity | ].
  destruct c3; [ auto | ]. destruct c4; [ auto | ]. destruct c5; auto.
Qed.

Ltac run_assess :=
  match goal with
  | |- ∃ a, ?r = Ok a ∧ _ => let v := eval vm_compute in r in change r with v
  end;
  eexists; split; [ reflexivity | ];
  cbn [bounce_potential bullish_signals bearish_signals bullish_ratio
       assignment_risk sentiment rsi_signal].

(** An RSI above 70 or below 35 overrides the classification by ratio.
    For every numeric RSI and whatever the other three indicators say:
    the bounce flag is ["overbought_pullback"] exactly when [rsi > 70] and
    ["oversold_bounce"] exactly when [rsi < 35]; an oversold stock is always
    of moderate assignment risk, an overbought one of moderate or low risk;
    so the risks "high" and "very_low" occur only for an RSI from 35 to 70. *)
Theorem assess_bounce_overrides (rsi macd_trend mas_trend volume_signal : value) :
  spec.numeric rsi →
  ∃ a,
    assess rsi macd_trend mas_trend volume_signal = Ok a
    ∧ (bounce_potential a = VStr "overbought_pullback" ↔ py_gt rsi (VInt 70) = Ok true)
    ∧ (bounce_potential a = VStr "oversold_bounce" ↔ py_lt rsi (VInt 35) = Ok true)
    ∧ (py_lt rsi (VInt 35) = Ok true →
       rsi_signal a = "oversold" ∧ assignment_risk a = "moderate"
       ∧ (sentiment a = "oversold_bounce_risk" ∨ sentiment a = "oversold_with_bullish"))
    ∧ (py_gt rsi (VInt 70) = Ok true →
       rsi_signal a = "overbought"
       ∧ ((assignment_risk a = "moderate" ∧ sentiment a = "overbought_pullback_risk")
          ∨ (assignment_risk a = "low" ∧ sentiment a = "overbought_with_bearish")))
    ∧ (assignment_risk a = "high" ∨ assignment_risk a = "very_low" →
       py_gt rsi (VInt 70) = Ok false ∧ py_lt rsi (VInt 35) = Ok false).
Proof.
  intros Hrsi. unfold assess.
  destruct (score_rsi_regimes rsi Hrsi)
    as [ [Hgt ->] | [ (Hgt & Hlt & ->) | (Hgt & Hlt & [ -> | [ -> | [ -> | -> ] ] ]) ] ];
    try (pose proof (gt_70_not_lt_35 rsi Hgt) as Hlt);
    destruct (score_macd_cases macd_trend) as [ -> | [ -> | -> ] ];
    destruct (score_mas_cases mas_trend) as [ -> | [ -> | -> ] ];
    destruct (score_volume_cases volume_signal) as [ -> | [ -> | -> ] ];
    run_assess; rewrite Hgt, Hlt;
    (split; [ split; intros [= ]; reflexivity | ]);
    (split; [ split; intros [= ]; reflexivity | ]);
    (split; [ intros [= ]; repeat split; auto | ]);
    (split; [ intros [= ]; repeat split; auto | ]);
    (intros [ [= ] | [= ] ]; split; reflexivity).
Qed.

Lemma assess_bounce_overrides_witness :
  ∃ a,
    assess (VFloat (fl 28)) (VStr "bearish") (VStr "strong_bearish") (VStr "normal") = Ok a
    ∧ rsi_signal a = "oversold" ∧ assignment_risk a = "moderate".
Proof.
  destruct (assess_bounce_overrides (VFloat (fl 28)) (VStr "bearish")
              (VStr "strong_bearish") (VStr "normal"))
    as (a & Ha & _ & _ & Hlow & _).
  { eexists; reflexivity. }
  exists a. split; [ exact Ha | ].
  destruct (Hlow eq_refl) as (H1 & H2 & _). split; assumption.
Defined.

(** The signal counts and their ratio.  For every numeric RSI and the
    other three indicators: the bullish and the bearish count are zero or
    more, together they are at most 4 (one per indicator), and the bullish
    ratio lies between 0 and 1. *)
Theorem assess_ratio_bounds (rsi macd_trend mas_trend volume_signal : value) :
  spec.numeric rsi →
  ∃ a,
    assess rsi macd_trend mas_trend volume_signal = Ok a
    ∧ py_ge (bullish_signals a) (VInt 0) = Ok true
    ∧ py_ge (bearish_signals a) (VInt 0) = Ok true
    ∧ (∃ total, py_add (bullish_signals a) (bearish_signals a) = Ok total
                ∧ py_le total (VInt 4) = Ok true)
    ∧ py_le (VInt 0) (bullish_ratio a) = Ok true
    ∧ py_le (bullish_ratio a) (VInt 1) = Ok true.
Proof.
  intros Hrsi. unfold assess.
  destruct (score_rsi_cases rsi Hrsi) as [ -> | [ -> | [ -> | [ -> | [ -> | -> ] ] ] ] ];
    destruct (score_macd_cases macd_trend) as [ -> | [ -> | -> ] ];
    destruct (score_mas_cases mas_trend) as [ -> | [ -> | -> ] ];
    destruct (score_volume_cases volume_signal) as [ -> | [ -> | -> ] ];
    run_assess;
    (split; [ reflexivity | ]); (split; [ reflexivity | ]);
    (split; [ eexists; split; reflexivity | ]); split; reflexivity.
Qed.

Lemma assess_ratio_bounds_witness :
  ∃ a,
    assess (VFloat (fl 60)) (VStr "bullish") (VStr "strong_bullish")
      (VStr "bearish_volume") = Ok a
    ∧ py_le (VInt 0) (bullish_ratio a) = Ok true
    ∧ py_le (bullish_ratio a) (VInt 1) = Ok true.
Proof.
  destruct (assess_ratio_bounds (VFloat (fl 60)) (VStr "bullish")
              (VStr "strong_bullish") (VStr "bearish_volume"))
    as (a & Ha & _ & _ & _ & H0 & H1).
  { eexists; reflexivity. }
  exists a. split; [ exact Ha | ]. split; assumption.
Defined.

(** ** The gates of the orchestrator *)

Section gates.

Variable validate_ticker : string → validation.
Variable get_stock_price : string → price_data.
Variable get_options_chain : string → options_tools.options_data.
Variable get_technical_analysis : string → gmap string value.
Variable format_recommendation :
  string → value → metrics → Z → breakeven_result → max_profit → string + exn.
Variable format_itm_warning : value → value → itm_warning.
Variable _format_layered_strategy : layered → value → string → result string.
Variable _format_integrated_technical_section :
  gmap string value → strike_selection → value → metrics → result string.
Variable str_strip str_upper : string → string.
Variable str_int : Z → string.
Variable str_exn : exn → string.

Local Abbreviation run_strategy :=
  (run_covered_call_strategy validate_ticker get_stock_price get_options_chain
     get_technical_analysis format_recommendation format_itm_warning
     _format_layered_strategy _format_integrated_technical_section
     str_strip str_upper str_int str_exn).

Lemma fail_not_success (error_type details : string) (r : strategy_result) :
  fail error_type details = Ok r → error r ≠ None.
Proof. intros H. apply fail_code in H. congruence. Qed.

(** A recommendation is returned only when every gate was passed.  If
    [run_covered_call_strategy] returns a dictionary whose error is [None],
    then the share count is a positive multiple of 100, the ticker (stripped
    and upper-cased) is valid and has options, the price source gave a price
    and no error, the chain source gave a non-empty chain and no error, and
    [filter_options] kept at least one option without failing. *)
Theorem run_success_passed_every_gate (ticker : string) (shares : Z) (otm_only : bool)
    (r : strategy_result) :
  run_strategy ticker shares otm_only = Ok r → error r = None →
  0 < shares ∧ shares mod 100 = 0
  ∧ valid (validate_ticker (str_upper (str_strip ticker))) = true
  ∧ has_options (validate_ticker (str_upper (str_strip ticker))) = true
  ∧ options_tools.truthy_text (p_error (get_stock_price (str_upper (str_strip ticker))))
    = false
  ∧ is_Some (price (get_stock_price (str_upper (str_strip ticker))))
  ∧ options_tools.truthy_text
      (options_tools.error (get_options_chain (str_upper (str_strip ticker)))) = false
  ∧ options_tools.options (get_options_chain (str_upper (str_strip ticker))) ≠ []
  ∧ options_tools.f_error
      (options_tools.filter_options (get_options_chain (str_upper (str_strip ticker))))
    = None
  ∧ options_tools.filtered_options
      (options_tools.filter_options (get_options_chain (str_upper (str_strip ticker))))
    ≠ [].
Proof.
  intros H Hnone. unfold run_covered_call_strategy in H.
  destruct (Z.leb_spec shares 0) as [Hle|Hpos];
    [ exfalso; exact (fail_not_success _ _ _ H Hnone) | ].
  destruct (Z.eqb_spec (shares mod 100) 0) as [Hmod|Hmod];
    [ | exfalso; exact (fail_not_success _ _ _ H Hnone) ].
  cbn [orb negb] in H.
  destruct (valid _) eqn:Hvalid;
    [ | exfalso; exact (fail_not_success _ _ _ H Hnone) ].
  destruct (has_options _) eqn:Hopts;
    [ | exfalso; exact (fail_not_success _ _ _ H Hnone) ].
  cbn [negb] in H.
  destruct (options_tools.truthy_text (p_error _)) eqn:Hperr;
    [ exfalso; exact (fail_not_success _ _ _ H Hnone) | ].
  destruct (price _) as [p|] eqn:Hprice;
    [ | exfalso; exact (fail_not_success _ _ _ H Hnone) ].
  destruct (options_tools.truthy_text (options_tools.error _)) eqn:Hcerr;
    [ exfalso; exact (fail_not_success _ _ _ H Hnone) | ].
  destruct (options_tools.options _) as [|o chain] eqn:Hchain;
    [ exfalso; exact (fail_not_success _ _ _ H Hnone) | ].
  cbn [is_empty] in H.
  destruct (options_tools.f_error _) as [[msg|e]|] eqn:Hferr;
    [ exfalso; exact (fail_not_success _ _ _ H Hnone)
    | exfalso; exact (fail_not_success _ _ _ H Hnone) | ].
  destruct (options_tools.filtered_options _) as [|o' kept] eqn:Hkept;
    [ exfalso; exact (fail_not_success _ _ _ H Hnone) | ].
  repeat split; try assumption; try discriminate. eexists; reflexivity.
Qed.

End gates.

Lemma run_success_passed_every_gate_witness :
  ∃ r,
    run_covered_call_strategy
      (λ _, {| valid := true; has_options := true; v_error := None |})
      (λ _, {| price := Some (fl 100); p_error := None |})
      (λ t, {| options_tools.ticker := t;
               options_tools.options := [examples.call_103; examples.call_110];
               options_tools.error := None |})
      (λ _, examples.mixed_signals) (λ _ _ _ _ _ _, inl "text")
      (λ _ _, {| warning := None; is_itm := false |})
      (λ _ _ _, Ok "layers") (λ _ _ _ _, Ok "technical")
      id id (λ _, "300") (λ _, "exception") "aapl" 300 true = Ok r
    ∧ error r = None
    ∧ options_tools.filtered_options
        (options_tools.filter_options
           {| options_tools.ticker := "aapl";
              options_tools.options := [examples.call_103; examples.call_110];
              options_tools.error := None |}) ≠ [].
Proof.
  destruct (run_covered_call_strategy
      (λ _, {| valid := true; has_options := true; v_error := None |})
      (λ _, {| price := Some (fl 100); p_error := None |})
      (λ t, {| options_tools.ticker := t;
               options_tools.options := [examples.call_103; examples.call_110];
               options_tools.error := None |})
      (λ _, examples.mixed_signals) (λ _ _ _ _ _ _, inl "text")
      (λ _ _, {| warning := None; is_itm := false |})
      (λ _ _ _, Ok "layers") (λ _ _ _ _, Ok "technical")
      id id (λ _, "300") (λ _, "exception") "aapl" 300 true) as [r|e] eqn:H;
    [ | vm_compute in H; discriminate H ].
  assert (Hnone : error r = None).
  { vm_compute in H. injection H as <-. reflexivity. }
  exists r. split; [ reflexivity | ]. split; [ exact Hnone | ].
  pose proof (run_success_passed_every_gate _ _ _ _ _ _ _ _ _ _ _ _ _ _ _ _ H Hnone)
    as (_ & _ & _ & _ & _ & _ & _ & _ & _ & Hkept).
  exact Hkept.
Defined.

(** ** Splitting a long reply *)

Section split_long_message_facts.

Import handlers.

Context {char : Type} `{EqDecision char}.
Variable newline : char.

Local Abbreviation lines := (split_lines newline).
Local Abbreviation paragraphs := (split_paragraphs newline).
Local Abbreviation strip := (without_newlines newline).

Lemma strip_app (s t : list char) : strip (s ++ t) = strip s ++ strip t.
Proof. unfold without_newlines. apply List.filter_app. Qed.

Lemma strip_newline : strip [newline] = [].
Proof. unfold without_newlines. simpl. rewrite bool_decide_eq_true_2; reflexivity. Qed.

Lemma strip_cons_other (c : char) (s : list char) :
  c ≠ newline → strip (c :: s) = c :: strip s.
Proof.
  intros Hc. unfold without_newlines. simpl.
  rewrite bool_decide_eq_false_2 by exact Hc. reflexivity.
Qed.

Lemma strip_cons_newline (s : list char) : strip (newline :: s) = strip s.
Proof.
  unfold without_newlines. simpl. rewrite bool_decide_eq_true_2; reflexivity.
Qed.

Ltac strip_norm :=
  repeat first [ rewrite strip_app | rewrite strip_newline | rewrite app_nil_r
               | rewrite <- app_assoc ];
  cbn [app]; try reflexivity.

Lemma lines_nonempty (s : list char) : lines s ≠ [].
Proof.
  destruct s as [|c s]; simpl; [ discriminate | ].
  destruct (decide (c = newline)); [ discriminate | ].
  destruct (lines s); discriminate.
Qed.

Lemma paragraphs_unfold (c : char) (s : list char) :
  paragraphs (c :: s)
  = match s with
    | c' :: s'' =>
      if decide (c = newline ∧ c' = newline) then [] :: paragraphs s''
      else match paragraphs s with
           | piece :: pieces => (c :: piece) :: pieces
           | [] => [[c]]
           end
    | [] => match paragraphs s with
            | piece :: pieces => (c :: piece) :: pieces
            | [] => [[c]]
            end
    end.
Proof. destruct s; reflexivity. Qed.

Lemma paragraphs_nonempty (s : list char) : paragraphs s ≠ [].
Proof.
  destruct s as [|c s]; [ discriminate | ]. rewrite paragraphs_unfold.
  destruct s as [|c' s''].
  - destruct (paragraphs []); discriminate.
  - destruct (decide _); [ discriminate | ].
    destruct (paragraphs (c' :: s'')); discriminate.
Qed.

(** The pieces of a split hold the characters of the text, newlines apart. *)
Lemma lines_cons_other (c : char) (s : list char) :
  c ≠ newline →
  ∃ piece pieces, lines s = piece :: pieces ∧ lines (c :: s) = (c :: piece) :: pieces.
Proof.
  intros Hc. pose proof (lines_nonempty s) as Hne. simpl.
  destruct (decide (c = newline)); [ contradiction | ].
  destruct (lines s) as [|piece pieces]; [ congruence | eauto ].
Qed.

Lemma lines_cons_newline (s : list char) : lines (newline :: s) = [] :: lines s.
Proof. simpl. destruct (decide (newline = newline)); [ reflexivity | contradiction ]. Qed.

Lemma strip_lines (s : list char) : strip (concat (lines s)) = strip s.
Proof.
  induction s as [|c s IH]; [ reflexivity | ].
  destruct (decide (c = newline)) as [->|Hc].
  - rewrite lines_cons_newline. cbn [concat app]. rewrite IH, strip_cons_newline.
    reflexivity.
  - destruct (lines_cons_other c s Hc) as (piece & pieces & Hl & ->).
    rewrite Hl in IH. cbn [concat] in *.
    change ((c :: piece) ++ concat pieces) with (c :: (piece ++ concat pieces)).
    rewrite !strip_cons_other by exact Hc. rewrite IH. reflexivity.
Qed.

Lemma paragraphs_cons (c : char) (s : list char) :
  (∃ s', s = newline :: s' ∧ c = newline
         ∧ paragraphs (c :: s) = [] :: paragraphs s')
  ∨ (∃ piece pieces, paragraphs s = piece :: pieces
                     ∧ paragraphs (c :: s) = (c :: piece) :: pieces).
Proof.
  pose proof (paragraphs_nonempty s) as Hne. rewrite paragraphs_unfold.
  destruct s as [|c' s'].
  - right. exists [], []. split; reflexivity.
  - destruct (decide (c = newline ∧ c' = newline)) as [[-> ->]|Hn].
    + left. exists s'. repeat split; reflexivity.
    + right. destruct (paragraphs (c' :: s')) as [|piece pieces]; [ congruence | ].
      exists piece, pieces. split; reflexivity.
Qed.

Lemma strip_paragraphs_upto (n : nat) :
  ∀ s, (length s ≤ n)%nat → strip (concat (paragraphs s)) = strip s.
Proof.
  induction n as [|n IH]; intros s Hn.
  - destruct s; [ reflexivity | simpl in Hn; lia ].
  - destruct s as [|c s]; [ reflexivity | ]. simpl in Hn.
    destruct (paragraphs_cons c s) as [(s' & -> & -> & ->)|(piece & pieces & Hs & ->)].
    + simpl in Hn. cbn [concat app]. rewrite (IH s') by lia.
      rewrite !strip_cons_newline. reflexivity.
    + pose proof (IH s ltac:(lia)) as Hrec. rewrite Hs in Hrec.
      cbn [concat] in *. change ((c :: piece) ++ concat pieces)
        with ([c] ++ (piece ++ concat pieces)).
      change (c :: s) with ([c] ++ s).
      rewrite (strip_app [c] (piece ++ concat pieces)), (strip_app [c] s), Hrec.
      reflexivity.
Qed.

Lemma strip_paragraphs (s : list char) : strip (concat (paragraphs s)) = strip s.
Proof. apply (strip_paragraphs_upto (length s)). lia. Qed.

(** The lines of the paragraphs of a text are lines of the text. *)
Lemma paragraph_lines_upto (n : nat) :
  ∀ s, (length s ≤ n)%nat →
  ∃ p ps l ls l1 ls1,
    paragraphs s = p :: ps ∧ lines s = l :: ls ∧ lines p = l1 :: ls1
    ∧ l1 = l ∧ ls1 ⊆ ls
    ∧ ∀ para, para ∈ ps → lines para ⊆ ls.
Proof.
  induction n as [|n IH]; intros s Hn.
  - destruct s; [ | simpl in Hn; lia ].
    exists [], [], [], [], [], []. repeat split; try reflexivity.
    intros para Hp. apply elem_of_nil in Hp. contradiction.
  - destruct s as [|c s].
    { exists [], [], [], [], [], []. repeat split; try reflexivity.
      intros para Hp. apply elem_of_nil in Hp. contradiction. }
    simpl in Hn.
    destruct (paragraphs_cons c s) as [(s' & -> & -> & Hpar)|(piece & pieces & Hs & Hpar)].
    + simpl in Hn.
      destruct (IH s' ltac:(lia)) as (p & ps & l & ls & l1 & ls1 & Hp & Hl & Hpl & -> & Hsub & Hrest).
      exists [], (paragraphs s'), [], ([] :: lines s'), [], [].
      rewrite Hpar, !lines_cons_newline. repeat split; try reflexivity.
      * intros x Hx. apply elem_of_nil in Hx. contradiction.
      * intros para Hpara. rewrite Hp in Hpara. rewrite Hl.
        apply elem_of_cons in Hpara as [->|Hpara].
        -- rewrite Hpl. intros x Hx. apply list_elem_of_further.
           apply elem_of_cons in Hx as [->|Hx];
             [ apply list_elem_of_here | apply list_elem_of_further, Hsub, Hx ].
        -- intros x Hx. apply list_elem_of_further, list_elem_of_further.
           exact (Hrest para Hpara x Hx).
    + destruct (IH s ltac:(lia)) as (p & ps & l & ls & l1 & ls1 & Hp & Hl & Hpl & -> & Hsub & Hrest).
      rewrite Hs in Hp. injection Hp as <- <-.
      destruct (decide (c = newline)) as [->|Hc].
      * exists (newline :: piece), pieces, [], (lines s), [], (lines piece).
        rewrite Hpar, !lines_cons_newline. repeat split; try reflexivity.
        -- rewrite Hpl, Hl. intros x Hx.
           apply elem_of_cons in Hx as [->|Hx];
             [ apply list_elem_of_here | apply list_elem_of_further, Hsub, Hx ].
        -- intros para Hpara x Hx. rewrite Hl. apply list_elem_of_further.
           exact (Hrest para Hpara x Hx).
      * destruct (lines_cons_other c s Hc) as (l' & ls' & Hl' & Hcl).
        rewrite Hl in Hl'. injection Hl' as <- <-.
        destruct (lines_cons_other c piece Hc) as (l2 & ls2 & Hl2 & Hcl2).
        rewrite Hpl in Hl2. injection Hl2 as <- <-.
        exists (c :: piece), pieces, (c :: l), ls, (c :: l), ls1.
        rewrite Hpar, Hcl, Hcl2. repeat split; try reflexivity; assumption.
Qed.

Lemma paragraph_lines (s para line : list char) :
  para ∈ paragraphs s → line ∈ lines para → line ∈ lines s.
Proof.
  intros Hpara Hline.
  destruct (paragraph_lines_upto (length s) s ltac:(lia))
    as (p & ps & l & ls & l1 & ls1 & Hp & Hl & Hpl & -> & Hsub & Hrest).
  rewrite Hp in Hpara. rewrite Hl.
  apply elem_of_cons in Hpara as [->|Hpara].
  - rewrite Hpl in Hline. apply elem_of_cons in Hline as [->|Hline];
      [ apply list_elem_of_here | apply list_elem_of_further, Hsub, Hline ].
  - apply list_elem_of_further. exact (Hrest para Hpara line Hline).
Qed.

(** *** What the two loops keep *)

Lemma flush_nonempty (parts : list (list char)) (current : list char) :
  Forall (λ p, p ≠ []) parts → Forall (λ p, p ≠ []) (flush parts current).
Proof.
  intros Hp. unfold flush. destruct current as [|c s]; simpl; [ exact Hp | ].
  apply Forall_app. split; [ exact Hp | repeat constructor; discriminate ].
Qed.

Lemma flush_strip (parts : list (list char)) (current : list char) :
  strip (concat (flush parts current)) = strip (concat parts ++ current).
Proof.
  unfold flush. destruct current as [|c s]; simpl.
  - rewrite app_nil_r. reflexivity.
  - rewrite concat_app. simpl. rewrite app_nil_r. reflexivity.
Qed.

Lemma add_line_spec (max_length : Z) (st : list (list char) * list char)
    (line : list char) :
  Forall (λ p, p ≠ []) (fst st) →
  Forall (λ p, p ≠ []) (fst (add_line newline max_length st line))
  ∧ strip (concat (fst (add_line newline max_length st line))
           ++ snd (add_line newline max_length st line))
    = strip (concat (fst st) ++ snd st) ++ strip line.
Proof.
  destruct st as [parts current]. unfold add_line. cbn [fst snd]. intros Hp.
  destruct (_ <=? _); cbn [fst snd].
  - split; [ exact Hp | ]. destruct current as [|c s]; cbn [nonempty].
    + strip_norm.
    + strip_norm.
  - split; [ apply flush_nonempty, Hp | ].
    rewrite strip_app, flush_strip. strip_norm.
Qed.

Lemma add_lines_spec (max_length : Z) (ls : list (list char)) :
  ∀ st, Forall (λ p, p ≠ []) (fst st) →
  Forall (λ p, p ≠ []) (fst (foldl (add_line newline max_length) st ls))
  ∧ strip (concat (fst (foldl (add_line newline max_length) st ls))
           ++ snd (foldl (add_line newline max_length) st ls))
    = strip (concat (fst st) ++ snd st) ++ strip (concat ls).
Proof.
  induction ls as [|line ls IH]; intros st Hst; simpl.
  - rewrite app_nil_r. split; [ exact Hst | reflexivity ].
  - destruct (add_line_spec max_length st line Hst) as [H1 H2].
    destruct (IH _ H1) as [H3 H4]. split; [ exact H3 | ].
    rewrite H4, H2. strip_norm.
Qed.

Lemma add_paragraph_spec (max_length : Z) (st : list (list char) * list char)
    (para : list char) :
  Forall (λ p, p ≠ []) (fst st) →
  Forall (λ p, p ≠ []) (fst (add_paragraph newline max_length st para))
  ∧ strip (concat (fst (add_paragraph newline max_length st para))
           ++ snd (add_paragraph newline max_length st para))
    = strip (concat (fst st) ++ snd st) ++ strip para.
Proof.
  destruct st as [parts current]. unfold add_paragraph. cbn [fst snd]. intros Hp.
  destruct (_ <=? _); cbn [fst snd].
  - split; [ exact Hp | ]. destruct current as [|c s]; cbn [nonempty].
    + strip_norm.
    + change [newline; newline] with ([newline] ++ [newline]). strip_norm.
  - destruct (_ <? _).
    + destruct (add_lines_spec max_length (lines para) (flush parts current, []))
        as [H1 H2]; [ apply flush_nonempty, Hp | ].
      split; [ exact H1 | ]. rewrite H2. cbn [fst snd].
      rewrite app_nil_r, flush_strip, strip_lines. reflexivity.
    + cbn [fst snd]. split; [ apply flush_nonempty, Hp | ].
      rewrite strip_app, flush_strip. reflexivity.
Qed.

Lemma add_paragraphs_spec (max_length : Z) (ps : list (list char)) :
  ∀ st, Forall (λ p, p ≠ []) (fst st) →
  Forall (λ p, p ≠ []) (fst (foldl (add_paragraph newline max_length) st ps))
  ∧ strip (concat (fst (foldl (add_paragraph newline max_length) st ps))
           ++ snd (foldl (add_paragraph newline max_length) st ps))
    = strip (concat (fst st) ++ snd st) ++ strip (concat ps).
Proof.
  induction ps as [|para ps IH]; intros st Hst; simpl.
  - rewrite app_nil_r. split; [ exact Hst | reflexivity ].
  - destruct (add_paragraph_spec max_length st para Hst) as [H1 H2].
    destruct (IH _ H1) as [H3 H4]. split; [ exact H3 | ].
    rewrite H4, H2. strip_norm.
Qed.

(** [split_long_message] loses nothing but newlines: the parts, put one
    after the other, are the text without the newlines that separated
    them; and no part of a non-empty text is empty. *)
Theorem split_long_message_keeps_text (text : list char) (max_length : Z) :
  without_newlines newline (concat (split_long_message newline text max_length))
  = without_newlines newline text
  ∧ (text ≠ [] → Forall (λ part, part ≠ []) (split_long_message newline text max_length)).
Proof.
  unfold split_long_message. destruct (_ <=? _).
  - simpl. rewrite app_nil_r. split; [ reflexivity | ].
    intros Hne. repeat constructor. exact Hne.
  - destruct (add_paragraphs_spec max_length (paragraphs text) ([], []))
      as [H1 H2]; [ constructor | ].
    destruct (foldl _ _ _) as [parts current]. cbn [fst snd] in *.
    split.
    + rewrite flush_strip, H2, strip_paragraphs. reflexivity.
    + intros _. apply flush_nonempty, H1.
Qed.

(** *** The length of the parts *)

Lemma len_app (s t : list char) : len (s ++ t) = len s + len t.
Proof. unfold len. rewrite length_app. lia. Qed.

Lemma flush_short (max_length : Z) (parts : list (list char)) (current : list char) :
  Forall (λ p, len p ≤ max_length) parts → len current ≤ max_length →
  Forall (λ p, len p ≤ max_length) (flush parts current).
Proof.
  intros Hp Hc. unfold flush. destruct (nonempty current); [ | exact Hp ].
  apply Forall_app. split; [ exact Hp | repeat constructor; exact Hc ].
Qed.

Lemma add_line_short (max_length : Z) (st : list (list char) * list char)
    (line : list char) :
  Forall (λ p, len p ≤ max_length) (fst st) → len (snd st) ≤ max_length →
  len line ≤ max_length →
  Forall (λ p, len p ≤ max_length) (fst (add_line newline max_length st line))
  ∧ len (snd (add_line newline max_length st line)) ≤ max_length.
Proof.
  destruct st as [parts current]. cbn [fst snd]. intros Hp Hc Hline. unfold add_line.
  destruct (Z.leb_spec (len current + len line + 1) max_length) as [Hfit|Hover];
    cbn [fst snd].
  - split; [ exact Hp | ]. destruct (nonempty current); [ | exact Hline ].
    rewrite !len_app. change (len [newline]) with 1. lia.
  - split; [ apply flush_short; assumption | exact Hline ].
Qed.

Lemma add_lines_short (max_length : Z) (ls : list (list char)) :
  Forall (λ line, len line ≤ max_length) ls →
  ∀ st, Forall (λ p, len p ≤ max_length) (fst st) → len (snd st) ≤ max_length →
  Forall (λ p, len p ≤ max_length) (fst (foldl (add_line newline max_length) st ls))
  ∧ len (snd (foldl (add_line newline max_length) st ls)) ≤ max_length.
Proof.
  induction 1 as [|line ls Hline _ IH]; intros st Hp Hc; cbn [foldl].
  - split; assumption.
  - destruct (add_line_short max_length st line Hp Hc Hline) as [H1 H2].
    apply IH; assumption.
Qed.

Lemma add_paragraph_short (max_length : Z) (st : list (list char) * list char)
    (para : list char) :
  Forall (λ p, len p ≤ max_length) (fst st) → len (snd st) ≤ max_length →
  Forall (λ line, len line ≤ max_length) (lines para) →
  Forall (λ p, len p ≤ max_length) (fst (add_paragraph newline max_length st para))
  ∧ len (snd (add_paragraph newline max_length st para)) ≤ max_length.
Proof.
  destruct st as [parts current]. cbn [fst snd]. intros Hp Hc Hpara.
  unfold add_paragraph.
  assert (H0 : 0 ≤ len para) by (unfold len; lia).
  assert (Hc0 : 0 ≤ len current) by (unfold len; lia).
  destruct (Z.leb_spec (len current + len para + 2) max_length) as [Hfit|Hover];
    cbn [fst snd].
  - split; [ exact Hp | ]. destruct (nonempty current); [ | lia ].
    rewrite !len_app. change (len [newline; newline]) with 2. lia.
  - destruct (Z.ltb_spec max_length (len para)) as [Hlong|Hshort].
    + apply (add_lines_short max_length (lines para) Hpara (flush parts current, []));
        cbn [fst snd]; [ apply flush_short; assumption | ].
      change (len []) with 0. lia.
    + cbn [fst snd]. split; [ apply flush_short; assumption | exact Hshort ].
Qed.

Lemma add_paragraphs_short (max_length : Z) (ps : list (list char)) :
  Forall (λ para, Forall (λ line, len line ≤ max_length) (lines para)) ps →
  ∀ st, Forall (λ p, len p ≤ max_length) (fst st) → len (snd st) ≤ max_length →
  Forall (λ p, len p ≤ max_length)
    (fst (foldl (add_paragraph newline max_length) st ps))
  ∧ len (snd (foldl (add_paragraph newline max_length) st ps)) ≤ max_length.
Proof.
  induction 1 as [|para ps Hpara _ IH]; intros st Hp Hc; cbn [foldl].
  - split; assumption.
  - destruct (add_paragraph_short max_length st para Hp Hc Hpara) as [H1 H2].
    apply IH; assumption.
Qed.

(** When no line of the text is longer than [max_length], no part is. *)
Theorem split_long_message_parts_fit (text : list char) (max_length : Z) :
  Forall (λ line, len line ≤ max_length) (split_lines newline text) →
  Forall (λ part, len part ≤ max_length) (split_long_message newline text max_length).
Proof.
  intros Hlines. unfold split_long_message.
  destruct (Z.leb_spec (len text) max_length) as [Hfit|Hover].
  - repeat constructor. exact Hfit.
  - assert (H0 : 0 ≤ max_length).
    { pose proof (lines_nonempty text) as Hne.
      destruct (lines text) as [|l ls]; [ congruence | ].
      apply Forall_cons in Hlines as [Hl _]. unfold len in Hl. lia. }
    assert (Hparas : Forall (λ para, Forall (λ line, len line ≤ max_length) (lines para))
                       (paragraphs text)).
    { apply Forall_forall. intros para Hpara. apply Forall_forall. intros line Hline.
      rewrite Forall_forall in Hlines. apply Hlines.
      eapply paragraph_lines; eassumption. }
    destruct (add_paragraphs_short max_length (paragraphs text) Hparas ([], []))
      as [H1 H2]; cbn [fst snd]; [ constructor | exact H0 | ].
    destruct (foldl _ _ _) as [parts current]. cbn [fst snd] in *.
    apply flush_short; assumption.
Qed.

End split_long_message_facts.

Lemma split_long_message_parts_fit_witness :
  Forall (λ part : list nat, handlers.len part ≤ 5)
    (handlers.split_long_message 0%nat [1; 2; 0; 0; 3; 4; 5; 0; 6; 7; 0; 8]%nat 5).
Proof.
  apply split_long_message_parts_fit.
  repeat constructor; vm_compute; discriminate.
Defined.

(** ** The rate limiter *)

Import rate_limiter.

Lemma filter_length_le {A} (P Q : A → Prop) `{∀ x, Decision (P x)} `{∀ x, Decision (Q x)}
    (l : list A) :
  (∀ x, x ∈ l → P x → Q x) → (length (filter P l) ≤ length (filter Q l))%nat.
Proof.
  induction l as [|x l IH]; intros HPQ; [ reflexivity | ].
  rewrite !filter_cons.
  assert (IH' : (length (filter P l) ≤ length (filter Q l))%nat).
  { apply IH. intros y Hy. apply HPQ. right. exact Hy. }
  destruct (decide (P x)) as [HP|HP].
  - rewrite decide_True by (apply HPQ; [ left | exact HP ]). simpl. lia.
  - destruct (decide (Q x)); simpl; lia.
Qed.

Lemma in_window_twice (w1 w2 : datetime) (l : list datetime) :
  w1 ≤ w2 → in_window w2 (in_window w1 l) = in_window w2 l.
Proof.
  intros Hw. unfold in_window. induction l as [|x l IH]; [ reflexivity | ].
  rewrite (filter_cons (λ r, w1 < r)), (filter_cons (λ r, w2 < r)).
  destruct (decide (w1 < x)) as [H1|H1].
  - rewrite filter_cons. destruct (decide (w2 < x)); [ f_equal | ]; exact IH.
  - rewrite decide_False by lia. exact IH.
Qed.

Lemma in_window_app (w : datetime) (l k : list datetime) :
  in_window w (l ++ k) = in_window w l ++ in_window w k.
Proof. apply filter_app. Qed.

Lemma in_window_elem (w x : datetime) (l : list datetime) :
  x ∈ in_window w l → w < x ∧ x ∈ l.
Proof. unfold in_window. rewrite list_elem_of_filter. tauto. Qed.

(** A quotient of ints that did not overflow can be truncated. *)
Lemma total_seconds_trunc (delta : Z) :
  Z.abs delta < 2 ^ 1023 →
  ∃ f whole, total_seconds delta = Ok f ∧ trunc_float f = Ok whole.
Proof.
  intros Hd. unfold total_seconds.
  destruct (int_truediv_total delta 1000000 Hd ltac:(lia)) as (f & Hf & Hs).
  exists f. assert (Hi : is_infinity f = false).
  { revert Hf. unfold int_truediv.
    destruct (1000000 =? 0); [ discriminate | ].
    destruct (delta =? 0); [ intros [= <-]; reflexivity | ].
    destruct (SFdiv_core_binary _ _ _ _ _ _) as [[q e] l]. cbv zeta.
    destruct (is_infinity _) eqn:Hi; [ discriminate | ]. intros [= <-]. exact Hi. }
  destruct f as [s|s| |s m e]; simpl in *; try discriminate; try contradiction;
    eexists; (split; [ exact Hf | reflexivity ]).
Qed.

Section sliding_window.

Variable self : RateLimiter.
Hypothesis at_least_one : 1 ≤ max_requests self.
Hypothesis window_positive : 0 < window_seconds self.

Local Abbreviation window := (window_seconds self * 1000000).

Lemma window_start_in_range (now : datetime) :
  window_in_range self now →
  timedelta (window_seconds self) = Ok window
  ∧ datetime_sub now window = Ok (now - window).
Proof.
  unfold window_in_range, timedelta, datetime_sub, datetime_add, datetime_max. intros Hn.
  rewrite !bool_decide_eq_true_2;
    [ split; [ reflexivity | f_equal; lia ] | try (Z.div_mod_to_equations; lia).. ].
Qed.

Lemma admitted_cons (id : string) (c : request) (calls : list request)
    (allowed : bool) (wait : Z) (answers : list (bool * Z)) :
  admitted id (c :: calls) ((allowed, wait) :: answers)
  = entered id c allowed ++ admitted id calls answers.
Proof. unfold entered. simpl. destruct (_ && _); reflexivity. Qed.

Lemma kept_later (db : collection) (H : string → list datetime) (t t' : datetime) :
  kept self db H t → t ≤ t' → kept self db H t'.
Proof.
  intros HK Ht id. destruct (HK id) as (Hr & Hf & Hl).
  split; [ exact Hr | ]. split; [ | exact Hl ].
  eapply Forall_impl; [ exact Hf | ]. simpl. intros a Ha. lia.
Qed.

Lemma last_le (t : datetime) (hist : list datetime) (a : datetime) :
  Forall (λ a, a ≤ t) hist → last hist = Some a → a ≤ t.
Proof.
  intros Hf Hl. rewrite Forall_forall in Hf. apply Hf.
  apply last_Some_elem_of, Hl.
Qed.

Lemma within_limit_window (t : datetime) (hist : list datetime) :
  Forall (λ a, a ≤ t) hist → within_limit self hist →
  Z.of_nat (length (in_window (t - window) hist)) ≤ max_requests self.
Proof.
  intros Hf Hl. specialize (Hl t). rewrite Forall_forall in Hf.
  eapply Z.le_trans; [ | exact Hl ]. apply Nat2Z.inj_le.
  apply filter_length_le. intros x Hx Hw. split; [ exact Hw | apply Hf, Hx ].
Qed.

Lemma within_limit_snoc (now : datetime) (hist : list datetime) :
  Forall (λ a, a ≤ now) hist → within_limit self hist →
  Z.of_nat (length (in_window (now - window) hist)) < max_requests self →
  within_limit self (hist ++ [now]).
Proof.
  intros Hf Hl Hroom t. rewrite filter_app, length_app.
  destruct (Z.lt_ge_cases t now) as [Hlt|Hge].
  - rewrite (filter_cons _ now), decide_False by lia. simpl.
    rewrite Nat.add_0_r. apply Hl.
  - assert (Hone : (length (filter (λ a, (t - window < a ≤ t)%Z) [now]) ≤ 1)%nat).
    { rewrite filter_cons. destruct (decide _); simpl; lia. }
    assert (Hin : (length (filter (λ a, (t - window < a ≤ t)%Z) hist)
                   ≤ length (in_window (now - window)%Z hist))%nat).
    { apply filter_length_le. intros x _ Hx. lia. }
    lia.
Qed.

(** One call, on a collection that holds the instants admitted so far. *)
Lemma is_allowed_step (db : collection) (H : string → list datetime) (t : datetime)
    (c : request) :
  kept self db H t → t ≤ at_time c → window_in_range self (at_time c) →
  ∃ db' wait,
    let allowed :=
      bool_decide
        (Z.of_nat (length (in_window (at_time c - window)
                             (H (doc_id (on_platform c) (by_user c)))))
         < max_requests self) in
    is_allowed self db (at_time c) (by_user c) (on_platform c)
    = Returns (db', (allowed, wait))
    ∧ 0 ≤ wait
    ∧ kept self db' (λ id, H id ++ entered id c allowed) (at_time c).
Proof.
  intros HK Ht Hr. destruct c as [now u p]. cbn [at_time by_user on_platform] in *.
  destruct (window_start_in_range now Hr) as [Htd Hws].
  unfold is_allowed. rewrite Htd. cbn [bind]. rewrite Hws.
  set (id0 := doc_id p u).
  destruct (HK id0) as (Hrec & Hfor & Hlim).
  assert (Hother : ∀ db' allowed, (∀ id, id ≠ id0 → db' !! id = db !! id) →
            ∀ id, id ≠ id0 →
              recorded self db' id (H id ++ entered id {| at_time := now; by_user := u;
                                                      on_platform := p |} allowed)
              ∧ Forall (λ a, a ≤ now) (H id ++ entered id {| at_time := now; by_user := u;
                                                      on_platform := p |} allowed)
              ∧ within_limit self (H id ++ entered id {| at_time := now; by_user := u;
                                                      on_platform := p |} allowed)).
  { intros db' allowed Hdb id Hid. unfold entered. cbn [at_time by_user on_platform].
    fold id0. rewrite (bool_decide_eq_false_2 (id0 = id)) by congruence.
    rewrite andb_false_r, app_nil_r.
    destruct (kept_later db H t now HK Ht id) as (Hr' & Hf' & Hl').
    split; [ | split; assumption ].
    unfold recorded in *. rewrite (Hdb id Hid). exact Hr'. }
  unfold recorded in Hrec. destruct (last (H id0)) as [a|] eqn:Hlast.
  - destruct Hrec as (data & Hdb & Hreq). rewrite Hdb, Hreq.
    change (default [] (Some ?l)) with l.
    pose proof (last_le t (H id0) a Hfor Hlast) as Hat.
    rewrite (in_window_twice (a - window) (now - window)) by lia.
    assert (Hfor' : Forall (λ a, a ≤ now) (H id0)).
    { eapply Forall_impl; [ exact Hfor | ]. simpl. intros x Hx. lia. }
    destruct (decide (Z.of_nat (length (in_window (now - window) (H id0)))
                      < max_requests self)) as [Hroom|Hfull].
    + rewrite (bool_decide_eq_false_2 (max_requests self ≤ _)) by lia.
      rewrite (bool_decide_eq_true_2 _ Hroom).
      eexists _, 0. split; [ reflexivity | ]. split; [ lia | ].
      intros id. destruct (decide (id = id0)) as [->|Hid].
      * unfold entered. cbn [at_time by_user on_platform]. fold id0.
        rewrite bool_decide_eq_true_2 by reflexivity. cbn [andb].
        split; [ | split ].
        -- unfold recorded. rewrite last_snoc. eexists.
           split; [ apply lookup_insert_eq | ]. cbn [requests]. f_equal.
           rewrite in_window_app. f_equal. unfold in_window.
           rewrite filter_cons, decide_True by lia. reflexivity.
        -- apply Forall_app. split; [ exact Hfor' | ]. repeat constructor. lia.
        -- apply within_limit_snoc; assumption.
      * apply Hother; [ | exact Hid ]. intros id' Hid'.
        apply lookup_insert_ne. congruence.
    + rewrite (bool_decide_eq_true_2 (max_requests self ≤ _)) by lia.
      rewrite (bool_decide_eq_false_2 _ Hfull).
      destruct (in_window (now - window) (H id0)) as [|oldest rest] eqn:Hvalid.
      { simpl in Hfull. lia. }
      assert (Hold : now - window < oldest ∧ oldest ∈ H id0).
      { apply in_window_elem. rewrite Hvalid. left. }
      destruct Hold as [Hold1 Hold2].
      rewrite Forall_forall in Hfor'. specialize (Hfor' oldest Hold2).
      cbn [bind of_result]. unfold datetime_add.
      unfold window_in_range in Hr.
      rewrite bool_decide_eq_true_2 by lia. cbn [bind].
      destruct (total_seconds_trunc (oldest + window - now)) as (f & whole & Hf & Hw).
      { unfold datetime_max in Hr.
        apply Z.lt_trans with (2 ^ 60); [ lia | apply Z.pow_lt_mono_r; lia ]. }
      rewrite Hf. cbn [bind]. rewrite Hw. cbn [map bind of_result].
      eexists _, _. split; [ reflexivity | ]. split; [ lia | ].
      intros id. unfold entered. cbn [andb]. rewrite app_nil_r.
      apply (kept_later db H t now HK Ht).
  - apply last_None in Hlast. rewrite Hrec.
    rewrite Hlast. cbn [in_window filter length]. unfold in_window. rewrite filter_nil.
    cbn [length]. rewrite bool_decide_eq_true_2 by lia.
    eexists _, 0. split; [ reflexivity | ]. split; [ lia | ].
    intros id. destruct (decide (id = id0)) as [->|Hid].
    + unfold entered. cbn [at_time by_user on_platform]. fold id0.
      rewrite bool_decide_eq_true_2 by reflexivity. cbn [andb].
      rewrite Hlast. cbn [app]. split; [ | split ].
      * unfold recorded. cbn [last]. eexists.
        split; [ apply lookup_insert_eq | ]. cbn [requests]. f_equal. unfold in_window.
        rewrite filter_cons, decide_True by lia. reflexivity.
      * repeat constructor. lia.
      * intros t'. rewrite filter_cons. destruct (decide _); simpl; lia.
    + apply Hother; [ | exact Hid ]. intros id' Hid'.
      apply lookup_insert_ne. congruence.
Qed.

(** A session, from a collection that holds the instants admitted so far. *)
Lemma serve_kept (calls : list request) :
  ∀ (db : collection) (H : string → list datetime) (t : datetime),
    kept self db H t → not_before t calls →
    Forall (λ c, window_in_range self (at_time c)) calls →
    ∃ db' answers,
      serve self db calls = Returns (db', answers)
      ∧ length answers = length calls
      ∧ kept self db' (λ id, H id ++ admitted id calls answers) (last_time t calls).
Proof.
  induction calls as [|c calls IH]; intros db H t HK Hnb Hr.
  - exists db, []. split; [ reflexivity | ]. split; [ reflexivity | ].
    intros id. cbn [admitted last_time]. rewrite app_nil_r. apply HK.
  - destruct Hnb as [Htc Hnb]. apply Forall_cons in Hr as [Hc Hr].
    destruct (is_allowed_step db H t c HK Htc Hc) as (db1 & wait & Hstep & _ & HK1).
    cbv zeta in Hstep, HK1.
    destruct (IH db1 _ (at_time c) HK1 Hnb Hr) as (db2 & answers & Hs & Hlen & HK2).
    eexists db2, (_ :: answers). cbn [serve]. rewrite Hstep, Hs.
    split; [ reflexivity | ]. split; [ cbn [length]; lia | ].
    intros id. specialize (HK2 id). cbn beta in HK2. rewrite <- app_assoc in HK2.
    rewrite admitted_cons. exact HK2.
Qed.

Lemma kept_empty (t : datetime) : kept self ∅ (λ _, []) t.
Proof.
  intros id. split; [ | split ].
  - apply lookup_empty.
  - constructor.
  - intros t'. rewrite filter_nil. cbn [length]. lia.
Qed.

(** A session from the empty collection. *)
Lemma serve_from_empty (calls : list request) (t0 : datetime) :
  not_before t0 calls → Forall (λ c, window_in_range self (at_time c)) calls →
  ∃ db answers,
    serve self ∅ calls = Returns (db, answers)
    ∧ length answers = length calls
    ∧ kept self db (λ id, admitted id calls answers) (last_time t0 calls).
Proof.
  intros Hnb Hr.
  destruct (serve_kept calls ∅ (λ _, []) t0 (kept_empty t0) Hnb Hr)
    as (db & answers & Hs & Hlen & HK).
  exists db, answers. split; [ exact Hs | ]. split; [ exact Hlen | exact HK ].
Qed.

Lemma not_before_last (calls : list request) :
  ∀ t, not_before t calls → t ≤ last_time t calls.
Proof.
  induction calls as [|c calls IH]; intros t Hnb; cbn [last_time]; [ lia | ].
  destruct Hnb as [Htc Hnb]. specialize (IH _ Hnb). lia.
Qed.

Lemma not_before_app (pre rest : list request) :
  ∀ t, not_before t (pre ++ rest) →
       not_before t pre ∧ not_before (last_time t pre) rest.
Proof.
  induction pre as [|c pre IH]; intros t Hnb; cbn [app last_time not_before] in *.
  - split; [ exact I | exact Hnb ].
  - destruct Hnb as [Htc Hnb]. destruct (IH _ Hnb) as [H1 H2].
    split; [ split; assumption | exact H2 ].
Qed.

Lemma serve_app (pre rest : list request) :
  ∀ db db' answers,
    serve self db (pre ++ rest) = Returns (db', answers) →
    ∃ db1 a1 a2,
      serve self db pre = Returns (db1, a1)
      ∧ serve self db1 rest = Returns (db', a2)
      ∧ answers = a1 ++ a2 ∧ length a1 = length pre.
Proof.
  induction pre as [|c pre IH]; intros db db' answers Hs; cbn [app serve] in *.
  - exists db, [], answers. repeat split; [ exact Hs ].
  - destruct (is_allowed self db (at_time c) (by_user c) (on_platform c))
      as [[db1 answer]| |]; try discriminate.
    destruct (serve self db1 (pre ++ rest)) as [[db2 answers']| |] eqn:Hrest;
      try discriminate.
    injection Hs as <- <-.
    destruct (IH _ _ _ Hrest) as (db3 & a1 & a2 & H1 & H2 & -> & Hlen).
    rewrite H1. exists db3, (answer :: a1), a2.
    split; [ reflexivity | ]. split; [ exact H2 | ].
    split; [ reflexivity | cbn [length]; lia ].
Qed.

End sliding_window.

(** The limiter keeps to its limit.  With [max_requests >= 1] and a window
    of positive length, a session that starts from the empty collection, in
    which the clock does not go back, never fails, and for each document
    (each platform and user) no window [(t - window_seconds, t]] holds more
    than [max_requests] requests that were allowed. *)
Theorem is_allowed_sliding_window (self : RateLimiter) (calls : list request)
    (t0 : datetime) :
  1 ≤ max_requests self → 0 < window_seconds self →
  not_before t0 calls → Forall (λ c, window_in_range self (at_time c)) calls →
  ∃ db answers,
    serve self ∅ calls = Returns (db, answers)
    ∧ length answers = length calls
    ∧ ∀ id t,
        Z.of_nat (length (filter (λ a, t - window_seconds self * 1000000 < a ≤ t)
                            (admitted id calls answers)))
        ≤ max_requests self.
Proof.
  intros Hmax Hw Hnb Hr.
  destruct (serve_from_empty self Hmax Hw calls t0 Hnb Hr) as (db & answers & Hs & Hlen & HK).
  exists db, answers. split; [ exact Hs | ]. split; [ exact Hlen | ].
  intros id t. destruct (HK id) as (_ & _ & Hl). apply Hl.
Qed.

(** [get_remaining] after a session reports what is left of the limit:
    [max_requests] less the requests of the user that were allowed within
    the window that ends now, a number that is not negative. *)
Theorem get_remaining_counts_admitted (self : RateLimiter) (calls : list request)
    (t0 : datetime) (db : collection) (answers : list (bool * Z)) (now : datetime)
    (user_id platform : string) :
  1 ≤ max_requests self → 0 < window_seconds self →
  not_before t0 calls → Forall (λ c, window_in_range self (at_time c)) calls →
  serve self ∅ calls = Returns (db, answers) →
  last_time t0 calls ≤ now → window_in_range self now →
  let used :=
    Z.of_nat (length (in_window (now - window_seconds self * 1000000)
                        (admitted (doc_id platform user_id) calls answers))) in
  get_remaining self db now user_id platform = Ok (max_requests self - used)
  ∧ 0 ≤ max_requests self - used.
Proof.
  intros Hmax Hw Hnb Hr Hs Hnow Hin used.
  destruct (serve_from_empty self Hmax Hw calls t0 Hnb Hr) as (db' & answers' & Hs' & _ & HK).
  rewrite Hs in Hs'. injection Hs' as <- <-.
  apply (kept_later self) with (t' := now) in HK; [ | exact Hnow ].
  destruct (HK (doc_id platform user_id)) as (Hrec & Hfor & Hlim).
  pose proof (within_limit_window self now _ Hfor Hlim) as Hused. fold used in Hused.
  split; [ | lia ].
  destruct (window_start_in_range self Hw now Hin) as [Htd Hws].
  unfold get_remaining. rewrite Htd. cbn [bind]. rewrite Hws. cbn [bind].
  unfold recorded in Hrec.
  destruct (last (admitted (doc_id platform user_id) calls answers)) as [a|] eqn:Hlast.
  - destruct Hrec as (data & Hdb & Hreq). rewrite Hdb, Hreq.
    change (default [] (Some ?l)) with l.
    pose proof (last_le now _ a Hfor Hlast) as Ha.
    rewrite in_window_twice by lia. fold used. f_equal. lia.
  - rewrite Hrec. apply last_None in Hlast. unfold used. rewrite Hlast.
    unfold in_window. rewrite filter_nil. cbn [length]. f_equal. lia.
Qed.

(** The limiter refuses nothing it could allow.  In a session as above, a
    request is allowed exactly when fewer than [max_requests] earlier
    requests of the same user were allowed within the window that ends at
    it; requests that were refused do not count.  The number of seconds
    returned is never negative. *)
Theorem is_allowed_when_room (self : RateLimiter) (pre : list request) (c : request)
    (post : list request) (t0 : datetime) (db : collection)
    (answers : list (bool * Z)) :
  1 ≤ max_requests self → 0 < window_seconds self →
  not_before t0 (pre ++ c :: post) →
  Forall (λ c, window_in_range self (at_time c)) (pre ++ c :: post) →
  serve self ∅ (pre ++ c :: post) = Returns (db, answers) →
  ∃ wait,
    answers !! length pre
    = Some (bool_decide
              (Z.of_nat
                 (length (in_window (at_time c - window_seconds self * 1000000)
                            (admitted (doc_id (on_platform c) (by_user c)) pre
                               (take (length pre) answers))))
               < max_requests self),
            wait)
    ∧ 0 ≤ wait.
Proof.
  intros Hmax Hw Hnb Hr Hs.
  destruct (serve_app self pre (c :: post) _ _ _ Hs)
    as (db1 & a1 & a2 & Hpre & Hrest & -> & Hlen).
  apply not_before_app in Hnb as [Hnb1 Hnb2]. destruct Hnb2 as [Htc _].
  apply Forall_app in Hr as [Hr1 Hr2]. apply Forall_cons in Hr2 as [Hc _].
  destruct (serve_from_empty self Hmax Hw pre t0 Hnb1 Hr1) as (db' & a' & Hs' & _ & HK).
  rewrite Hpre in Hs'. injection Hs' as <- <-.
  destruct (is_allowed_step self Hmax Hw db1 _ _ c HK Htc Hc)
    as (db2 & wait & Hstep & Hwait & _).
  cbv zeta in Hstep. cbn [serve] in Hrest. rewrite Hstep in Hrest.
  destruct (serve self db2 post) as [[db3 a3]| |]; try discriminate.
  injection Hrest as <- <-.
  exists wait. split; [ | exact Hwait ].
  rewrite <- Hlen, take_app_length, lookup_app_r by lia.
  rewrite Nat.sub_diag. reflexivity.
Qed.

Lemma is_allowed_sliding_window_witness :
  ∃ db answers,
    serve of_handlers ∅ (burst ++ [later]) = Returns (db, answers)
    ∧ length answers = length (burst ++ [later])
    ∧ ∀ id t,
        Z.of_nat (length (filter (λ a, t - window_seconds of_handlers * 1000000 < a ≤ t)
                            (admitted id (burst ++ [later]) answers)))
        ≤ max_requests of_handlers.
Proof.
  apply (is_allowed_sliding_window of_handlers (burst ++ [later]) new_year).
  - cbn. lia.
  - cbn. lia.
  - vm_compute. repeat split; discriminate.
  - repeat constructor; vm_compute; discriminate.
Defined.

Lemma get_remaining_counts_admitted_witness :
  ∃ db answers,
    serve of_handlers ∅ burst = Returns (db, answers)
    ∧ get_remaining of_handlers db (at_time later) "7" "telegram" = Ok 1.
Proof.
  assert (H1 : 1 ≤ max_requests of_handlers) by (cbn; lia).
  assert (H2 : 0 < window_seconds of_handlers) by (cbn; lia).
  assert (H3 : not_before new_year burst).
  { vm_compute. repeat split; discriminate. }
  assert (H4 : Forall (λ c, window_in_range of_handlers (at_time c)) burst).
  { repeat constructor; vm_compute; discriminate. }
  assert (H5 : last_time new_year burst ≤ at_time later).
  { vm_compute. discriminate. }
  assert (H6 : window_in_range of_handlers (at_time later)).
  { split; vm_compute; discriminate. }
  destruct (serve_from_empty of_handlers H1 H2 burst new_year H3 H4)
    as (db & answers & Hs & _).
  exists db, answers. split; [ exact Hs | ].
  destruct (get_remaining_counts_admitted of_handlers burst new_year db answers
              (at_time later) "7" "telegram" H1 H2 H3 H4 Hs H5 H6) as [Hg _].
  rewrite Hg.
  apply (f_equal (λ o, match o with Returns (_, a) => a | _ => [] end)) in Hs.
  vm_compute in Hs. rewrite <- Hs. reflexivity.
Defined.

Lemma is_allowed_when_room_witness :
  ∃ db answers wait,
    serve of_handlers ∅ burst = Returns (db, answers)
    ∧ answers !! 10%nat = Some (false, wait) ∧ 0 ≤ wait.
Proof.
  assert (H1 : 1 ≤ max_requests of_handlers) by (cbn; lia).
  assert (H2 : 0 < window_seconds of_handlers) by (cbn; lia).
  assert (H3 : not_before new_year burst).
  { vm_compute. repeat split; discriminate. }
  assert (H4 : Forall (λ c, window_in_range of_handlers (at_time c)) burst).
  { repeat constructor; vm_compute; discriminate. }
  destruct (serve_from_empty of_handlers H1 H2 burst new_year H3 H4)
    as (db & answers & Hs & _).
  destruct (is_allowed_when_room of_handlers (take 10 burst)
              {| at_time := new_year + 10000000; by_user := "7";
                 on_platform := "telegram" |}
              (drop 11 burst) new_year db answers H1 H2 H3 H4 Hs)
    as (wait & Hw & Hpos).
  exists db, answers, wait. split; [ exact Hs | ]. split; [ | exact Hpos ].
  change (length (take 10 burst)) with 10%nat in Hw. rewrite Hw.
  apply (f_equal (λ o, match o with Returns (_, a) => a | _ => [] end)) in Hs.
  vm_compute in Hs. rewrite <- Hs. reflexivity.
Defined.

(** A limiter without quota.  With [max_requests <= 0] the first request of
    a user is allowed all the same: there is no document yet, and the limit
    is not looked at.  Once the document exists no request is allowed, and a
    request fails with [IndexError] when none of the recorded requests is
    within the window. *)
Theorem is_allowed_without_quota (self : RateLimiter) (db : collection) (now : datetime)
    (user_id platform : string) :
  max_requests self ≤ 0 → 0 < window_seconds self → window_in_range self now →
  match db !! doc_id platform user_id with
  | None => ∃ db', is_allowed self db now user_id platform = Returns (db', (true, 0))
  | Some data =>
    (in_window (now - window_seconds self * 1000000) (default [] (requests data)) = []
     → is_allowed self db now user_id platform = RaisesIndexError)
    ∧ ∀ db' wait, is_allowed self db now user_id platform ≠ Returns (db', (true, wait))
  end.
Proof.
  intros Hmax Hw Hin.
  destruct (window_start_in_range self Hw now Hin) as [Htd Hws].
  unfold is_allowed. rewrite Htd. cbn [bind]. rewrite Hws.
  destruct (db !! doc_id platform user_id) as [data|]; [ | eauto ].
  cbv zeta. rewrite bool_decide_eq_true_2 by lia. split.
  - intros ->. reflexivity.
  - intros db' wait.
    destruct (in_window _ _) as [|oldest rest]; [ discriminate | ].
    destruct (datetime_add oldest _) as [reset_time|e]; cbn [bind of_result];
      [ | discriminate ].
    destruct (total_seconds _) as [seconds|e]; cbn [bind of_result]; [ | discriminate ].
    destruct (trunc_float seconds) as [whole|e]; cbn [map bind of_result]; discriminate.
Qed.

Lemma is_allowed_without_quota_witness :
  ∃ db',
    is_allowed {| max_requests := 0; window_seconds := 60 |} ∅ new_year "7" "telegram"
    = Returns (db', (true, 0)).
Proof.
  pose proof (is_allowed_without_quota {| max_requests := 0; window_seconds := 60 |}
                ∅ new_year "7" "telegram") as H.
  rewrite lookup_empty in H. apply H.
  - cbn. lia.
  - cbn. lia.
  - split; vm_compute; discriminate.
Defined.

(** ** The allowlist and the conversation histories *)

Import firestore_client.

Lemma slice_from_end {A} (l : list A) (n : Z) :
  1 ≤ n → slice_from l (- n) = last_n (Z.to_nat n) l.
Proof.
  intros Hn. unfold slice_from, last_n.
  rewrite bool_decide_eq_true_2 by lia. f_equal. lia.
Qed.

Lemma last_n_twice {A} (a b : nat) (l : list A) :
  last_n a (last_n b l) = last_n (a `min` b) l.
Proof.
  unfold last_n. rewrite drop_drop, length_drop. f_equal. lia.
Qed.

Lemma last_n_all {A} (n : nat) (l : list A) :
  (length l ≤ n)%nat → last_n n l = l.
Proof.
  intros Hl. unfold last_n. replace (length l - n)%nat with 0%nat by lia. reflexivity.
Qed.

Lemma last_n_snoc {A} (n : nat) (l : list A) (x : A) :
  (1 ≤ n)%nat → ∃ k, last_n n (l ++ [x]) = k ++ [x].
Proof.
  intros Hn. unfold last_n. rewrite length_app. cbn [length].
  rewrite drop_app_le by lia. eauto.
Qed.

(** What [add_message] leaves in the document of the user. *)
Lemma add_message_history (db : conversations) (now1 now2 now3 : datetime)
    (user_id role content platform : string) (max_history : Z) :
  let message := {| role := role; content := content; timestamp := now1 |} in
  let db' :=
    (add_message db now1 now2 now3 user_id role content platform max_history).1 in
  history db' user_id platform
  = match db !! doc_id platform user_id with
    | Some _ =>
      let messages := history db user_id platform ++ [message] in
      if bool_decide (max_history < Z.of_nat (length messages))
      then slice_from messages (- max_history) else messages
    | None => [message]
    end.
Proof.
  cbv zeta. unfold add_message, history.
  destruct (db !! doc_id platform user_id) as [data|] eqn:Hdb; cbn [fst].
  - rewrite lookup_insert_eq. reflexivity.
  - rewrite lookup_insert_eq. reflexivity.
Qed.

Lemma get_conversation_history_slice (db : conversations) (user_id platform : string)
    (limit : Z) :
  get_conversation_history db user_id platform limit
  = slice_from (history db user_id platform) (- limit).
Proof.
  unfold get_conversation_history, history.
  destruct (db !! doc_id platform user_id); [ reflexivity | ].
  unfold slice_from. rewrite drop_nil. reflexivity.
Qed.

Lemma add_message_others (db : conversations) (now1 now2 now3 : datetime)
    (user_id role content platform : string) (max_history : Z) (id : string) :
  id ≠ doc_id platform user_id →
  (add_message db now1 now2 now3 user_id role content platform max_history).1 !! id
  = db !! id.
Proof.
  intros Hid. unfold add_message.
  destruct (db !! doc_id platform user_id); cbn [fst];
    apply lookup_insert_ne; congruence.
Qed.

(** A message added is the last of the history read afterwards.  With
    [max_history >= 1] and [limit >= 1], the history read after
    [add_message] is made of the last messages of the history kept before
    and of the new message: the last [min(limit, max_history)] of them,
    oldest first.  The conversations of the other documents are as
    before. *)
Theorem add_message_then_history (db : conversations) (now1 now2 now3 : datetime)
    (user_id role content platform : string) (max_history limit : Z) :
  1 ≤ max_history → 1 ≤ limit →
  let message := {| role := role; content := content; timestamp := now1 |} in
  let db' :=
    (add_message db now1 now2 now3 user_id role content platform max_history).1 in
  get_conversation_history db' user_id platform limit
  = last_n (Z.to_nat (Z.min limit max_history))
      (history db user_id platform ++ [message])
  ∧ (∃ earlier, get_conversation_history db' user_id platform limit
                = earlier ++ [message])
  ∧ (∀ user_id' platform' limit',
       doc_id platform' user_id' ≠ doc_id platform user_id →
       get_conversation_history db' user_id' platform' limit'
       = get_conversation_history db user_id' platform' limit').
Proof.
  intros Hmax Hlimit message db'.
  assert (Hread : get_conversation_history db' user_id platform limit
                  = last_n (Z.to_nat (Z.min limit max_history))
                      (history db user_id platform ++ [message])).
  { rewrite get_conversation_history_slice. unfold db'.
    rewrite add_message_history. cbv zeta. fold message.
    rewrite slice_from_end by lia.
    assert (Hkept : (match db !! doc_id platform user_id with
                     | Some _ =>
                       if bool_decide
                            (max_history
                             < Z.of_nat (length (history db user_id platform ++ [message])))
                       then slice_from (history db user_id platform ++ [message])
                              (- max_history)
                       else history db user_id platform ++ [message]
                     | None => [message]
                     end)
                    = last_n (Z.to_nat max_history)
                        (history db user_id platform ++ [message])).
    { destruct (db !! doc_id platform user_id) as [data|] eqn:Hdb.
      - destruct (bool_decide_reflect
                    (max_history
                     < Z.of_nat (length (history db user_id platform ++ [message]))))
          as [Hlong|Hshort].
        + apply slice_from_end. lia.
        + symmetry. apply last_n_all. lia.
      - unfold history. rewrite Hdb. cbn [app]. symmetry. apply last_n_all.
        cbn [length]. lia. }
    rewrite Hkept, last_n_twice. f_equal. lia. }
  split; [ exact Hread | ]. split.
  - rewrite Hread. apply last_n_snoc. lia.
  - intros user_id' platform' limit' Hid. unfold get_conversation_history, db'.
    cbv zeta. rewrite add_message_others by exact Hid. reflexivity.
Qed.

Lemma add_message_then_history_witness :
  let said := {| role := "user"; content := "AAPL 500"; timestamp := 5 |} in
  get_conversation_history
    (add_message ∅ 5 6 7 "7" "user" "AAPL 500" "telegram" 50).1 "7" "telegram" 20
  = [said].
Proof.
  intros said.
  destruct (add_message_then_history ∅ 5 6 7 "7" "user" "AAPL 500" "telegram" 50 20)
    as (Hread & _); [ lia | lia | ].
  rewrite Hread. reflexivity.
Defined.

(** Zero is no limit.  [get_conversation_history] with [limit = 0] returns
    the whole history and not an empty list, and [add_message] with
    [max_history = 0] trims nothing: the history grows by the message. *)
Theorem zero_limit_keeps_all (db : conversations) (now1 now2 now3 : datetime)
    (user_id role content platform : string) :
  get_conversation_history db user_id platform 0 = history db user_id platform
  ∧ history (add_message db now1 now2 now3 user_id role content platform 0).1
      user_id platform
    = history db user_id platform
      ++ [{| role := role; content := content; timestamp := now1 |}].
Proof.
  split.
  - rewrite get_conversation_history_slice. unfold slice_from.
    rewrite bool_decide_eq_false_2 by lia.
    replace (Z.to_nat (Z.min (- 0) (Z.of_nat (length (history db user_id platform)))))
      with 0%nat by lia.
    reflexivity.
  - pose proof (add_message_history db now1 now2 now3 user_id role content platform 0) as H.
    cbv zeta in H. rewrite H. clear H.
    destruct (db !! doc_id platform user_id) as [data|] eqn:Hdb.
    + rewrite bool_decide_eq_true_2 by (rewrite length_app; cbn [length]; lia).
      unfold slice_from. rewrite bool_decide_eq_false_2 by lia.
      match goal with |- drop ?n _ = _ => replace n with 0%nat by lia end.
      reflexivity.
    + unfold history. rewrite Hdb. reflexivity.
Qed.

(** [clear_conversation] forgets the conversation of the user and no other:
    the history read afterwards is empty whatever the limit, the first
    message added afterwards is the whole history whatever [max_history],
    and the documents of the other users are as before. *)
Theorem clear_conversation_forgets (db : conversations) (user_id platform : string) :
  let db' := (clear_conversation db user_id platform).1 in
  (∀ limit, get_conversation_history db' user_id platform limit = [])
  ∧ (∀ now1 now2 now3 role content max_history,
       history (add_message db' now1 now2 now3 user_id role content platform
                  max_history).1 user_id platform
       = [{| role := role; content := content; timestamp := now1 |}])
  ∧ (∀ id, id ≠ doc_id platform user_id → db' !! id = db !! id).
Proof.
  cbv zeta. unfold clear_conversation. cbn [fst].
  assert (Hgone : delete (doc_id platform user_id) db !! doc_id platform user_id = None)
    by apply lookup_delete_eq.
  split; [ | split ].
  - intros limit. unfold get_conversation_history. cbv zeta.
    rewrite Hgone. reflexivity.
  - intros now1 now2 now3 role content max_history.
    pose proof (add_message_history (delete (doc_id platform user_id) db)
                  now1 now2 now3 user_id role content platform max_history) as H.
    cbv zeta in H. rewrite H, Hgone. reflexivity.
  - intros id Hid. apply lookup_delete_ne. congruence.
Qed.

(** *** The allowlist *)

Lemma telegram_allowed_iff (db : users) (telegram_id : Z) :
  is_telegram_user_allowed db telegram_id = true
  ↔ ∃ phone data, db !! phone = Some data ∧ selected telegram_id data.
Proof.
  unfold is_telegram_user_allowed. rewrite bool_decide_eq_true.
  split.
  - intros Hlen.
    destruct (filter (selected telegram_id) (map_to_list db).*2) as [|data rest] eqn:Hf.
    { cbn in Hlen. lia. }
    assert (Hin : data ∈ filter (selected telegram_id) (map_to_list db).*2).
    { rewrite Hf. left. }
    apply list_elem_of_filter in Hin as [Hsel Hin].
    apply list_elem_of_fmap in Hin as ([phone data'] & -> & Hin).
    apply elem_of_map_to_list in Hin. exists phone, data'. split; assumption.
  - intros (phone & data & Hdb & Hsel).
    assert (Hin : data ∈ filter (selected telegram_id) (map_to_list db).*2).
    { apply list_elem_of_filter. split; [ exact Hsel | ].
      apply list_elem_of_fmap. exists (phone, data). split; [ reflexivity | ].
      apply elem_of_map_to_list. exact Hdb. }
    destruct (filter (selected telegram_id) (map_to_list db).*2) as [|x rest].
    + inversion Hin.
    + cbn. lia.
Qed.

(** [add_allowed_user] authorises the phone number and the Telegram id it
    is given, and nobody else: every other Telegram id allowed afterwards
    was allowed before, and the other phone numbers are as before. *)
Theorem add_allowed_user_authorises (db : users) (now1 now2 : datetime)
    (phone_number : string) (telegram_id : Z) (name : option string) :
  let db' := (add_allowed_user db now1 now2 phone_number (Some telegram_id) name).1 in
  is_user_allowed db' phone_number = true
  ∧ is_telegram_user_allowed db' telegram_id = true
  ∧ (∀ other, other ≠ telegram_id →
       is_telegram_user_allowed db' other = true →
       is_telegram_user_allowed db other = true)
  ∧ (∀ other, other ≠ phone_number →
       is_user_allowed db' other = is_user_allowed db other).
Proof.
  cbv zeta. unfold add_allowed_user. cbn [fst].
  split; [ | split; [ | split ] ].
  - unfold is_user_allowed. rewrite lookup_insert_eq. reflexivity.
  - apply telegram_allowed_iff. eexists phone_number, _.
    split; [ apply lookup_insert_eq | ]. split; reflexivity.
  - intros other Hother Hallowed. apply telegram_allowed_iff in Hallowed.
    destruct Hallowed as (phone & data & Hdb & Hsel).
    apply telegram_allowed_iff. exists phone, data. split; [ | exact Hsel ].
    destruct (decide (phone = phone_number)) as [->|Hne].
    + rewrite lookup_insert_eq in Hdb. injection Hdb as <-.
      destruct Hsel as [Hid _]. cbn in Hid. congruence.
    + rewrite lookup_insert_ne in Hdb by congruence. exact Hdb.
  - intros other Hother. unfold is_user_allowed.
    rewrite lookup_insert_ne by congruence. reflexivity.
Qed.

(** [link_telegram_id] changes nothing and answers [False] for a phone
    number that has no document.  For one that has, it answers [True], and
    the Telegram id is allowed afterwards exactly when the user of the phone
    number is active, or the id is allowed through the document of another
    phone number: linking does not activate a user. *)
Theorem link_telegram_id_allows (db : users) (now : datetime) (phone_number : string)
    (telegram_id : Z) :
  match db !! phone_number with
  | None => link_telegram_id db now phone_number telegram_id = (db, false)
  | Some data =>
    ∃ db', link_telegram_id db now phone_number telegram_id = (db', true)
      ∧ (is_telegram_user_allowed db' telegram_id = true
         ↔ active data = Some true
           ∨ ∃ other data', other ≠ phone_number ∧ db !! other = Some data'
                            ∧ selected telegram_id data')
  end.
Proof.
  unfold link_telegram_id.
  destruct (db !! phone_number) as [data|] eqn:Hdb; [ | reflexivity ].
  eexists. split; [ reflexivity | ].
  rewrite telegram_allowed_iff. split.
  - intros (phone & data' & Hdb' & Hsel).
    destruct (decide (phone = phone_number)) as [->|Hne].
    + rewrite lookup_insert_eq in Hdb'. injection Hdb' as <-.
      left. destruct Hsel as [_ Hact]. exact Hact.
    + rewrite lookup_insert_ne in Hdb' by congruence.
      right. exists phone, data'. split; [ exact Hne | ]. split; assumption.
  - intros [Hact|(other & data' & Hne & Hdb' & Hsel)].
    + eexists phone_number, _. split; [ apply lookup_insert_eq | ].
      split; [ reflexivity | exact Hact ].
    + exists other, data'. split; [ | exact Hsel ].
      rewrite lookup_insert_ne by congruence. exact Hdb'.
Qed.
